(** * Frame synchronisation and integrity checking of the ADC capture scripts

    A shallow embedding of the four frame decoders of the repository

    - [ADC_reading_HAL/ADC_csv_gather.py]            (serial, minimal header),
    - [ADC_HAL_reduceclipping/ADC_readcsv_reducedclipping.py]
                                                      (serial, gap-cycle header),
    - [2khz_RPC_sampling/RPC_capture.py]              (RPC blob, count + seq),
    - [RPCtests/RPC_sample_csv.py]                    (RPC blob, interleaved
                                                       timestamps),

    of their [main], of the SPI batch scripts ([csvfile.py], [csvlist.py],
    [debug.py], [speed.py], [raw_adc_csv.py]) and of the live monitor
    ([csv_readings/livemonitor.py]), followed by the properties of the
    specification that concern the decoders and by further properties of
    the code.  ([read_pins.py] only prints, and [csv_readings/csv_to_wav.py]
    computes on floating-point arrays; neither is modelled.)

    Python integers are unbounded, hence [Z]; [bytes] objects are lists of
    [Byte.byte]; time is counted in milliseconds in [N].

    Left out of the model: the progress and summary prints, the formatted
    [voltage_V] column (a function of [adc_raw] alone), the running sum
    [total_gap_us] (printed only), the CSV header row, the
    [KeyboardInterrupt] handler, and what precedes the first [sync] (opening
    the port, the pause, [reset_input_buffer]).  Computation takes no time:
    the clock moves only while a read waits for a byte. *)

From Stdlib Require Import ZArith NArith List Bool Lia.
From Stdlib Require Import Strings.Byte.
Import ListNotations.
Open Scope Z_scope.

(** ** Bytes and [struct] decoding *)

Definition bytes := list byte.

Definition b2z (b : byte) : Z := Z.of_N (Byte.to_N b).

(** Exceptions that the modelled code can raise. *)
Inductive exn :=
| TimeoutError   (* raised by [read_exact] *)
| StructError    (* struct.error: buffer too small for [unpack_from] *)
| IndexError.    (* bytes index out of range *)

(** Result of a pure Python expression that may raise. *)
Inductive py (A : Type) :=
| Val (a : A)
| Exn (e : exn).
Arguments Val {A} a.
Arguments Exn {A} e.

Definition py_bind {A B} (m : py A) (k : A -> py B) : py B :=
  match m with
  | Val a => k a
  | Exn e => Exn e
  end.

Declare Scope py_scope.
Delimit Scope py_scope with py.
Notation "x <- m ;; k" := (py_bind m (fun x => k))
  (at level 61, m at next level, right associativity) : py_scope.

(** Little-endian unsigned value of a byte string. *)
Fixpoint le_uint (bs : bytes) : Z :=
  match bs with
  | [] => 0
  | b :: rest => b2z b + 256 * le_uint rest
  end.

(** The 16-bit little-endian words of a byte string. *)
Fixpoint words16 (bs : bytes) : list Z :=
  match bs with
  | a :: b :: rest => le_uint [a; b] :: words16 rest
  | _ => []
  end.

(** [buf[off : off+n]] when the slice is entirely inside the buffer,
    [struct.error] otherwise: the bounds check of [struct.unpack_from]. *)
Definition field (n : nat) (buf : bytes) (off : nat) : py bytes :=
  if (off + n <=? length buf)%nat
  then Val (firstn n (skipn off buf))
  else Exn StructError.

(** [struct.unpack_from("<H", buf, off)[0]] *)
Definition unpack_H (buf : bytes) (off : nat) : py Z :=
  (bs <- field 2 buf off ;; Val (le_uint bs))%py.

(** [struct.unpack_from("<I", buf, off)[0]] *)
Definition unpack_I (buf : bytes) (off : nat) : py Z :=
  (bs <- field 4 buf off ;; Val (le_uint bs))%py.

(** Two's-complement reading of a 16-bit container (format character [h]). *)
Definition to_int16 (u : Z) : Z := if u <? 32768 then u else u - 65536.

(** [struct.unpack_from("<h", buf, off)[0]] *)
Definition unpack_h (buf : bytes) (off : nat) : py Z :=
  (bs <- field 2 buf off ;; Val (to_int16 (le_uint bs)))%py.

(** [struct.unpack_from(f"<{n}h", buf)]: [n] consecutive signed shorts. *)
Fixpoint unpack_h_seq (n : nat) (buf : bytes) (off : nat) : py (list Z) :=
  match n with
  | O => Val []
  | S n' =>
      (s <- unpack_h buf off ;;
       rest <- unpack_h_seq n' buf (off + 2) ;;
       Val (s :: rest))%py
  end.

Definition unpack_nh (n : nat) (buf : bytes) : py (list Z) :=
  if (2 * n <=? length buf)%nat then unpack_h_seq n buf 0 else Exn StructError.

(** [buf[i]] for a non-negative index. *)
Definition index (buf : bytes) (i : nat) : py Z :=
  match nth_error buf i with
  | Some b => Val (b2z b)
  | None => Exn IndexError
  end.

(** [buf[-k]] for [k >= 1]. *)
Definition index_back (buf : bytes) (k : nat) : py Z :=
  if (k <=? length buf)%nat then index buf (length buf - k) else Exn IndexError.

(** [buf[:-2]] *)
Definition drop_last2 (buf : bytes) : bytes := firstn (length buf - 2) buf.

(** The last two bytes of a buffer read as a little-endian number: the
    transmitted checksum of the blob formats. *)
Definition trailer (buf : bytes) : Z := le_uint (skipn (length buf - 2) buf).

(** ** Checksums *)

(** [crc16] of the two serial scripts (identical text in both):
<<
    crc = 0xFFFF
    for b in data:
        crc ^= b << 8
        for _ in range(8):
            crc = (crc << 1) ^ 0x1021 if crc & 0x8000 else crc << 1
        crc &= 0xFFFF
    return crc
>> *)
Definition crc16_bit (crc : Z) : Z :=
  if Z.land crc 0x8000 =? 0
  then Z.shiftl crc 1
  else Z.lxor (Z.shiftl crc 1) 0x1021.

Definition crc16_byte (crc : Z) (b : byte) : Z :=
  Z.land (Nat.iter 8 crc16_bit (Z.lxor crc (Z.shiftl (b2z b) 8))) 0xFFFF.

Definition crc16 (data : bytes) : Z := fold_left crc16_byte data 0xFFFF.

(** [crc16_ibm] of the two RPC scripts ([CRC_POLY = 0xA001]):
<<
    crc = 0
    for b in data:
        crc ^= b
        for _ in range(8):
            crc = (crc >> 1) ^ 0xA001 if crc & 1 else crc >> 1
    return crc & 0xFFFF
>> *)
Definition CRC_POLY : Z := 0xA001.

Definition crc16_ibm_bit (crc : Z) : Z :=
  if Z.land crc 1 =? 0
  then Z.shiftr crc 1
  else Z.lxor (Z.shiftr crc 1) CRC_POLY.

Definition crc16_ibm_byte (crc : Z) (b : byte) : Z :=
  Nat.iter 8 crc16_ibm_bit (Z.lxor crc (b2z b)).

Definition crc16_ibm (data : bytes) : Z :=
  Z.land (fold_left crc16_ibm_byte data 0) 0xFFFF.

(** [a == b] on [bytes] objects. *)
Fixpoint bytes_eqb (a b : bytes) : bool :=
  match a, b with
  | [], [] => true
  | x :: a', y :: b' => Byte.eqb x y && bytes_eqb a' b'
  | _, _ => false
  end.

(** Sequence tracking of [run_capture] (the same text in the serial scripts
    and in RPC_capture.py):
<<
    if last_seq is not None:
        expected = (last_seq + 1) & 0xFFFFFFFF
        if seq_no != expected:
            seq_errors += 1
    last_seq = seq_no
>> *)
Definition track_seq (seq_no : Z) (last : option Z) (errors : Z) : option Z * Z :=
  (Some seq_no,
   match last with
   | Some l =>
       let expected := Z.land (l + 1) 0xFFFFFFFF in
       if seq_no =? expected then errors else errors + 1
   | None => errors
   end).

(** The sequence tracker as the specification words it: the first accepted
    frame reports no gap; afterwards a gap is reported when the number is
    not [(last_accepted + 1) mod 2^32]. *)
Definition spec_gap (last_accepted : option Z) (seq : Z) : bool :=
  match last_accepted with
  | None => false
  | Some l => negb (seq =? (l + 1) mod 2 ^ 32)
  end.

(** Gaps reported along a run of accepted sequence numbers. *)
Fixpoint spec_gaps (last_accepted : option Z) (seqs : list Z) : Z :=
  match seqs with
  | [] => 0
  | seq :: rest =>
      (if spec_gap last_accepted seq then 1 else 0) + spec_gaps (Some seq) rest
  end.

Module Serial.

(** ** The serial port

    [ser = serial.Serial(port, BAUD, timeout=1.0)] is the byte source of the
    two serial scripts.  The port is modelled by the bytes that are still to
    arrive, each with the delay (in ms) that separates it from the previous
    event, and by the monotonic clock.  Bytes that never arrive are simply
    absent: an exhausted wire is a link that stays silent. *)

Record world := mkWorld {
  now  : N;                  (* time.monotonic(), in ms *)
  wire : list (N * byte)     (* (delay, byte) still to arrive *)
}.

(** The [timeout=1.0] of the [serial.Serial] constructor. *)
Definition READ_TIMEOUT : N := 1000.

(** [ser.read(size)]: blocks until [size] bytes have arrived or the timeout
    has elapsed since the call, and returns what has arrived (possibly
    nothing). *)
Fixpoint ser_read_within (budget : N) (size : nat) (w : world) : bytes * world :=
  match size with
  | O => ([], w)
  | S size' =>
      match wire w with
      | [] => ([], mkWorld (now w + budget) [])
      | (dt, b) :: rest =>
          if (dt <=? budget)%N
          then let '(got, w') :=
                 ser_read_within (budget - dt) size' (mkWorld (now w + dt) rest) in
               (b :: got, w')
          else ([], mkWorld (now w + budget) ((dt - budget, b)%N :: rest))
      end
  end.

Definition ser_read (size : nat) (w : world) : bytes * world :=
  ser_read_within READ_TIMEOUT size w.

(** A stream whose bytes are all available at once. *)
Definition instant (bs : bytes) : list (N * byte) := map (fun b => (0%N, b)) bs.

(** The time a stream takes to arrive. *)
Fixpoint span (ws : list (N * byte)) : N :=
  match ws with
  | [] => 0
  | (dt, _) :: rest => dt + span rest
  end.

(** A stream that delivers a byte every [dt] milliseconds. *)
Definition paced (dt : N) (bs : bytes) : list (N * byte) := map (fun b => (dt, b)) bs.

(** A stream none of whose bytes lets the read timeout elapse. *)
Definition punctual (ws : list (N * byte)) : bool :=
  forallb (fun p => (fst p <=? READ_TIMEOUT)%N) ws.

(** ** Computations on the port and on the session

    Outcome of a computation on a state of type [S]: a value, a raised
    exception (with the state reached when it was raised), or exhaustion of
    the iteration bound of a [while] loop of the model. *)
Inductive res (S A : Type) :=
| Ok (a : A) (s : S)
| Raise (e : exn) (s : S)
| Fuel.
Arguments Ok {S A} a s.
Arguments Raise {S A} e s.
Arguments Fuel {S A}.

Definition M (S A : Type) := S -> res S A.

Definition ret {S A} (a : A) : M S A := fun s => Ok a s.

Definition bind {S A B} (m : M S A) (k : A -> M S B) : M S B :=
  fun s => match m s with
           | Ok a s' => k a s'
           | Raise e s' => Raise e s'
           | Fuel => Fuel
           end.

Declare Scope io_scope.
Delimit Scope io_scope with io.
Notation "x <- m ;; k" := (bind m (fun x => k))
  (at level 61, m at next level, right associativity) : io_scope.
Notation "m ;; k" := (bind m (fun _ => k))
  (at level 61, right associativity) : io_scope.

Definition raise {S A} (e : exn) : M S A := fun s => Raise e s.

(** The state a computation ends in, by return or by exception. *)
Definition final {S A} (r : res S A) : option S :=
  match r with
  | Ok _ s => Some s
  | Raise _ s => Some s
  | Fuel => None
  end.

(** A pure expression that may raise. *)
Definition lift {S A} (v : py A) : M S A :=
  fun s => match v with
           | Val a => Ok a s
           | Exn e => Raise e s
           end.

(** [ser.read(size)] *)
Definition read (size : nat) : M world bytes :=
  fun w => let '(got, w') := ser_read size w in Ok got w'.

(** [time.monotonic()] *)
Definition monotonic : M world N := fun w => Ok (now w) w.

(** [MAGIC_B = bytes([0x5A, 0xA5])] *)
Definition MAGIC_B : bytes := [x5a; xa5].

(** [read_exact]:
<<
    buf = b""
    while len(buf) < n:
        chunk = ser.read(n - len(buf))
        if not chunk:
            raise TimeoutError(...)
        buf += chunk
    return buf
>>
    Every iteration that does not raise lengthens [buf], so [n] iterations
    are enough. *)
Fixpoint read_exact_loop (fuel : nat) (n : nat) (buf : bytes) : M world bytes :=
  if (length buf <? n)%nat then
    match fuel with
    | O => fun _ => Fuel
    | S fuel' =>
        (chunk <- read (n - length buf) ;;
         match chunk with
         | [] => raise TimeoutError
         | _ => read_exact_loop fuel' n (buf ++ chunk)
         end)%io
    end
  else ret buf.

Definition read_exact (n : nat) : M world bytes := read_exact_loop n n [].

(** [sync]:
<<
    deadline = time.monotonic() + timeout
    prev = b""
    while time.monotonic() < deadline:
        b = ser.read(1)
        if not b:
            continue
        if prev == bytes([0x5A]) and b == bytes([0xA5]):
            return True
        prev = b
    return False
>> *)
Fixpoint sync_loop (fuel : nat) (deadline : N) (prev : bytes) : M world bool :=
  (t <- monotonic ;;
   if (t <? deadline)%N then
     match fuel with
     | O => fun _ => Fuel
     | S fuel' =>
         b <- read 1 ;;
         match b with
         | [] => sync_loop fuel' deadline prev
         | _ =>
             if bytes_eqb prev [x5a] && bytes_eqb b [xa5]
             then ret true
             else sync_loop fuel' deadline b
         end
     end
   else ret false)%io.

(** Iterations [sync] can need: one per pending byte and one per read that
    times out before the deadline. *)
Definition sync_fuel (timeout : N) (w : world) : nat :=
  (length (wire w) + N.to_nat (timeout / READ_TIMEOUT) + 2)%nat.

(** Reads that can still time out before the deadline. *)
Definition ticks (deadline t : N) : nat :=
  N.to_nat ((deadline - t + 999) / 1000).

Definition sync (timeout : N) : M world bool :=
  fun w => sync_loop (sync_fuel timeout w) (now w + timeout) [] w.

(** An occurrence of the marker [0x5A 0xA5] in a byte string. *)
Fixpoint contains_magic (bs : bytes) : bool :=
  match bs with
  | a :: (b :: _) as rest =>
      (Byte.eqb a x5a && Byte.eqb b xa5) || contains_magic rest
  | _ => false
  end.

(** ** The capture session of the serial scripts *)

(** One line of the CSV file.  The [voltage_V] column is a formatted float
    computed from [adc_raw] alone and is left out; [gap_flag] is the fourth
    column of the gap-tracking script and absent ([None]) in the other. *)
Record row := mkRow {
  sample_index : Z;
  adc_raw      : Z;
  gap_flag     : option Z
}.

(** The local variables of [run_capture] that outlive one loop iteration,
    and the rows written so far. *)
Record locals := mkLocals {
  total      : Z;
  bad_crc    : Z;
  seq_errors : Z;
  last_seq   : option Z;
  csv        : list row
}.

Record state := mkState {
  port : world;
  vars : locals
}.


(** A computation on the port, run inside the session. *)
Definition io {A} (m : M world A) : M state A :=
  fun s => match m (port s) with
           | Ok a w => Ok a (mkState w (vars s))
           | Raise e w => Raise e (mkState w (vars s))
           | Fuel => Fuel
           end.

Definition get : M state locals := fun s => Ok (vars s) s.

Definition modify (f : locals -> locals) : M state unit :=
  fun s => Ok tt (mkState (port s) (f (vars s))).

(** Loop control of one iteration of the capture loop: fall through or
    [continue] on the one hand, [break] on the other. *)
Inductive flow := Continue | Break.

(** How [run_capture] came to its end. *)
Inductive ending :=
| NoSync                (* the initial [sync] failed: early [return] *)
| TimeUp                (* the [while] condition became false *)
| SyncLost              (* [break] after a failed resynchronisation *)
| TimedOut              (* [except TimeoutError] *)
| Crashed (e : exn)     (* an exception no handler catches *)
| Unbounded.            (* iteration bound of the model exhausted *)

Section Capture.

(** The constants in which the two serial scripts differ. *)
Variable HDR_AFTER_MAGIC : nat.   (* seq(4) + nsamp(2) [+ gap_cycles(4)] *)
Variable FRAME_SAMPLES : Z.
Variable gap_tracking : bool.     (* header carries [gap_cycles] *)

Definition on_seq (seq_no : Z) (v : locals) : locals :=
  let '(last, errors) := track_seq seq_no (last_seq v) (seq_errors v) in
  mkLocals (total v) (bad_crc v) errors last (csv v).

Definition count_bad_crc (v : locals) : locals :=
  mkLocals (total v) (bad_crc v + 1) (seq_errors v) (last_seq v) (csv v).

(** The sample loop:
<<
    for i, s in enumerate(samples):
        raw   = s & 0xFFF
        flag  = gap_flag if i == 0 else 0
        writer.writerow([total, raw, f"{volts:.5f}", flag])
        total += 1
>>
    (without [flag] in ADC_csv_gather.py). *)
Fixpoint write_samples (flag : option Z) (samples : list Z) (v : locals) : locals :=
  match samples with
  | [] => v
  | s :: rest =>
      let raw := Z.land s 0xFFF in
      write_samples (option_map (fun _ => 0) flag) rest
        (mkLocals (total v + 1) (bad_crc v) (seq_errors v) (last_seq v)
                  (csv v ++ [mkRow (total v) raw flag]))
  end.

(** The rows the sample loop writes, starting at sample index [t]. *)
Fixpoint rows_from (t : Z) (flag : option Z) (samples : list Z) : list row :=
  match samples with
  | [] => []
  | s :: rest =>
      mkRow t (Z.land s 0xFFF) flag
        :: rows_from (t + 1) (option_map (fun _ => 0) flag) rest
  end.

(** [gap_flag = 1 if gap_cyc > 0 and total > 0 else 0] *)
Definition flag_of (gap_cyc : Z) (v : locals) : option Z :=
  if gap_tracking
  then Some (if (gap_cyc >? 0) && (total v >? 0) then 1 else 0)
  else None.

(** [if not sync(ser, timeout=2.0): break] followed by [continue] or by the
    end of the loop body. *)
Definition resync : M state flow :=
  (ok <- io (sync 2000) ;; ret (if ok then Continue else Break))%io.

(** The end of the loop body:
<<
    # Stay framed: read next magic
    nxt = read_exact(ser, 2)
    if nxt != MAGIC_B:
        if not sync(ser, timeout=2.0):
            break
>> *)
Definition stay_framed : M state flow :=
  (nxt <- io (read_exact 2) ;;
   if negb (bytes_eqb nxt MAGIC_B) then resync else ret Continue)%io.

(** The body of the [while] loop of [run_capture]. *)
Definition frame_body : M state flow :=
  (hdr <- io (read_exact HDR_AFTER_MAGIC) ;;
   seq_no <- lift (unpack_I hdr 0) ;;
   nsamp <- lift (unpack_H hdr 4) ;;
   gap_cyc <- (if gap_tracking then lift (unpack_I hdr 6) else ret 0) ;;
   if (nsamp =? 0) || (nsamp >? FRAME_SAMPLES) then resync
   else
     payload <- io (read_exact (Z.to_nat (nsamp * 2))) ;;
     crc_raw <- io (read_exact 2) ;;
     rx_crc <- lift (unpack_H crc_raw 0) ;;
     let covered := MAGIC_B ++ hdr ++ payload in
     if negb (crc16 covered =? rx_crc) then
       modify count_bad_crc ;; resync
     else
       modify (on_seq seq_no) ;;
       v <- get ;;
       let flag := flag_of gap_cyc v in
       samples <- lift (unpack_nh (Z.to_nat nsamp) payload) ;;
       modify (write_samples flag samples) ;;
       stay_framed)%io.

(** The fields of a header and the samples of a payload, as [frame_body]
    decodes them, and what an accepted frame does to the local variables. *)
Definition seq_of (hdr : bytes) : Z := le_uint (firstn 4 hdr).
Definition nsamp_of (hdr : bytes) : Z := le_uint (firstn 2 (skipn 4 hdr)).
Definition gap_of (hdr : bytes) : Z :=
  if gap_tracking then le_uint (firstn 4 (skipn 6 hdr)) else 0.
Definition samples_of (payload : bytes) : list Z := map to_int16 (words16 payload).

Definition deliver (hdr payload : bytes) (v : locals) : locals :=
  let v1 := on_seq (seq_of hdr) v in
  write_samples (flag_of (gap_of hdr) v1) (samples_of payload) v1.

(** What one iteration finds on the port, and the port it leaves. *)
Inductive verdict :=
| Stalled (w' : world)                          (* a [read_exact] raised *)
| Malformed (hdr : bytes) (w1 : world)          (* [nsamp] out of range *)
| Corrupt (hdr payload crc_raw : bytes) (w3 : world)     (* CRC mismatch *)
| Accepted (hdr payload crc_raw : bytes) (w3 : world).

(** The reads and checks of [frame_body] on the port alone
    ([frame_body_attempt] below: [frame_body] is [attempt] followed by
    [carry_on]). *)
Definition attempt (w : world) : verdict :=
  match read_exact HDR_AFTER_MAGIC w with
  | Ok hdr w1 =>
      if (nsamp_of hdr =? 0) || (nsamp_of hdr >? FRAME_SAMPLES)
      then Malformed hdr w1
      else match read_exact (Z.to_nat (nsamp_of hdr * 2)) w1 with
           | Ok payload w2 =>
               match read_exact 2 w2 with
               | Ok crc_raw w3 =>
                   if crc16 (MAGIC_B ++ hdr ++ payload) =? le_uint crc_raw
                   then Accepted hdr payload crc_raw w3
                   else Corrupt hdr payload crc_raw w3
               | Raise _ w' => Stalled w'
               | Fuel => Stalled w2
               end
           | Raise _ w' => Stalled w'
           | Fuel => Stalled w1
           end
  | Raise _ w' => Stalled w'
  | Fuel => Stalled w
  end.

Definition carry_on (vd : verdict) (v : locals) : res state flow :=
  match vd with
  | Stalled w' => Raise TimeoutError (mkState w' v)
  | Malformed _ w1 => resync (mkState w1 v)
  | Corrupt _ _ _ w3 => resync (mkState w3 (count_bad_crc v))
  | Accepted hdr payload _ w3 => stay_framed (mkState w3 (deliver hdr payload v))
  end.

(** A frame as the sketch sends it after the marker (the "frame structure
    after magic" of the scripts): header, [nsamp] samples of two bytes with
    [1 <= nsamp <= FRAME_SAMPLES], and the little-endian [crc16] of marker,
    header and payload. *)
Definition header_of (f : bytes) : bytes := firstn HDR_AFTER_MAGIC f.
Definition payload_of (f : bytes) : bytes :=
  firstn (Z.to_nat (nsamp_of (header_of f) * 2)) (skipn HDR_AFTER_MAGIC f).
Definition crc_of (f : bytes) : bytes := skipn (length f - 2) f.
Definition frame_ok (f : bytes) : bool :=
  (1 <=? nsamp_of (header_of f))
  && (nsamp_of (header_of f) <=? FRAME_SAMPLES)
  && (length f =? HDR_AFTER_MAGIC + Z.to_nat (nsamp_of (header_of f) * 2) + 2)%nat
  && (crc16 (MAGIC_B ++ header_of f ++ payload_of f) =? le_uint (crc_of f)).

(** The local variables after an iteration with that verdict. *)
Definition effect (vd : verdict) (v : locals) : locals :=
  match vd with
  | Stalled _ => v
  | Malformed _ _ => v
  | Corrupt _ _ _ _ => count_bad_crc v
  | Accepted hdr payload _ _ => deliver hdr payload v
  end.

(** [while time.monotonic() < end_time: ...].  An iteration that goes on
    has read a header, so the number of pending bytes bounds the number
    of iterations. *)
Fixpoint capture_loop (fuel : nat) (end_time : N) : M state ending :=
  (t <- io monotonic ;;
   if (t <? end_time)%N then
     match fuel with
     | O => fun _ => Fuel
     | S fuel' =>
         fl <- frame_body ;;
         match fl with
         | Continue => capture_loop fuel' end_time
         | Break => ret SyncLost
         end
     end
   else ret TimeUp)%io.

Definition fresh : locals := mkLocals 0 0 0 None [].

(** The port on which the loop goes on after an iteration with that
    verdict, if it does (the local variables have no say in it). *)
Definition next_port (vd : verdict) : option world :=
  match carry_on vd fresh with
  | Ok Continue s' => Some (port s')
  | _ => None
  end.

(** The verdicts of the iterations of [capture_loop], in order. *)
Fixpoint verdicts (fuel : nat) (end_time : N) (w : world) : list verdict :=
  if (now w <? end_time)%N then
    match fuel with
    | O => []
    | S fuel' =>
        let vd := attempt w in
        vd :: match next_port vd with
              | Some w' => verdicts fuel' end_time w'
              | None => []
              end
    end
  else [].

(** What a session found on the port: nothing when the initial [sync]
    fails, else the verdicts of the loop. *)
Definition session (duration : N) (w : world) : list verdict :=
  match sync 5000 w with
  | Ok true w' =>
      verdicts (S (length (wire w'))) (now w' + duration * 1000)%N w'
  | _ => []
  end.

(** The sequence numbers of the accepted frames among verdicts. *)
Fixpoint accepted_seqs (vds : list verdict) : list Z :=
  match vds with
  | [] => []
  | Accepted hdr _ _ _ :: rest => seq_of hdr :: accepted_seqs rest
  | _ :: rest => accepted_seqs rest
  end.

(** The rejected checksums among verdicts. *)
Fixpoint corrupt_count (vds : list verdict) : Z :=
  match vds with
  | [] => 0
  | Corrupt _ _ _ _ :: rest => 1 + corrupt_count rest
  | _ :: rest => corrupt_count rest
  end.

(** [run_capture(duration, port, filename)], from the state of the port
    after [ser.reset_input_buffer()] to the final summary: how the session
    ended, and the counters and CSV rows it leaves behind.  [duration] is
    in seconds. *)
Definition run_capture (duration : N) (w : world) : ending * state :=
  match sync 5000 w with
  | Ok false w' => (NoSync, mkState w' fresh)
  | Ok true w' =>
      let s := mkState w' fresh in
      let end_time := (now w' + duration * 1000)%N in
      match capture_loop (S (length (wire w'))) end_time s with
      | Ok e s' => (e, s')
      | Raise TimeoutError s' => (TimedOut, s')
      | Raise e s' => (Crashed e, s')
      | Fuel => (Unbounded, s)
      end
  | Raise e w' => (Crashed e, mkState w' fresh)
  | Fuel => (Unbounded, mkState w fresh)
  end.

End Capture.

End Serial.

(** ADC_reading_HAL/ADC_csv_gather.py *)
Module ADC_csv_gather.
Definition FRAME_SAMPLES : Z := 512.
Definition HDR_AFTER_MAGIC : nat := 6.
Definition frame_body : Serial.M Serial.state Serial.flow :=
  Serial.frame_body HDR_AFTER_MAGIC FRAME_SAMPLES false.
Definition run_capture : N -> Serial.world -> Serial.ending * Serial.state :=
  Serial.run_capture HDR_AFTER_MAGIC FRAME_SAMPLES false.
End ADC_csv_gather.

(** ADC_HAL_reduceclipping/ADC_readcsv_reducedclipping.py *)
Module ADC_readcsv_reducedclipping.
Definition FRAME_SAMPLES : Z := 16384.
Definition HDR_AFTER_MAGIC : nat := 10.
Definition frame_body : Serial.M Serial.state Serial.flow :=
  Serial.frame_body HDR_AFTER_MAGIC FRAME_SAMPLES true.
Definition run_capture : N -> Serial.world -> Serial.ending * Serial.state :=
  Serial.run_capture HDR_AFTER_MAGIC FRAME_SAMPLES true.
End ADC_readcsv_reducedclipping.

(** ** The RPC scripts *)

Module RPC.

(** What [Bridge.call] can hand to [parse_frame].  The bridge is an external
    collaborator; the parsers look at its answer in three ways only:
    its truth value, whether it is a [bytes]/[bytearray] object, and, for
    any other object, the outcome of [bytes.fromhex(str(resp).strip())],
    which the response carries here ([None] when it raises [ValueError]). *)
Inductive response :=
| PyNone                          (* None, "", 0, ...: a falsy non-bytes answer *)
| PyBytes (raw : bytes)           (* bytes or bytearray, possibly empty *)
| PyOther (hex : option bytes).   (* any other truthy object *)

(** [bool(resp)] *)
Definition truthy (resp : response) : bool :=
  match resp with
  | PyNone => false
  | PyBytes [] => false
  | PyBytes (_ :: _) => true
  | PyOther _ => true
  end.

(** [hex_chars = set(b"0123456789abcdefABCDEF")] *)
Definition hex_chars : bytes :=
  [x30; x31; x32; x33; x34; x35; x36; x37; x38; x39;
   x61; x62; x63; x64; x65; x66; x41; x42; x43; x44; x45; x46].

(** [b in hex_chars] *)
Definition in_hex_chars (b : byte) : bool := existsb (Byte.eqb b) hex_chars.

(** Value of a hexadecimal digit. *)
Definition hex_digit (b : byte) : option N :=
  let n := Byte.to_N b in
  if ((48 <=? n) && (n <=? 57))%N then Some (n - 48)%N
  else if ((97 <=? n) && (n <=? 102))%N then Some (n - 87)%N
  else if ((65 <=? n) && (n <=? 70))%N then Some (n - 55)%N
  else None.

(** ASCII whitespace, which [bytes.fromhex] skips between two bytes. *)
Definition is_space (b : byte) : bool :=
  existsb (Byte.eqb b) [x20; x09; x0a; x0b; x0c; x0d].

Definition byte_of_N (n : N) : byte :=
  match Byte.of_N n with
  | Some b => b
  | None => x00
  end.

(** [bytes.fromhex(raw.decode("ascii"))]: pairs of hexadecimal digits,
    whitespace allowed before a pair; [None] stands for [ValueError]. *)
Fixpoint fromhex (s : bytes) : option bytes :=
  match s with
  | [] => Some []
  | c :: rest =>
      if is_space c then fromhex rest
      else match hex_digit c, rest with
           | Some top, d :: rest' =>
               match hex_digit d with
               | Some bot =>
                   option_map (cons (byte_of_N (top * 16 + bot))) (fromhex rest')
               | None => None
               end
           | _, _ => None
           end
  end.

(** The [bytes] branch of [parse_frame] (the same text in both scripts):
<<
    raw = bytes(resp)
    hex_chars = set(b"0123456789abcdefABCDEF")
    if raw and len(raw) % 2 == 0 and all(b in hex_chars for b in raw):
        try:
            buf = bytes.fromhex(raw.decode("ascii"))
        except ValueError:
            buf = raw
    else:
        buf = raw
>> *)
Definition looks_like_hex (raw : bytes) : bool :=
  match raw with [] => false | _ => true end
  && Nat.even (length raw) && forallb in_hex_chars raw.

(** The guard without its first conjunct: an even number of bytes, each the
    code of a hexadecimal digit. *)
Definition hex_text (raw : bytes) : bool :=
  Nat.even (length raw) && forallb in_hex_chars raw.

Definition hex_or_raw (raw : bytes) : bytes :=
  if looks_like_hex raw then
    match fromhex raw with
    | Some buf => buf
    | None => raw
    end
  else raw.

(** Lines 30-47 of both [parse_frame]s: the buffer to be parsed, or [None]
    where the function returns its failure value at once. *)
Definition to_buf (resp : response) : option bytes :=
  if negb (truthy resp) then None
  else match resp with
       | PyBytes raw => Some (hex_or_raw raw)
       | PyOther hex => hex
       | PyNone => None
       end.

End RPC.

(** 2khz_RPC_sampling/RPC_capture.py *)
Module RPC_capture.
Import RPC.

Definition ADC_BITS : Z := 14.

(** [for i in range(count): v = unpack_from("<H", buf, 6 + i * 2)[0] & 0x3FFF] *)
Fixpoint read_samples (count : nat) (buf : bytes) (i : nat) : py (list Z) :=
  match count with
  | O => Val []
  | S count' =>
      (v <- unpack_H buf (6 + i * 2) ;;
       rest <- read_samples count' buf (S i) ;;
       Val (Z.land v 0x3FFF :: rest))%py
  end.

(** [if buf and buf[0] == 0x21: buf = buf[1:]] *)
Definition strip_overflow (buf : bytes) : bytes :=
  match buf with
  | b :: rest => if b2z b =? 0x21 then rest else buf
  | [] => buf
  end.

(** [parse_frame] from the stripping of the overflow marker on. *)
Definition parse_buf (buf0 : bytes) : py (option Z * option (list Z)) :=
  let buf := strip_overflow buf0 in
  if (length buf <? 8)%nat then Val (None, None)
  else
    (count <- unpack_H buf 0 ;;
     seq <- unpack_I buf 2 ;;
     let expected_len := 6 + count * 2 + 2 in
     if negb (Z.of_nat (length buf) =? expected_len) then Val (None, None)
     else
       rx <- unpack_H buf (length buf - 2) ;;
       if negb (crc16_ibm (drop_last2 buf) =? rx) then Val (None, None)
       else
         samples <- read_samples (Z.to_nat count) buf 0 ;;
         Val (Some seq, Some samples))%py.

Definition parse_frame (resp : response) : py (option Z * option (list Z)) :=
  match to_buf resp with
  | None => Val (None, None)
  | Some buf => parse_buf buf
  end.

(** The fields of a stripped buffer as [parse_buf] decodes them, and the
    checks it passes before it returns samples ([parse_buf_spec_capture]
    below). *)
Definition count_of (buf : bytes) : Z := le_uint (firstn 2 buf).
Definition seq_of (buf : bytes) : Z := le_uint (firstn 4 (skipn 2 buf)).
Definition samples_of (buf : bytes) : list Z :=
  map (fun v => Z.land v 0x3FFF)
      (words16 (firstn (2 * Z.to_nat (count_of buf)) (skipn 6 buf))).
Definition well_formed (buf : bytes) : bool :=
  (8 <=? length buf)%nat
  && (Z.of_nat (length buf) =? 6 + count_of buf * 2 + 2)
  && (crc16_ibm (drop_last2 buf) =? trailer buf).

(** The counters of [run_capture] and the rows [sample_index, adc_raw]
    written so far. *)
Record locals := mkLocals {
  total      : Z;
  bad        : Z;
  empty      : Z;
  last_seq   : option Z;
  seq_errors : Z;
  csv        : list (Z * Z)
}.

Definition fresh : locals := mkLocals 0 0 0 None 0 [].

(** [for s in samples: writer.writerow([total, s, ...]); total += 1] *)
Fixpoint write_samples (samples : list Z) (v : locals) : locals :=
  match samples with
  | [] => v
  | s :: rest =>
      write_samples rest
        (mkLocals (total v + 1) (bad v) (empty v) (last_seq v) (seq_errors v)
                  (csv v ++ [(total v, s)]))
  end.

(** One iteration of the loop of [run_capture] on the answer of
    [Bridge.call("adc_get_frame")]. *)
Definition on_response (v : locals) (resp : response) : py locals :=
  (r <- parse_frame resp ;;
   let '(seq, samples) := r in
   match samples with
   | None =>
       Val (mkLocals (total v) (bad v) (empty v + 1) (last_seq v)
                     (seq_errors v) (csv v))
   | Some samples =>
       match seq with
       | None =>
           Val (mkLocals (total v) (bad v + 1) (empty v) (last_seq v)
                         (seq_errors v) (csv v))
       | Some seq =>
           let '(last, errors) := track_seq seq (last_seq v) (seq_errors v) in
           Val (write_samples samples
                  (mkLocals (total v) (bad v) (empty v) last errors (csv v)))
       end
   end)%py.

(** [run_capture] on the answers the bridge gives before [end_time]. *)
Fixpoint capture_loop (resps : list response) (v : locals) : py locals :=
  match resps with
  | [] => Val v
  | resp :: rest => (v' <- on_response v resp ;; capture_loop rest v')%py
  end.

Definition run_capture (resps : list response) : py locals :=
  capture_loop resps fresh.

(** The sequence numbers of the answers [parse_frame] accepts, in order. *)
Fixpoint accepted_seqs (resps : list response) : list Z :=
  match resps with
  | [] => []
  | resp :: rest =>
      match parse_frame resp with
      | Val (Some seq, Some _) => seq :: accepted_seqs rest
      | _ => accepted_seqs rest
      end
  end.

End RPC_capture.

(** RPCtests/RPC_sample_csv.py *)
Module RPC_sample_csv.
Import RPC.

Definition MAX_SAMPLES : Z := 255.

(** The decoding loop:
<<
    for _ in range(count):
        sample  = struct.unpack_from("<H", buf, offset)[0]
        offset += 2
        prev_t += buf[offset]
        offset += 1
        samples.append(sample)
        timestamps.append(prev_t)
>> *)
Fixpoint read_samples (count : nat) (buf : bytes) (offset : nat) (prev_t : Z)
  : py (list Z * list Z) :=
  match count with
  | O => Val ([], [])
  | S count' =>
      (sample <- unpack_H buf offset ;;
       dt <- index buf (offset + 2) ;;
       let prev_t := prev_t + dt in
       rest <- read_samples count' buf (offset + 2 + 1) prev_t ;;
       Val (sample :: fst rest, prev_t :: snd rest))%py
  end.

(** [if buf and buf[0] == 0x21 and len(buf) > 1: buf = buf[1:]] *)
Definition strip_overflow (buf : bytes) : bytes :=
  match buf with
  | b :: rest => if (b2z b =? 0x21) && (1 <? length buf)%nat then rest else buf
  | [] => buf
  end.

(** [parse_frame] from the stripping of the overflow marker on. *)
Definition parse_buf (buf0 : bytes) : py (list Z * list Z) :=
  let buf := strip_overflow buf0 in
  if (length buf <? 7)%nat then Val ([], [])
  else
    (count <- index buf 0 ;;
     if (count =? 0) || (count >? MAX_SAMPLES) then Val ([], [])
     else if negb (Z.of_nat (length buf) =? 1 + 4 + count * 3 + 2) then Val ([], [])
     else
       lo <- index_back buf 2 ;;
       hi <- index_back buf 1 ;;
       if negb (crc16_ibm (drop_last2 buf) =? Z.lor lo (Z.shiftl hi 8))
       then Val ([], [])
       else
         t0 <- unpack_I buf 1 ;;
         read_samples (Z.to_nat count) buf 5 t0)%py.

Definition parse_frame (resp : response) : py (list Z * list Z) :=
  match to_buf resp with
  | None => Val ([], [])
  | Some buf => parse_buf buf
  end.

(** The fields of a stripped buffer as [parse_buf] decodes them, and the
    checks it passes before it returns samples ([parse_buf_spec_stamped]
    below). *)
Definition count_of (buf : bytes) : Z := le_uint (firstn 1 buf).
Definition t0_of (buf : bytes) : Z := le_uint (firstn 4 (skipn 1 buf)).

(** (sample, delta) triples of three bytes each: the samples, and the
    timestamps accumulated from [prev_t]. *)
Fixpoint triples (bs : bytes) (prev_t : Z) : list Z * list Z :=
  match bs with
  | lo :: hi :: dt :: rest =>
      let t := prev_t + b2z dt in
      let r := triples rest t in
      (le_uint [lo; hi] :: fst r, t :: snd r)
  | _ => ([], [])
  end.

Definition decoded (buf : bytes) : list Z * list Z :=
  triples (firstn (3 * Z.to_nat (count_of buf)) (skipn 5 buf)) (t0_of buf).

Definition well_formed (buf : bytes) : bool :=
  (7 <=? length buf)%nat
  && negb (count_of buf =? 0)
  && (Z.of_nat (length buf) =? 1 + 4 + count_of buf * 3 + 2)
  && (crc16_ibm (drop_last2 buf) =? trailer buf).

(** One CSV line: [sample_index, timestamp_ms, adc_raw] (the voltage column
    is a formatted float computed from [adc_raw]). *)
Record row := mkRow {
  sample_index : Z;
  timestamp_ms : Z;
  adc_raw      : Z
}.

Record locals := mkLocals {
  total : Z;
  bad   : Z;
  csv   : list row
}.

Definition fresh : locals := mkLocals 0 0 [].

(** [for raw, ts in zip(samples, timestamps): writerow(...); total += 1] *)
Fixpoint write_samples (pairs : list (Z * Z)) (v : locals) : locals :=
  match pairs with
  | [] => v
  | (raw, ts) :: rest =>
      write_samples rest
        (mkLocals (total v + 1) (bad v) (csv v ++ [mkRow (total v) ts raw]))
  end.

Definition on_response (v : locals) (resp : response) : py locals :=
  (r <- parse_frame resp ;;
   let '(samples, timestamps) := r in
   match samples with
   | [] => Val (mkLocals (total v) (bad v + 1) (csv v))
   | _ => Val (write_samples (combine samples timestamps) v)
   end)%py.

Fixpoint capture_loop (resps : list response) (v : locals) : py locals :=
  match resps with
  | [] => Val v
  | resp :: rest => (v' <- on_response v resp ;; capture_loop rest v')%py
  end.

Definition run_capture (resps : list response) : py locals :=
  capture_loop resps fresh.

(** An answer from which [parse_frame] returns no sample. *)
Definition rejected (resp : response) : bool :=
  match parse_frame resp with
  | Val (_ :: _, _) => false
  | _ => true
  end.

End RPC_sample_csv.

(** ** The SPI scripts

    [spi.xfer2(out)] is the byte source of the SPI scripts: it clocks [out]
    to the device and returns the bytes clocked in meanwhile.  A script is
    modelled on the transfers it gets, one [bytes] object each. *)

Module SPI.

(** [data[a:b]] for non-negative [a] and [b]. *)
Definition slice (data : bytes) (a b : Z) : bytes :=
  firstn (Z.to_nat (b - a)) (skipn (Z.to_nat a) data).

(** [sub] occurs at the head of [data]. *)
Fixpoint starts_with (sub data : bytes) : bool :=
  match sub, data with
  | [], _ => true
  | x :: sub', y :: data' => Byte.eqb x y && starts_with sub' data'
  | _ :: _, [] => false
  end.

(** [data.find(sub)]: the lowest index at which [sub] occurs, or -1. *)
Fixpoint find_from (sub data : bytes) (i : Z) : Z :=
  if starts_with sub data then i
  else match data with
       | [] => -1
       | _ :: rest => find_from sub rest (i + 1)
       end.

Definition find (data sub : bytes) : Z := find_from sub data 0.

(** [struct.unpack(f"<{n}h", buf)]: unlike [unpack_from], [unpack] wants a
    buffer of exactly the size of the format. *)
Definition unpack_h_exact (n : nat) (buf : bytes) : py (list Z) :=
  if (length buf =? 2 * n)%nat then unpack_h_seq n buf 0 else Exn StructError.

Fixpoint unpack_H_seq (n : nat) (buf : bytes) (off : nat) : py (list Z) :=
  match n with
  | O => Val []
  | S n' =>
      (s <- unpack_H buf off ;;
       rest <- unpack_H_seq n' buf (off + 2) ;;
       Val (s :: rest))%py
  end.

(** [struct.unpack("<" + "H" * n, buf)] *)
Definition unpack_H_exact (n : nat) (buf : bytes) : py (list Z) :=
  if (length buf =? 2 * n)%nat then unpack_H_seq n buf 0 else Exn StructError.

End SPI.

(** csvfile.py *)
Module csvfile.
Import SPI.

Definition BATCH_SIZE : Z := 1024.
Definition TOTAL_BYTES : Z := (BATCH_SIZE + 1) * 2.
Definition MAGIC : bytes := [x5a; xa5].

(** [sample_count] and the rows [sample_index, value] written so far. *)
Record locals := mkLocals {
  sample_count : Z;
  csv          : list (Z * Z)
}.

(** The choice of the payload:
<<
    payload = None
    if data[0:2] == MAGIC:
        payload = data[2:]
    else:
        offset = data.find(MAGIC)
        if offset != -1 and (len(data) - offset) >= (BATCH_SIZE * 2):
            payload = data[offset+2 : offset+2+(BATCH_SIZE * 2)]
>> *)
Definition select_payload (data : bytes) : option bytes :=
  if bytes_eqb (slice data 0 2) MAGIC then Some (skipn 2 data)
  else
    let offset := find data MAGIC in
    if negb (offset =? -1) && (Z.of_nat (length data) - offset >=? BATCH_SIZE * 2)
    then Some (slice data (offset + 2) (offset + 2 + BATCH_SIZE * 2))
    else None.

(** [for s in samples: writer.writerow([sample_count, s]); sample_count += 1] *)
Fixpoint write_samples (samples : list Z) (v : locals) : locals :=
  match samples with
  | [] => v
  | s :: rest =>
      write_samples rest
        (mkLocals (sample_count v + 1) (csv v ++ [(sample_count v, s)]))
  end.

(** One iteration of the loop of [run_to_csv] on the bytes of a transfer;
    [if payload:] is false for [None] and for an empty [bytes] object. *)
Definition on_batch (v : locals) (data : bytes) : py locals :=
  match select_payload data with
  | Some (b :: rest) =>
      (samples <- unpack_h_exact (Z.to_nat BATCH_SIZE) (b :: rest) ;;
       Val (write_samples samples v))%py
  | _ => Val v
  end.

(** [run_to_csv] on the transfers made before Ctrl+C.  The loop is
    [while True]; only [KeyboardInterrupt] is handled, so a [struct.error]
    ends the script, the rows of the earlier transfers being in the file. *)
Fixpoint run_to_csv_loop (batches : list bytes) (v : locals) : locals * option exn :=
  match batches with
  | [] => (v, None)
  | data :: rest =>
      match on_batch v data with
      | Val v' => run_to_csv_loop rest v'
      | Exn e => (v, Some e)
      end
  end.

Definition run_to_csv (batches : list bytes) : locals * option exn :=
  run_to_csv_loop batches (mkLocals 0 []).

End csvfile.

(** csvlist.py *)
Module csvlist.
Import SPI.

Definition BATCH_SIZE : Z := 1024.
Definition TOTAL_BYTES : Z := (BATCH_SIZE + 1) * 2.
Definition MAGIC : bytes := [x5a; xa5].

(** One iteration of the loop of [run]; the rows hold one value each.
<<
    if raw_bytes[0:2] == MAGIC:
        samples = struct.unpack(f'<{BATCH_SIZE}h', raw_bytes[2:])
        for s in samples: writer.writerow([s])
    else:
        offset = raw_bytes.find(MAGIC)
        if offset != -1 and (len(raw_bytes) - offset) >= (BATCH_SIZE * 2):
            samples = struct.unpack(f'<{BATCH_SIZE}h',
                          raw_bytes[offset+2 : offset+2+(BATCH_SIZE*2)])
            for s in samples: writer.writerow([s])
>> *)
Definition on_batch (csv : list Z) (raw_bytes : bytes) : py (list Z) :=
  if bytes_eqb (slice raw_bytes 0 2) MAGIC then
    (samples <- unpack_h_exact (Z.to_nat BATCH_SIZE) (skipn 2 raw_bytes) ;;
     Val (csv ++ samples))%py
  else
    let offset := find raw_bytes MAGIC in
    if negb (offset =? -1) && (Z.of_nat (length raw_bytes) - offset >=? BATCH_SIZE * 2)
    then
      (samples <- unpack_h_exact (Z.to_nat BATCH_SIZE)
                    (slice raw_bytes (offset + 2) (offset + 2 + BATCH_SIZE * 2)) ;;
       Val (csv ++ samples))%py
    else Val csv.

(** [run] on the transfers made before Ctrl+C: the rows in the file, and
    the [struct.error] that ended the script if one did. *)
Fixpoint run_loop (batches : list bytes) (csv : list Z) : list Z * option exn :=
  match batches with
  | [] => (csv, None)
  | raw_bytes :: rest =>
      match on_batch csv raw_bytes with
      | Val csv' => run_loop rest csv'
      | Exn e => (csv, Some e)
      end
  end.

Definition run (batches : list bytes) : list Z * option exn := run_loop batches [].

End csvlist.

(** debug.py *)
Module debug.
Import SPI.

Definition BATCH_SIZE : Z := 1024.
Definition TOTAL_BYTES : Z := (BATCH_SIZE + 1) * 2.
Definition MAGIC : bytes := [x5a; xa5].

(** What one iteration of [run_stream] writes to [sys.stdout.buffer]. *)
Definition on_batch (data : bytes) : bytes :=
  if bytes_eqb (slice data 0 2) MAGIC then skipn 2 data
  else
    let offset := find data MAGIC in
    if negb (offset =? -1) && (Z.of_nat (length data) - offset >=? BATCH_SIZE * 2)
    then slice data (offset + 2) (offset + 2 + BATCH_SIZE * 2)
    else [].

(** The bytes [run_stream] has written after these transfers. *)
Definition run_stream (batches : list bytes) : bytes := flat_map on_batch batches.

End debug.

(** speed.py *)
Module speed.
Import SPI.

Definition BATCH_SIZE : Z := 512.
Definition TOTAL_BYTES : Z := (BATCH_SIZE + 1) * 2.

(** One iteration of the loop of [run]:
<<
    data = struct.unpack('<' + 'H' * (BATCH_SIZE + 1), bytes(raw))
    if data[0] == 0xABCD:
        all_data.extend(data[1:])
>> *)
Definition on_batch (all_data : list Z) (raw : bytes) : py (list Z) :=
  (data <- unpack_H_exact (Z.to_nat (BATCH_SIZE + 1)) raw ;;
   match data with
   | [] => Exn IndexError
   | d0 :: rest => if d0 =? 0xABCD then Val (all_data ++ rest) else Val all_data
   end)%py.

(** [run] on the transfers made within its ten seconds: [all_data], which
    is written to the file row by row once the loop is over. *)
Fixpoint run_loop (batches : list bytes) (all_data : list Z) : py (list Z) :=
  match batches with
  | [] => Val all_data
  | raw :: rest => (all_data' <- on_batch all_data raw ;; run_loop rest all_data')%py
  end.

Definition run (batches : list bytes) : py (list Z) := run_loop batches [].

End speed.

(** raw_adc_csv.py *)
Module raw_adc_csv.
Import SPI.

Definition MAGIC_MARKER : Z := 0xABCD.

(** The exceptions [input] can raise at the prompt. *)
Inductive prompt_exn :=
| EOFError            (* standard input is at its end *)
| KeyboardInterrupt.  (* Ctrl-C *)

(** What [int(input(...))] gives: a number, [ValueError] from [int], or an
    exception of [input]. *)
Inductive typed :=
| Typed (n : Z)
| NotANumber
| NoAnswer (e : prompt_exn).

(** How the selection menu ends: with a duration, or with an exception
    that leaves [run_capture] (the [try] of the capture loop is not yet
    entered, and the script has no other handler). *)
Inductive chosen :=
| Duration (duration : Z)
| Escapes (e : prompt_exn).

(** The selection menu:
<<
    try:
        duration = int(input("Enter duration (5, 10, or 15 seconds): "))
        if duration not in [5, 10, 15]:
            duration = 5
    except ValueError:
        duration = 5
>> *)
Definition menu (answer : typed) : chosen :=
  match answer with
  | Typed duration =>
      Duration (if existsb (Z.eqb duration) [5; 10; 15] then duration else 5)
  | NotANumber => Duration 5
  | NoAnswer e => Escapes e
  end.

(** One iteration of the capture loop: [samples_collected] and the rows.
<<
    vals = struct.unpack('<HHHH', bytes(raw))
    if vals[3] == MAGIC_MARKER:
        writer.writerow([vals[0]])
        samples_collected += 1
>> *)
Definition on_batch (v : Z * list Z) (raw : bytes) : py (Z * list Z) :=
  (vals <- unpack_H_exact 4 raw ;;
   match nth_error vals 3, nth_error vals 0 with
   | Some magic, Some a0 =>
       if magic =? MAGIC_MARKER then Val (fst v + 1, snd v ++ [a0]) else Val v
   | _, _ => Exn IndexError
   end)%py.

Fixpoint capture_loop (batches : list bytes) (v : Z * list Z) : py (Z * list Z) :=
  match batches with
  | [] => Val v
  | raw :: rest => (v' <- on_batch v raw ;; capture_loop rest v')%py
  end.

(** How [run_capture] ends: at the prompt, on an exception of [input], or
    after the capture loop, with the duration of the menu and with
    [samples_collected] and the rows written (or the exception the loop
    raised). *)
Inductive outcome :=
| AtPrompt (e : prompt_exn)
| Captured (duration : Z) (result : py (Z * list Z)).

(** [run_capture] on the answer typed at the prompt and on the transfers
    made before [end_time]. *)
Definition run_capture (answer : typed) (batches : list bytes) : outcome :=
  match menu answer with
  | Escapes e => AtPrompt e
  | Duration duration => Captured duration (capture_loop batches (0, []))
  end.

End raw_adc_csv.

(** csv_readings/livemonitor.py *)
Module livemonitor.
Import Serial SPI.



End livemonitor.

(** ** The command lines

    [main] of the four capture scripts settles the duration handed to
    [run_capture].  [given] is the value of [--duration] when the option is
    on the command line; [answer] is what [int(input(...))] gives, [None]
    when it raises (the handler is a bare [except:]). *)
Module Cli.

(** [parser.add_argument("--duration", "-d", type=int, choices=..., default=None)]
    followed by [parser.parse_args()]: a value outside [choices] makes
    [argparse] leave the program ([None] here). *)
Definition parse_args (choices : option (list Z)) (given : option Z)
  : option (option Z) :=
  match given, choices with
  | Some d, Some allowed =>
      if existsb (Z.eqb d) allowed then Some (Some d) else None
  | _, _ => Some given
  end.

(**
<<
    if args.duration is None:
        try:
            duration = int(input("Enter duration (5, 10, or 15 seconds): "))
            if duration not in [5, 10, 15]:
                duration = 5
        except:
            duration = 5
    else:
        duration = args.duration
>> *)
Definition duration_of (args_duration : option Z) (answer : option Z) : Z :=
  match args_duration with
  | None =>
      match answer with
      | Some duration => if existsb (Z.eqb duration) [5; 10; 15] then duration else 5
      | None => 5
      end
  | Some d => d
  end.

(** The duration [main] calls [run_capture] with, if it gets that far. *)
Definition main (choices : option (list Z)) (given answer : option Z) : option Z :=
  option_map (fun args_duration => duration_of args_duration answer)
             (parse_args choices given).

(** [choices=[5, 10, 15]] in both serial scripts and in RPC_sample_csv.py;
    no [choices] in RPC_capture.py. *)
Definition ADC_csv_gather_main := main (Some [5; 10; 15]).
Definition ADC_readcsv_reducedclipping_main := main (Some [5; 10; 15]).
Definition RPC_sample_csv_main := main (Some [5; 10; 15]).
Definition RPC_capture_main := main None.

End Cli.

(** ** What a serial session delivered *)

(** A stream of frames, each behind its marker: the marker and the frame of
    each element, one after the other. *)
Definition framed (rest : list (list (N * byte) * list (N * byte))) : list (N * byte) :=
  flat_map (fun p => fst p ++ snd p) rest.

(** Header and payload of the accepted frames among verdicts, in order. *)
Fixpoint accepted_frames (vds : list Serial.verdict) : list (bytes * bytes) :=
  match vds with
  | [] => []
  | Serial.Accepted hdr payload _ _ :: rest => (hdr, payload) :: accepted_frames rest
  | _ :: rest => accepted_frames rest
  end.

(** A row whose [gap_flag] column is 1. *)
Definition flagged (r : Serial.row) : bool :=
  match Serial.gap_flag r with
  | Some f => f =? 1
  | None => false
  end.

(** An accepted frame that carries a sample (as every frame [attempt]
    accepts does). *)
Definition with_samples (vd : Serial.verdict) : Prop :=
  match vd with
  | Serial.Accepted _ payload _ _ => Serial.samples_of payload <> []
  | _ => True
  end.

(** ** What the RPC loops deliver *)

(** The samples [RPC_capture.run_capture] writes for an answer. *)
Definition capture_delivered (resp : RPC.response) : list Z :=
  match RPC_capture.parse_frame resp with
  | Val (Some _, Some samples) => samples
  | _ => []
  end.

(** The (sample, timestamp) pairs [RPC_sample_csv.run_capture] writes for
    an answer. *)
Definition stamped_delivered (resp : RPC.response) : list (Z * Z) :=
  match RPC_sample_csv.parse_frame resp with
  | Val (samples, timestamps) => combine samples timestamps
  | Exn _ => []
  end.

(** Timestamps each of which is the one before it ([t] for the first) plus
    a delta of one byte. *)
Fixpoint stepwise (t : Z) (timestamps : list Z) : Prop :=
  match timestamps with
  | [] => True
  | x :: rest => t <= x <= t + 255 /\ stepwise x rest
  end.

(** ** What the batch scripts take from a transfer *)

(** A transfer in which the marker comes one or two bytes late. *)
Definition marker_late (data : bytes) : bool :=
  negb (SPI.starts_with [x5a; xa5] data)
  && ((SPI.find data [x5a; xa5] =? 1) || (SPI.find data [x5a; xa5] =? 2)).

(** The samples of a transfer that starts with the marker. *)
Definition batch_samples (data : bytes) : list Z :=
  if SPI.starts_with [x5a; xa5] data
  then map to_int16 (words16 (skipn 2 data))
  else [].

(** ** Inverses of the checksum rounds

    One round of either checksum, seen on 16 bits, can be undone: the bit
    shifted out decides whether the polynomial was added, and shows in the
    result as the bit the polynomial alone can set. *)

Definition crc16_unbit (y : Z) : Z :=
  if Z.odd y
  then Z.lor (Z.shiftr (Z.lxor y 0x1021) 1) 0x8000
  else Z.shiftr y 1.

Definition crc16_ibm_unbit (y : Z) : Z :=
  if Z.testbit y 15
  then Z.lor (Z.shiftl (Z.lxor y CRC_POLY) 1) 1
  else Z.shiftl y 1.

(** Eight rounds of [crc16], masked as [crc16_byte] masks them. *)
Definition crc16_rounds (x : Z) : Z := Z.land (Nat.iter 8 crc16_bit x) 0xFFFF.

(** [p] holds of the [n] integers from [x] on. *)
Fixpoint all_from (n : nat) (x : Z) (p : Z -> bool) : bool :=
  match n with
  | O => true
  | S n' => p x && all_from n' (x + 1) p
  end.

(** ** Sample frames

    Frames written out byte by byte, for the statements below that speak
    of one particular input. *)

(** Serial, 6-byte header: seq 5, one sample with all bits set. *)
Definition frame_5 : bytes :=
  [x05; x00; x00; x00; x01; x00; xff; xff; xf3; xdf].

(** Serial, 6-byte header: seq 6, samples 0x0123 and 0x8001. *)
Definition frame_6 : bytes :=
  [x06; x00; x00; x00; x02; x00; x23; x01; x01; x80; x91; x18].

(** Serial, 10-byte header: seq 5, gap_cycles 160, one sample 0xFFFF. *)
Definition gap_frame_5 : bytes :=
  [x05; x00; x00; x00; x01; x00; xa0; x00; x00; x00; xff; xff; xd8; x34].

(** RPC_capture: count 0, seq 1, valid checksum. *)
Definition blob_empty : bytes := [x00; x00; x01; x00; x00; x00; x01; xfc].

(** RPC_capture: count 2, seq 7, samples 0xFFFF and 0x1234. *)
Definition blob_7 : bytes :=
  [x02; x00; x07; x00; x00; x00; xff; xff; x34; x12; x76; xc5].

(** [blob_7] with its last byte altered. *)
Definition blob_7_corrupt : bytes :=
  [x02; x00; x07; x00; x00; x00; xff; xff; x34; x12; x76; xc4].

(** [blob_7] as hexadecimal text, "0200070000 ... 76c5". *)
Definition blob_7_hex : bytes :=
  [x30; x32; x30; x30; x30; x37; x30; x30; x30; x30; x30; x30;
   x66; x66; x66; x66; x33; x34; x31; x32; x37; x36; x63; x35].

(** RPC_capture: count 2, seq 8, samples 0x4001 and 0xFFFF. *)
Definition blob_8 : bytes :=
  [x02; x00; x08; x00; x00; x00; x01; x40; xff; xff; xa1; xf4].

(** The text "0123456789abcdefABCDEF1032547698badcfeBADCFE": every
    hexadecimal digit, in either case, once as the high and once as the low
    half of a byte. *)
Definition hex_digits_text : bytes :=
  [x30; x31; x32; x33; x34; x35; x36; x37; x38; x39; x61; x62;
   x63; x64; x65; x66; x41; x42; x43; x44; x45; x46;
   x31; x30; x33; x32; x35; x34; x37; x36; x39; x38; x62; x61;
   x64; x63; x66; x65; x42; x41; x44; x43; x46; x45].

(** RPC_sample_csv: count 1, t0 1000, sample 0xFFFF with delta 3. *)
Definition stamped_1 : bytes :=
  [x01; xe8; x03; x00; x00; xff; xff; x03; x98; x30].

(** RPC_sample_csv: a binary frame of 49 samples every byte of which is the
    code of a hexadecimal digit (count 0x31, checksum 0x3266). *)
Definition stamped_hexlike : bytes :=
  x31 :: repeat x30 149 ++ [x61; x32; x66; x32].

(** [stamped_1] as hexadecimal text, "01e8030000ffff039830". *)
Definition stamped_1_hex : bytes :=
  [x30; x31; x65; x38; x30; x33; x30; x30; x30; x30;
   x66; x66; x66; x66; x30; x33; x39; x38; x33; x30].

(** RPC_sample_csv: a binary frame of 48 samples, 151 bytes long, every
    byte of which is the code of a hexadecimal digit (count 0x30, t0
    0x30303030, 47 samples 0x3030 and one 0x3436, each with delta 0x30,
    checksum 0x4642). *)
Definition stamped_hexodd : bytes :=
  repeat x30 146 ++ [x36; x34; x30; x42; x46].

(** A stream that delivers the marker and the header of [frame_5], stays
    silent for 1.5 s, and then delivers the marker and the whole frame. *)
Definition stalled_wire : list (N * byte) :=
  Serial.instant (Serial.MAGIC_B ++ firstn 6 frame_5)
  ++ (1500%N, x5a) :: Serial.instant (xa5 :: frame_5).

(** Garbage that holds the marker followed by six bytes that read as a
    header announcing two samples. *)
Definition garbage_with_marker : bytes :=
  [x00; x5a; xa5; x00; x00; x00; x00; x02; x00].

(** A serial header (6 bytes) with seq 5 that announces no sample. *)
Definition header_zero : bytes := [x05; x00; x00; x00; x00; x00].

(** Garbage without the marker. *)
Definition garbage : bytes := [x00; x5a; x11; xa5; x5a].

(** The ASCII text "123456789", the check input of the CRC catalogues. *)
Definition check_input : bytes := [x31; x32; x33; x34; x35; x36; x37; x38; x39].

(** RPC_capture: count 33 (first byte 0x21), seq 9, every sample 0x1234. *)
Definition blob_33 : bytes :=
  [x21; x00; x09; x00; x00; x00] ++ concat (repeat [x34; x12] 33) ++ [xaa; x2f].

(** RPC_sample_csv: count 33, t0 1000, every sample 0x1234 with delta 2. *)
Definition stamped_33 : bytes :=
  [x21; xe8; x03; x00; x00] ++ concat (repeat [x34; x12; x02] 33) ++ [xee; x3f].

(** A transfer of 2050 bytes with the marker one byte late. *)
Definition late_batch : bytes := x00 :: x5a :: xa5 :: repeat x00 2047.

(** A transfer of 2050 bytes: the marker and 1024 samples, each -2. *)
Definition aligned_batch : bytes := x5a :: xa5 :: concat (repeat [xfe; xff] 1024).

(** speed.py: a transfer of 1026 bytes, the marker word 0xABCD and 512
    words, each 1. *)
Definition marked_words : bytes := xcd :: xab :: concat (repeat [x01; x00] 512).

(** speed.py: a transfer of 1026 bytes that starts with another word. *)
Definition unmarked_words : bytes := repeat x00 1026.

(** raw_adc_csv.py: a transfer of 8 bytes, A0 = 42 and the marker word. *)
Definition pins_42 : bytes := [x2a; x00; x00; x00; x00; x00; xcd; xab].

(** raw_adc_csv.py: a transfer of 8 bytes without the marker word. *)
Definition pins_unmarked : bytes := [x2a; x00; x00; x00; x00; x00; x00; x00].

(** * Facts about the model *)

Module SerialFacts.
Import Serial.

(** *** The port *)

Lemma ser_read_within_spec size : forall budget w got w',
  ser_read_within budget size w = (got, w') ->
  map snd (wire w) = got ++ map snd (wire w')
  /\ (length got <= size)%nat
  /\ (length (wire w) = length got + length (wire w'))%nat
  /\ (now w <= now w')%N.
Proof.
  induction size as [|size IH]; intros budget w got w' H; simpl in H.
  - inversion H; subst. simpl. repeat split; lia.
  - destruct (wire w) as [|[dt b] rest] eqn:Hw.
    + inversion H; subst. simpl. repeat split; lia.
    + destruct (dt <=? budget)%N eqn:Hdt.
      * destruct (ser_read_within (budget - dt) size (mkWorld (now w + dt) rest))
          as [got1 w1] eqn:Hrec.
        inversion H; subst.
        apply IH in Hrec. simpl in Hrec.
        destruct Hrec as (Hb & Hl & Hw' & Hn).
        simpl. rewrite Hb. repeat split; try lia.
      * inversion H; subst. simpl. repeat split; lia.
Qed.

Lemma read_spec size w :
  exists got w', read size w = Ok got w'
  /\ map snd (wire w) = got ++ map snd (wire w')
  /\ (length got <= size)%nat
  /\ (length (wire w) = length got + length (wire w'))%nat
  /\ (now w <= now w')%N.
Proof.
  unfold read, ser_read.
  destruct (ser_read_within READ_TIMEOUT size w) as [got w'] eqn:H.
  exists got, w'. split; [reflexivity|].
  eapply ser_read_within_spec; eassumption.
Qed.

(** What one [ser.read(1)] can do. *)
Lemma read1_cases w :
  (exists dt b rest, wire w = (dt, b) :: rest /\ (dt <= READ_TIMEOUT)%N
     /\ read 1 w = Ok [b] (mkWorld (now w + dt) rest))
  \/ (exists w', read 1 w = Ok [] w'
        /\ now w' = (now w + READ_TIMEOUT)%N
        /\ length (wire w') = length (wire w)).
Proof.
  unfold read, ser_read. simpl.
  destruct (wire w) as [|[dt b] rest] eqn:Hw.
  - right. eexists. split; [reflexivity|]. simpl. auto.
  - destruct (dt <=? READ_TIMEOUT)%N eqn:Hdt.
    + left. exists dt, b, rest. repeat split; auto. now apply N.leb_le.
    + right. eexists. split; [reflexivity|]. simpl. auto.
Qed.

(** *** [read_exact] *)

Lemma read_exact_loop_spec fuel : forall n buf w,
  (length buf <= n)%nat -> (n - length buf <= fuel)%nat ->
  match read_exact_loop fuel n buf w with
  | Ok b w' =>
      exists more, b = buf ++ more /\ length b = n
        /\ map snd (wire w) = more ++ map snd (wire w')
        /\ (length (wire w) = length more + length (wire w'))%nat
        /\ (now w <= now w')%N
  | Raise e w' =>
      e = TimeoutError /\ (length (wire w') <= length (wire w))%nat
      /\ (now w <= now w')%N
  | Fuel => False
  end.
Proof.
  induction fuel as [|fuel IH]; intros n buf w Hle Hfuel.
  - simpl. destruct (Nat.ltb_spec (length buf) n); [lia|].
    unfold ret. exists []. rewrite app_nil_r. simpl. repeat split; lia.
  - simpl. destruct (Nat.ltb_spec (length buf) n) as [Hlt|Hge].
    + unfold bind.
      destruct (read_spec (n - length buf) w) as (got & w1 & -> & Hb & Hl & Hw & Hn).
      destruct got as [|g got'].
      * unfold raise. repeat split; simpl in *; lia.
      * specialize (IH n (buf ++ g :: got') w1).
        rewrite length_app in IH. simpl in *.
        assert (H1 : (length buf + S (length got') <= n)%nat) by lia.
        assert (H2 : (n - (length buf + S (length got')) <= fuel)%nat) by lia.
        specialize (IH H1 H2).
        destruct (read_exact_loop fuel n (buf ++ g :: got') w1) as [b w'|e w'|].
        -- destruct IH as (more & -> & Hlen & Hbytes & Hwl & Hnow).
           exists ((g :: got') ++ more). rewrite app_assoc.
           repeat split; auto.
           ++ rewrite Hb, Hbytes. now rewrite <- app_assoc.
           ++ rewrite length_app. simpl. lia.
           ++ lia.
        -- destruct IH as (-> & Hwl & Hnow). repeat split; lia.
        -- exact IH.
    + unfold ret. exists []. rewrite app_nil_r. simpl. repeat split; lia.
Qed.

(** [read_exact n] returns exactly the next [n] bytes of the wire, or raises
    [TimeoutError]; it always comes to an end. *)
Lemma read_exact_spec n w :
  match read_exact n w with
  | Ok b w' =>
      length b = n
      /\ map snd (wire w) = b ++ map snd (wire w')
      /\ (length (wire w) = n + length (wire w'))%nat
      /\ (now w <= now w')%N
  | Raise e w' =>
      e = TimeoutError /\ (length (wire w') <= length (wire w))%nat
      /\ (now w <= now w')%N
  | Fuel => False
  end.
Proof.
  unfold read_exact.
  pose proof (read_exact_loop_spec n n [] w) as H. simpl in H.
  specialize (H ltac:(lia) ltac:(lia)).
  destruct (read_exact_loop n n [] w) as [b w'|e w'|]; auto.
  destruct H as (more & -> & Hlen & Hb & Hl & Hn). simpl in *.
  repeat split; auto. lia.
Qed.

(** *** [sync] *)

Lemma ticks_step d t : (t < d)%N -> (ticks d (t + READ_TIMEOUT) < ticks d t)%nat.
Proof.
  unfold ticks, READ_TIMEOUT. intros H.
  zify. Z.div_mod_to_equations. lia.
Qed.

Lemma ticks_mono d t t' : (t <= t')%N -> (ticks d t' <= ticks d t)%nat.
Proof.
  unfold ticks. intros H.
  zify. Z.div_mod_to_equations. lia.
Qed.

Lemma ticks_timeout t timeout :
  (ticks (t + timeout) t <= N.to_nat (timeout / READ_TIMEOUT) + 1)%nat.
Proof.
  unfold ticks, READ_TIMEOUT.
  zify. Z.div_mod_to_equations. lia.
Qed.

Lemma sync_loop_spec fuel : forall deadline prev w,
  (length (wire w) + ticks deadline (now w) <= fuel)%nat ->
  exists ok w', sync_loop fuel deadline prev w = Ok ok w'
    /\ (length (wire w') <= length (wire w))%nat
    /\ (now w <= now w')%N.
Proof.
  induction fuel as [|fuel IH]; intros deadline prev w Hfuel.
  - simpl. unfold bind, monotonic.
    destruct (N.ltb_spec (now w) deadline) as [Hlt|Hge].
    + pose proof (ticks_step _ _ Hlt) as Hs. lia.
    + exists false, w. unfold ret. repeat split; lia.
  - simpl. unfold bind at 1. unfold monotonic.
    destruct (N.ltb_spec (now w) deadline) as [Hlt|Hge].
    + unfold bind.
      destruct (read1_cases w)
        as [(dt & b & rest & Hw & Hdt & ->)|(w1 & -> & Hn & Hl)].
      * destruct (bytes_eqb prev [x5a] && bytes_eqb [b] [xa5]).
        -- exists true. eexists. unfold ret. split; [reflexivity|].
           simpl. rewrite Hw. simpl. split; lia.
        -- destruct (IH deadline [b] (mkWorld (now w + dt) rest))
             as (ok & w' & -> & Hl' & Hn').
           { simpl. rewrite Hw in Hfuel. simpl in Hfuel.
             pose proof (ticks_mono deadline (now w) (now w + dt)%N ltac:(lia)).
             lia. }
           exists ok, w'. split; [reflexivity|]. simpl in *. rewrite Hw. simpl.
           split; lia.
      * destruct (IH deadline prev w1) as (ok & w' & -> & Hl' & Hn').
        { rewrite Hl, Hn. pose proof (ticks_step _ _ Hlt). lia. }
        exists ok, w'. split; [reflexivity|]. split; lia.
    + exists false, w. unfold ret. repeat split; lia.
Qed.

(** [sync] always comes to an end, with an answer. *)
Lemma sync_spec timeout w :
  exists ok w', sync timeout w = Ok ok w'
    /\ (length (wire w') <= length (wire w))%nat
    /\ (now w <= now w')%N.
Proof.
  unfold sync. apply sync_loop_spec.
  unfold sync_fuel. pose proof (ticks_timeout (now w) timeout). lia.
Qed.


(** *** Decoding of fields *)

Lemma b2z_range b : 0 <= b2z b < 256.
Proof.
  unfold b2z. pose proof (Byte.to_N_bounded b). lia.
Qed.

Lemma le_uint_nonneg bs : 0 <= le_uint bs.
Proof.
  induction bs as [|b bs IH]; cbn [le_uint]; [lia|].
  pose proof (b2z_range b). lia.
Qed.

Lemma field_ok n buf off :
  (off + n <= length buf)%nat -> field n buf off = Val (firstn n (skipn off buf)).
Proof.
  intros H. unfold field. destruct (Nat.leb_spec (off + n) (length buf)); [reflexivity|lia].
Qed.

Lemma skipn_cons2 (buf : bytes) off :
  (off + 2 <= length buf)%nat ->
  exists a b, skipn off buf = a :: b :: skipn (off + 2) buf.
Proof.
  revert off. induction buf as [|x buf IH]; intros off H; simpl in H; [lia|].
  destruct off as [|off].
  - destruct buf as [|y buf]; simpl in H; [lia|]. exists x, y. reflexivity.
  - simpl. apply IH. lia.
Qed.

Lemma unpack_h_seq_ok n : forall buf off,
  (off + 2 * n <= length buf)%nat ->
  unpack_h_seq n buf off
  = Val (map to_int16 (words16 (firstn (2 * n) (skipn off buf)))).
Proof.
  induction n as [|n IH]; intros buf off H.
  - reflexivity.
  - cbn [unpack_h_seq]. unfold unpack_h.
    rewrite field_ok by lia. cbn [py_bind].
    rewrite IH by lia. cbn [py_bind].
    destruct (skipn_cons2 buf off ltac:(lia)) as (a & b & Hs).
    rewrite Hs. replace (2 * S n)%nat with (S (S (2 * n))) by lia.
    reflexivity.
Qed.

Lemma unpack_nh_ok n payload :
  length payload = (2 * n)%nat ->
  unpack_nh n payload = Val (map to_int16 (words16 payload)).
Proof.
  intros H. unfold unpack_nh.
  destruct (Nat.leb_spec (2 * n) (length payload)); [|lia].
  rewrite unpack_h_seq_ok by (simpl; lia). simpl skipn.
  rewrite <- H, firstn_all. reflexivity.
Qed.

Lemma words16_length bs n : length bs = (2 * n)%nat -> length (words16 bs) = n.
Proof.
  revert bs. induction n as [|n IH]; intros bs H.
  - destruct bs; [reflexivity|simpl in H; lia].
  - destruct bs as [|a [|b bs]]; simpl in H; try lia.
    simpl. f_equal. apply IH. lia.
Qed.


(** *** One iteration of the capture loop *)

Lemma bind_io_ok {A B} {m : M world A} {k : A -> M state B} {w} v {a w'} :
  m w = Ok a w' -> bind (io m) k (mkState w v) = k a (mkState w' v).
Proof. intros H. unfold bind, io. cbn [port vars]. now rewrite H. Qed.

Lemma bind_io_raise {A B} {m : M world A} {k : A -> M state B} {w} v {e w'} :
  m w = Raise e w' -> bind (io m) k (mkState w v) = Raise e (mkState w' v).
Proof. intros H. unfold bind, io. cbn [port vars]. now rewrite H. Qed.

Lemma bind_lift_val {A B} {p : py A} {k : A -> M state B} {s a} :
  p = Val a -> bind (lift p) k s = k a s.
Proof. intros ->. reflexivity. Qed.

Lemma bind_modify {B} f (k : unit -> M state B) w v :
  bind (modify f) k (mkState w v) = k tt (mkState w (f v)).
Proof. reflexivity. Qed.

Lemma bind_get {B} (k : locals -> M state B) s : bind get k s = k (vars s) s.
Proof. reflexivity. Qed.

Lemma unpack_I_ok buf off :
  (off + 4 <= length buf)%nat -> unpack_I buf off = Val (le_uint (firstn 4 (skipn off buf))).
Proof. intros H. unfold unpack_I. now rewrite field_ok. Qed.

Lemma unpack_H_ok buf off :
  (off + 2 <= length buf)%nat -> unpack_H buf off = Val (le_uint (firstn 2 (skipn off buf))).
Proof. intros H. unfold unpack_H. now rewrite field_ok. Qed.

(** What an accepted frame does to the local variables. *)
Lemma write_samples_spec samples : forall flag v,
  write_samples flag samples v
  = mkLocals (total v + Z.of_nat (length samples)) (bad_crc v) (seq_errors v)
             (last_seq v) (csv v ++ rows_from (total v) flag samples).
Proof.
  induction samples as [|x samples IH]; intros flag v.
  - destruct v. cbn. rewrite app_nil_r. f_equal. lia.
  - cbn [write_samples rows_from]. rewrite IH. cbn [total bad_crc seq_errors last_seq csv].
    rewrite <- app_assoc. cbn [app length]. f_equal. lia.
Qed.

Lemma samples_of_length payload n :
  length payload = (2 * n)%nat -> length (samples_of payload) = n.
Proof.
  intros H. unfold samples_of. rewrite length_map. now apply words16_length.
Qed.

Lemma deliver_spec gap_tracking hdr payload v :
  deliver gap_tracking hdr payload v
  = mkLocals (total v + Z.of_nat (length (samples_of payload))) (bad_crc v)
             (snd (track_seq (seq_of hdr) (last_seq v) (seq_errors v)))
             (Some (seq_of hdr))
             (csv v ++ rows_from (total v) (flag_of gap_tracking (gap_of gap_tracking hdr) v)
                                 (samples_of payload)).
Proof.
  unfold Serial.deliver. rewrite write_samples_spec. reflexivity.
Qed.

Section Attempt.

Variable HDR_AFTER_MAGIC : nat.
Variable FRAME_SAMPLES : Z.

Local Abbreviation out_of_range hdr :=
  ((nsamp_of hdr =? 0) || (nsamp_of hdr >? FRAME_SAMPLES)).

(** What the attempt says about the bytes of the wire. *)
Lemma attempt_malformed w hdr w1 :
  attempt HDR_AFTER_MAGIC FRAME_SAMPLES w = Malformed hdr w1 ->
  read_exact HDR_AFTER_MAGIC w = Ok hdr w1
  /\ length hdr = HDR_AFTER_MAGIC
  /\ map snd (wire w) = hdr ++ map snd (wire w1)
  /\ out_of_range hdr = true.
Proof.
  unfold attempt. intros H.
  pose proof (read_exact_spec HDR_AFTER_MAGIC w) as Hh.
  destruct (read_exact HDR_AFTER_MAGIC w) as [h u1|e u1|]; try discriminate.
  destruct (out_of_range h) eqn:Hrange.
  - injection H as <- <-. destruct Hh as (Hl & Hb & _). repeat split; assumption.
  - destruct (read_exact (Z.to_nat (nsamp_of h * 2)) u1) as [p u2|e u2|]; try discriminate.
    destruct (read_exact 2 u2) as [c u3|e u3|]; try discriminate.
    destruct (crc16 (MAGIC_B ++ h ++ p) =? le_uint c); discriminate.
Qed.

Lemma attempt_checked w :
  forall hdr payload crc_raw w3,
  attempt HDR_AFTER_MAGIC FRAME_SAMPLES w = Accepted hdr payload crc_raw w3
  \/ attempt HDR_AFTER_MAGIC FRAME_SAMPLES w = Corrupt hdr payload crc_raw w3 ->
  length hdr = HDR_AFTER_MAGIC
  /\ length payload = Z.to_nat (nsamp_of hdr * 2)
  /\ length crc_raw = 2%nat
  /\ 1 <= nsamp_of hdr <= FRAME_SAMPLES
  /\ map snd (wire w) = hdr ++ payload ++ crc_raw ++ map snd (wire w3)
  /\ (crc16 (MAGIC_B ++ hdr ++ payload) = le_uint crc_raw
      <-> attempt HDR_AFTER_MAGIC FRAME_SAMPLES w = Accepted hdr payload crc_raw w3).
Proof.
  intros hdr payload crc_raw w3. unfold attempt.
  pose proof (read_exact_spec HDR_AFTER_MAGIC w) as Hh.
  destruct (read_exact HDR_AFTER_MAGIC w) as [h u1|e u1|];
    [|intros [H|H]; discriminate..].
  destruct (out_of_range h) eqn:Hrange; [intros [H|H]; discriminate|].
  pose proof (read_exact_spec (Z.to_nat (nsamp_of h * 2)) u1) as Hp.
  destruct (read_exact (Z.to_nat (nsamp_of h * 2)) u1) as [p u2|e u2|];
    [|intros [H|H]; discriminate..].
  pose proof (read_exact_spec 2 u2) as Hc.
  destruct (read_exact 2 u2) as [c u3|e u3|]; [|intros [H|H]; discriminate..].
  destruct Hh as (Hl1 & Hb1 & _). destruct Hp as (Hl2 & Hb2 & _).
  destruct Hc as (Hl3 & Hb3 & _).
  apply orb_false_iff in Hrange. destruct Hrange as (Hz & Hgt).
  assert (Hnonneg : 0 <= nsamp_of h) by apply le_uint_nonneg.
  destruct (Z.eqb_spec (crc16 (MAGIC_B ++ h ++ p)) (le_uint c)) as [Heq|Hne];
    intros [H|H]; try discriminate H; injection H as <- <- <- <-.
  - split; [assumption|]. split; [assumption|]. split; [assumption|].
    split; [lia|]. split; [|tauto].
    rewrite Hb1, Hb2, Hb3. reflexivity.
  - split; [assumption|]. split; [assumption|]. split; [assumption|].
    split; [lia|]. split; [|split; [contradiction|discriminate]].
    rewrite Hb1, Hb2, Hb3. reflexivity.
Qed.

(** An accepted frame carries as many samples as its header declares. *)
Lemma attempt_full_payload w :
  match attempt HDR_AFTER_MAGIC FRAME_SAMPLES w with
  | Accepted hdr payload _ _ =>
      Z.of_nat (length (samples_of payload)) = nsamp_of hdr /\ 1 <= nsamp_of hdr
  | _ => True
  end.
Proof.
  destruct (attempt HDR_AFTER_MAGIC FRAME_SAMPLES w) as [w'|hdr w1|hdr p c w3|hdr p c w3] eqn:Ha;
    try exact I.
  destruct (attempt_checked w hdr p c w3 (or_introl Ha)) as (_ & H2 & _ & Hr & _).
  rewrite (samples_of_length p (Z.to_nat (nsamp_of hdr))) by lia. lia.
Qed.

End Attempt.

Section Body.

Variable HDR_AFTER_MAGIC : nat.
Variable FRAME_SAMPLES : Z.
Variable gap_tracking : bool.

(** The header holds the fields the script unpacks from it. *)
Hypothesis header_fields : (6 <= HDR_AFTER_MAGIC)%nat.
Hypothesis header_gap_field : gap_tracking = true -> (10 <= HDR_AFTER_MAGIC)%nat.

Local Abbreviation frame_body := (frame_body HDR_AFTER_MAGIC FRAME_SAMPLES gap_tracking).
Local Abbreviation deliver := (deliver gap_tracking).
Local Abbreviation out_of_range hdr :=
  ((nsamp_of hdr =? 0) || (nsamp_of hdr >? FRAME_SAMPLES)).

Lemma resync_run w :
  exists ok w', sync 2000 w = Ok ok w'
    /\ (forall v, resync (mkState w v)
                  = Ok (if ok then Continue else Break) (mkState w' v))
    /\ (length (wire w') <= length (wire w))%nat
    /\ (now w <= now w')%N.
Proof.
  destruct (sync_spec 2000 w) as (ok & w' & Hs & Hl & Hn).
  exists ok, w'. split; [assumption|]. split; [|split; assumption].
  intros v. unfold resync. now rewrite (bind_io_ok v Hs).
Qed.

Lemma stay_framed_run w :
  (exists w', read_exact 2 w = Raise TimeoutError w'
     /\ forall v, stay_framed (mkState w v) = Raise TimeoutError (mkState w' v))
  \/ (exists fl w', (forall v, stay_framed (mkState w v) = Ok fl (mkState w' v))
        /\ (length (wire w') + 2 <= length (wire w))%nat
        /\ (now w <= now w')%N).
Proof.
  unfold stay_framed.
  pose proof (read_exact_spec 2 w) as H.
  destruct (read_exact 2 w) as [nxt w1|e w1|] eqn:Hr; [| |contradiction].
  - right. destruct H as (_ & _ & Hl & Hn).
    destruct (negb (bytes_eqb nxt MAGIC_B)) eqn:Hm.
    + destruct (resync_run w1) as (ok & w2 & _ & Hrs & Hl2 & Hn2).
      eexists; exists w2. split; [|split; lia].
      intros v. rewrite (bind_io_ok v Hr), Hm. apply Hrs.
    + exists Continue, w1. split; [|split; lia].
      intros v. now rewrite (bind_io_ok v Hr), Hm.
  - left. destruct H as (-> & _). exists w1. split; [reflexivity|].
    intros v. now rewrite (bind_io_raise v Hr).
Qed.

(** The header has been read; what [frame_body] goes on with. *)
Lemma frame_body_header w hdr w1 v :
  read_exact HDR_AFTER_MAGIC w = Ok hdr w1 ->
  frame_body (mkState w v)
  = (if out_of_range hdr then resync
     else
       payload <- io (read_exact (Z.to_nat (nsamp_of hdr * 2))) ;;
       crc_raw <- io (read_exact 2) ;;
       if negb (crc16 (MAGIC_B ++ hdr ++ payload) =? le_uint crc_raw) then
         modify count_bad_crc ;; resync
       else
         modify (deliver hdr payload) ;; stay_framed)%io (mkState w1 v).
Proof.
  intros Hr.
  pose proof (read_exact_spec HDR_AFTER_MAGIC w) as Hh. rewrite Hr in Hh.
  destruct Hh as (Hlen & _).
  unfold Serial.frame_body.
  rewrite (bind_io_ok v Hr).
  rewrite (bind_lift_val (unpack_I_ok hdr 0 ltac:(simpl; lia))).
  rewrite (bind_lift_val (unpack_H_ok hdr 4 ltac:(simpl; lia))).
  change (skipn 0 hdr) with hdr.
  fold (seq_of hdr). fold (nsamp_of hdr).
  assert (Hgap : (if gap_tracking then lift (unpack_I hdr 6) else ret 0)
                   (mkState w1 v)
                 = Ok (gap_of gap_tracking hdr) (mkState w1 v)).
  { unfold gap_of. destruct gap_tracking; [|reflexivity].
    unfold lift. rewrite unpack_I_ok by (specialize (header_gap_field eq_refl); lia).
    reflexivity. }
  unfold bind at 1. rewrite Hgap. clear Hgap.
  destruct (out_of_range hdr); [reflexivity|].
  pose proof (read_exact_spec (Z.to_nat (nsamp_of hdr * 2)) w1) as Hp.
  destruct (read_exact (Z.to_nat (nsamp_of hdr * 2)) w1) as [payload w2|e w2|] eqn:Hrp;
    [| |contradiction].
  2:{ now do 2 rewrite (bind_io_raise v Hrp). }
  do 2 rewrite (bind_io_ok v Hrp).
  destruct Hp as (Hplen & _).
  pose proof (read_exact_spec 2 w2) as Hc.
  destruct (read_exact 2 w2) as [crc_raw w3|e w3|] eqn:Hrc; [| |contradiction].
  2:{ now do 2 rewrite (bind_io_raise v Hrc). }
  do 2 rewrite (bind_io_ok v Hrc).
  destruct Hc as (Hclen & _).
  rewrite (bind_lift_val (unpack_H_ok crc_raw 0 ltac:(simpl; lia))).
  change (skipn 0 crc_raw) with crc_raw.
  assert (Hf : firstn 2 crc_raw = crc_raw) by (rewrite <- Hclen; apply firstn_all).
  rewrite Hf. clear Hf.
  destruct (negb (crc16 (MAGIC_B ++ hdr ++ payload) =? le_uint crc_raw)); [reflexivity|].
  rewrite !bind_modify. rewrite bind_get. cbn [vars].
  rewrite (bind_lift_val (unpack_nh_ok (Z.to_nat (nsamp_of hdr)) payload
                                  ltac:(rewrite Hplen; lia))).
  rewrite bind_modify. reflexivity.
Qed.

(** [frame_body] is the attempt on the port followed by its consequence on
    the local variables. *)
Lemma frame_body_attempt w v :
  frame_body (mkState w v)
  = carry_on gap_tracking (attempt HDR_AFTER_MAGIC FRAME_SAMPLES w) v.
Proof.
  unfold attempt.
  pose proof (read_exact_spec HDR_AFTER_MAGIC w) as Hh.
  destruct (read_exact HDR_AFTER_MAGIC w) as [hdr w1|e w1|] eqn:Hrh; [| |contradiction].
  2:{ destruct Hh as (-> & _). unfold Serial.frame_body.
      now rewrite (bind_io_raise v Hrh). }
  rewrite (frame_body_header _ _ _ v Hrh).
  destruct (out_of_range hdr); [reflexivity|].
  pose proof (read_exact_spec (Z.to_nat (nsamp_of hdr * 2)) w1) as Hp.
  destruct (read_exact (Z.to_nat (nsamp_of hdr * 2)) w1) as [payload w2|e w2|] eqn:Hrp;
    [| |contradiction].
  2:{ destruct Hp as (-> & _). now rewrite (bind_io_raise v Hrp). }
  rewrite (bind_io_ok v Hrp).
  pose proof (read_exact_spec 2 w2) as Hc.
  destruct (read_exact 2 w2) as [crc_raw w3|e w3|] eqn:Hrc; [| |contradiction].
  2:{ destruct Hc as (-> & _). now rewrite (bind_io_raise v Hrc). }
  rewrite (bind_io_ok v Hrc).
  destruct (crc16 (MAGIC_B ++ hdr ++ payload) =? le_uint crc_raw); reflexivity.
Qed.

(** The consequence of a verdict: where the port is left and whether the
    loop goes on depend on the verdict alone, the local variables are those
    of [effect]. *)
Lemma carry_on_any vd :
  (exists w', forall v,
      carry_on gap_tracking vd v
      = Raise TimeoutError (mkState w' (effect gap_tracking vd v)))
  \/ (exists fl w', forall v,
        carry_on gap_tracking vd v = Ok fl (mkState w' (effect gap_tracking vd v))).
Proof.
  destruct vd as [w'|hdr w1|hdr p c w3|hdr p c w3]; cbn [carry_on effect].
  - left. exists w'. reflexivity.
  - right. destruct (resync_run w1) as (ok & w2 & _ & Hrs & _).
    eexists; exists w2. intros v. apply Hrs.
  - right. destruct (resync_run w3) as (ok & w2 & _ & Hrs & _).
    eexists; exists w2. intros v. apply Hrs.
  - destruct (stay_framed_run w3) as [(w' & _ & Hst)|(fl & w' & Hst & _)].
    + left. exists w'. intros v. apply Hst.
    + right. exists fl, w'. intros v. apply Hst.
Qed.

(** The state an iteration ends in. *)
Lemma frame_body_final w v :
  exists s', final (frame_body (mkState w v)) = Some s'
    /\ vars s' = effect gap_tracking (attempt HDR_AFTER_MAGIC FRAME_SAMPLES w) v.
Proof.
  rewrite frame_body_attempt.
  destruct (carry_on_any (attempt HDR_AFTER_MAGIC FRAME_SAMPLES w))
    as [(w' & H)|(fl & w' & H)]; rewrite H; eexists; split; reflexivity.
Qed.

(** An iteration never exhausts the bound of the model, raises nothing but
    [TimeoutError], and consumes the header it has read. *)
Lemma frame_body_run w v :
  match frame_body (mkState w v) with
  | Ok _ s' => (length (wire (port s')) + HDR_AFTER_MAGIC <= length (wire w))%nat
  | Raise e _ => e = TimeoutError
  | Fuel => False
  end.
Proof.
  rewrite frame_body_attempt.
  destruct (attempt HDR_AFTER_MAGIC FRAME_SAMPLES w) as [w'|hdr w1|hdr p c w3|hdr p c w3] eqn:Ha;
    cbn [carry_on].
  - reflexivity.
  - apply attempt_malformed in Ha. destruct Ha as (Hr & _).
    pose proof (read_exact_spec HDR_AFTER_MAGIC w) as Hh. rewrite Hr in Hh.
    destruct (resync_run w1) as (ok & w2 & _ & Hrs & Hl & _). rewrite Hrs.
    cbn [port]. lia.
  - pose proof (attempt_checked _ _ w hdr p c w3 (or_intror Ha)) as (H1 & H2 & H3 & _ & Hb & _).
    apply (f_equal (@length _)) in Hb. rewrite length_map, !length_app, length_map in Hb.
    destruct (resync_run w3) as (ok & w2 & _ & Hrs & Hl & _). rewrite Hrs.
    cbn [port]. lia.
  - pose proof (attempt_checked _ _ w hdr p c w3 (or_introl Ha)) as (H1 & H2 & H3 & _ & Hb & _).
    apply (f_equal (@length _)) in Hb. rewrite length_map, !length_app, length_map in Hb.
    destruct (stay_framed_run w3) as [(w' & _ & Hst)|(fl & w' & Hst & Hl & _)]; rewrite Hst.
    + reflexivity.
    + cbn [port]. lia.
Qed.

(** *** The capture loop *)

Local Abbreviation capture_loop :=
  (capture_loop HDR_AFTER_MAGIC FRAME_SAMPLES gap_tracking).
Local Abbreviation run_capture :=
  (run_capture HDR_AFTER_MAGIC FRAME_SAMPLES gap_tracking).

Lemma capture_loop_unfold fuel end_time w v :
  capture_loop (S fuel) end_time (mkState w v)
  = if (now w <? end_time)%N
    then match frame_body (mkState w v) with
         | Ok Continue s' => capture_loop fuel end_time s'
         | Ok Break s' => Ok SyncLost s'
         | Raise e s' => Raise e s'
         | Fuel => Fuel
         end
    else Ok TimeUp (mkState w v).
Proof.
  cbn [Serial.capture_loop].
  rewrite (bind_io_ok (m := monotonic) v (a := now w) (w' := w) eq_refl).
  destruct (now w <? end_time)%N; [|reflexivity].
  unfold bind at 1.
  destruct (frame_body (mkState w v)) as [[|] s'|e s'|]; reflexivity.
Qed.

(** The loop comes to an end within its bound, by the clock, by a failed
    resynchronisation or by [TimeoutError]. *)
Lemma capture_loop_run fuel : forall end_time s,
  (length (wire (port s)) < fuel)%nat ->
  match capture_loop fuel end_time s with
  | Ok e _ => e = TimeUp \/ e = SyncLost
  | Raise e _ => e = TimeoutError
  | Fuel => False
  end.
Proof.
  induction fuel as [|fuel IH]; intros end_time [w v] Hfuel; [cbn in Hfuel; lia|].
  rewrite capture_loop_unfold. cbn [port] in Hfuel.
  destruct (now w <? end_time)%N; [|left; reflexivity].
  pose proof (frame_body_run w v) as Hrun.
  destruct (frame_body (mkState w v)) as [[|] s'|e s'|]; auto.
  apply IH. lia.
Qed.

(** A property of the local variables that every iteration keeps holds at
    the end of the loop. *)
Lemma capture_loop_invariant (P : locals -> Prop) :
  (forall w v, P v -> P (effect gap_tracking (attempt HDR_AFTER_MAGIC FRAME_SAMPLES w) v)) ->
  forall fuel end_time s s',
    P (vars s) -> final (capture_loop fuel end_time s) = Some s' -> P (vars s').
Proof.
  intros Hstep. induction fuel as [|fuel IH]; intros end_time [w v] s' HP Hfin.
  - cbn in Hfin. destruct (now w <? end_time)%N; [discriminate|].
    injection Hfin as <-. exact HP.
  - rewrite capture_loop_unfold in Hfin.
    destruct (now w <? end_time)%N; [|injection Hfin as <-; exact HP].
    destruct (frame_body_final w v) as (s1 & Hf & Hv).
    destruct (frame_body (mkState w v)) as [[|] s2|e s2|]; cbn [final] in Hf, Hfin;
      try discriminate; injection Hf as ->.
    + apply (IH end_time s1 s'); [|assumption]. rewrite Hv. now apply Hstep.
    + injection Hfin as <-. rewrite Hv. now apply Hstep.
    + injection Hfin as <-. rewrite Hv. now apply Hstep.
Qed.

(** [run_capture] always comes to its summary: it neither diverges nor dies
    of an exception it does not handle. *)
Lemma run_capture_ends duration w :
  let e := fst (run_capture duration w) in
  e = NoSync \/ e = TimeUp \/ e = SyncLost \/ e = TimedOut.
Proof.
  unfold Serial.run_capture.
  destruct (sync_spec 5000 w) as ([|] & w' & -> & _).
  - pose proof (capture_loop_run (S (length (wire w'))) (now w' + duration * 1000)%N
                  (mkState w' fresh) ltac:(cbn; lia)) as H.
    destruct (capture_loop _ _ _) as [e s'|e s'|]; [| |contradiction].
    + cbn. destruct H as [-> | ->]; auto.
    + subst e. cbn. auto.
  - cbn. auto.
Qed.


(** Rows are written only for a frame whose checksum has been verified. *)
Lemma frame_body_crc_gate w v s' :
  final (frame_body (mkState w v)) = Some s' ->
  csv (vars s') <> csv v ->
  exists hdr payload crc_raw rest,
    map snd (wire w) = hdr ++ payload ++ crc_raw ++ rest
    /\ length hdr = HDR_AFTER_MAGIC
    /\ length payload = Z.to_nat (nsamp_of hdr * 2)
    /\ length crc_raw = 2%nat
    /\ crc16 (MAGIC_B ++ hdr ++ payload) = le_uint crc_raw.
Proof.
  intros Hf Hcsv.
  destruct (frame_body_final w v) as (s1 & Hf1 & Hv).
  rewrite Hf in Hf1. injection Hf1 as <-. rewrite Hv in Hcsv.
  destruct (attempt HDR_AFTER_MAGIC FRAME_SAMPLES w) as [w'|hdr w1|hdr p c w3|hdr p c w3] eqn:Ha;
    try (cbn in Hcsv; congruence).
  destruct (attempt_checked _ _ w hdr p c w3 (or_introl Ha)) as (H1 & H2 & H3 & _ & Hb & Hcrc).
  exists hdr, p, c, (map snd (wire w3)). repeat split; try assumption.
  now apply Hcrc.
Qed.

(** *** The session as a sequence of verdicts *)

Local Abbreviation verdicts := (verdicts HDR_AFTER_MAGIC FRAME_SAMPLES gap_tracking).
Local Abbreviation effects :=
  (fold_left (fun v vd => effect gap_tracking vd v)).

(** The local variables at the end of the loop are the effects of the
    verdicts of its iterations, one after the other. *)
Lemma capture_loop_trace fuel : forall end_time w v,
  (length (wire w) < fuel)%nat ->
  exists s', final (capture_loop fuel end_time (mkState w v)) = Some s'
    /\ vars s' = effects (verdicts fuel end_time w) v.
Proof.
  induction fuel as [|fuel IH]; intros end_time w v Hfuel; [lia|].
  rewrite capture_loop_unfold. cbn [Serial.verdicts].
  destruct (now w <? end_time)%N; [|eexists; split; reflexivity].
  pose proof (frame_body_run w v) as Hrun.
  rewrite frame_body_attempt in *.
  unfold next_port.
  destruct (carry_on_any (attempt HDR_AFTER_MAGIC FRAME_SAMPLES w))
    as [(w' & H)|(fl & w' & H)]; rewrite (H v) in *; rewrite (H fresh).
  - eexists. split; reflexivity.
  - destruct fl.
    + cbn [port] in *. destruct (IH end_time w' (effect gap_tracking
          (attempt HDR_AFTER_MAGIC FRAME_SAMPLES w) v) ltac:(lia)) as (s' & Hf & Hv).
      exists s'. split; assumption.
    + eexists. split; reflexivity.
Qed.

Lemma run_capture_trace duration w :
  vars (snd (run_capture duration w)) = effects (session HDR_AFTER_MAGIC FRAME_SAMPLES
                                                  gap_tracking duration w) fresh.
Proof.
  unfold Serial.run_capture, session.
  destruct (sync_spec 5000 w) as ([|] & w' & -> & _); [|reflexivity].
  destruct (capture_loop_trace (S (length (wire w'))) (now w' + duration * 1000)%N
              w' fresh ltac:(lia)) as (s' & Hf & Hv).
  destruct (capture_loop _ _ _) as [e s1|e s1|]; cbn [final] in Hf; [| |discriminate];
    injection Hf as ->; [|destruct e]; exact Hv.
Qed.

End Body.

(** *** Silent ports and whole frames *)

Lemma read_exact_silent n t :
  (0 < n)%nat ->
  read_exact n (mkWorld t []) = Raise TimeoutError (mkWorld (t + READ_TIMEOUT) []).
Proof.
  intros H. destruct n as [|n]; [lia|]. reflexivity.
Qed.

Section Frames.

Variable HDR_AFTER_MAGIC : nat.
Variable FRAME_SAMPLES : Z.

Local Abbreviation header_of := (header_of HDR_AFTER_MAGIC).
Local Abbreviation payload_of := (payload_of HDR_AFTER_MAGIC).
Local Abbreviation frame_ok := (frame_ok HDR_AFTER_MAGIC FRAME_SAMPLES).

Lemma frame_ok_split f :
  frame_ok f = true ->
  f = header_of f ++ payload_of f ++ crc_of f
  /\ length (header_of f) = HDR_AFTER_MAGIC
  /\ length (payload_of f) = Z.to_nat (nsamp_of (header_of f) * 2)
  /\ length (crc_of f) = 2%nat
  /\ (nsamp_of (header_of f) =? 0) || (nsamp_of (header_of f) >? FRAME_SAMPLES) = false
  /\ crc16 (MAGIC_B ++ header_of f ++ payload_of f) = le_uint (crc_of f).
Proof.
  unfold Serial.frame_ok. rewrite !andb_true_iff.
  intros (((H1 & H2) & Hlen) & Hcrc).
  apply Z.leb_le in H1, H2. apply Nat.eqb_eq in Hlen. apply Z.eqb_eq in Hcrc.
  set (P := Z.to_nat (nsamp_of (header_of f) * 2)) in *.
  assert (Hh : length (header_of f) = HDR_AFTER_MAGIC).
  { unfold Serial.header_of. rewrite length_firstn. lia. }
  assert (Hp : length (payload_of f) = P).
  { unfold Serial.payload_of. fold P. rewrite length_firstn, length_skipn. lia. }
  assert (Hc : crc_of f = skipn P (skipn HDR_AFTER_MAGIC f)).
  { unfold crc_of. rewrite skipn_skipn. f_equal. lia. }
  split.
  { rewrite Hc. unfold Serial.payload_of. fold P.
    rewrite (firstn_skipn P (skipn HDR_AFTER_MAGIC f)).
    unfold Serial.header_of. now rewrite firstn_skipn. }
  split; [assumption|]. split; [assumption|].
  split; [unfold crc_of; rewrite length_skipn; lia|].
  split; [|assumption].
  apply orb_false_iff. split; [apply Z.eqb_neq; lia|].
  rewrite Z.gtb_ltb. apply Z.ltb_ge. lia.
Qed.

End Frames.

Lemma stay_framed_silent t v :
  stay_framed (mkState (mkWorld t []) v)
  = Raise TimeoutError (mkState (mkWorld (t + READ_TIMEOUT) []) v).
Proof.
  unfold stay_framed.
  now rewrite (bind_io_raise v (read_exact_silent 2 t ltac:(lia))).
Qed.

(** *** Streams that keep pace with the reader *)

Lemma span_app a b : span (a ++ b) = (span a + span b)%N.
Proof.
  induction a as [|[dt x] a IH]; cbn [app span]; [reflexivity|]. rewrite IH. lia.
Qed.

Lemma punctual_app a b : punctual (a ++ b) = punctual a && punctual b.
Proof. apply forallb_app. Qed.

Lemma span_instant bs : span (instant bs) = 0%N.
Proof. induction bs as [|b bs IH]; [reflexivity|]. cbn. exact IH. Qed.

Lemma punctual_instant bs : punctual (instant bs) = true.
Proof. induction bs as [|b bs IH]; [reflexivity|]. cbn. exact IH. Qed.

Lemma map_snd_instant bs : map snd (instant bs) = bs.
Proof.
  unfold instant. rewrite map_map. cbn. apply map_id.
Qed.

(** One [ser.read]: what it returns and what it leaves put the stream
    together again, and no time is lost. *)
Lemma ser_read_within_punctual size : forall budget t a rest,
  length a = size ->
  exists got t' a',
    ser_read_within budget size (mkWorld t (a ++ rest)) = (got, mkWorld t' (a' ++ rest))
    /\ got ++ map snd a' = map snd a
    /\ (t' + span a' = t + span a)%N
    /\ (punctual a = true -> punctual a' = true)
    /\ (forall dt b a0, a = (dt, b) :: a0 -> (dt <= budget)%N -> got <> []).
Proof.
  induction size as [|size IH]; intros budget t a rest Hlen.
  - destruct a; [|discriminate]. exists (@nil byte), t, (@nil (N * byte)). cbn. repeat split; try reflexivity.
    intros; discriminate.
  - destruct a as [|[dt b] a0]; [discriminate|].
    cbn [ser_read_within app wire now].
    destruct (N.leb_spec dt budget) as [Hle|Hgt].
    + destruct (IH (budget - dt)%N (t + dt)%N a0 rest ltac:(cbn in Hlen; lia))
        as (got & t' & a' & -> & Hb & Ht & Hp & _).
      exists (b :: got), t', a'. split; [reflexivity|].
      split; [cbn; now rewrite Hb|].
      split; [cbn [span]; lia|].
      split; [|intros; discriminate].
      intros H. apply Hp. unfold punctual in *. cbn [forallb] in H.
      now apply andb_true_iff in H.
    + exists (@nil byte), (t + budget)%N, (((dt - budget)%N, b) :: a0).
      split; [reflexivity|]. split; [reflexivity|].
      split; [cbn [span]; lia|].
      split.
      * unfold punctual. cbn [forallb fst]. rewrite !andb_true_iff.
        intros (H1 & H2). split; [|assumption].
        apply N.leb_le in H1. apply N.leb_le. lia.
      * intros dt' b' a0' E Hle. injection E as <- _ _. lia.
Qed.

Lemma read_exact_loop_punctual fuel : forall n buf t a rest,
  (length buf + length a = n)%nat ->
  (length a <= fuel)%nat ->
  punctual a = true ->
  read_exact_loop fuel n buf (mkWorld t (a ++ rest))
  = Ok (buf ++ map snd a) (mkWorld (t + span a) rest).
Proof.
  induction fuel as [|fuel IH]; intros n buf t a rest Hn Hfuel Hp.
  - destruct a; [|cbn in Hfuel; lia]. cbn [read_exact_loop length] in *.
    destruct (Nat.ltb_spec (length buf) n); [lia|].
    unfold ret. cbn. now rewrite app_nil_r, N.add_0_r.
  - destruct a as [|[dt b] a0].
    + cbn [read_exact_loop length] in *.
      destruct (Nat.ltb_spec (length buf) n); [lia|].
      unfold ret. cbn. now rewrite app_nil_r, N.add_0_r.
    + cbn [read_exact_loop]. cbn [length] in Hn, Hfuel.
      destruct (Nat.ltb_spec (length buf) n); [|lia].
      unfold bind, read, ser_read.
      destruct (ser_read_within_punctual (n - length buf) READ_TIMEOUT t
                  ((dt, b) :: a0) rest ltac:(cbn; lia))
        as (got & t' & a' & -> & Hb & Ht & Hp' & Hne).
      assert (Hdt : (dt <= READ_TIMEOUT)%N).
      { unfold punctual in Hp. cbn [forallb fst] in Hp.
        apply andb_true_iff in Hp. destruct Hp as (Hp & _). now apply N.leb_le. }
      specialize (Hne dt b a0 eq_refl Hdt).
      destruct got as [|g got]; [contradiction|].
      assert (Hlen : (length (g :: got) + length a' = S (length a0))%nat).
      { apply (f_equal (@length _)) in Hb.
        rewrite length_app, !length_map in Hb. cbn [length] in *. lia. }
      rewrite (IH n (buf ++ g :: got) t' a' rest).
      * rewrite <- app_assoc, Hb, <- Ht. reflexivity.
      * rewrite length_app. cbn [length] in *. lia.
      * cbn [length] in *. lia.
      * now apply Hp'.
Qed.

(** [read_exact] on a stream that keeps pace: the bytes, at the time the
    last of them arrives. *)
Lemma read_exact_punctual n t a rest :
  length a = n -> punctual a = true ->
  read_exact n (mkWorld t (a ++ rest)) = Ok (map snd a) (mkWorld (t + span a) rest).
Proof.
  intros Hlen Hp. unfold read_exact.
  rewrite (read_exact_loop_punctual n n [] t a rest); [reflexivity|cbn; lia|lia|assumption].
Qed.

Lemma read1_punctual t dt b rest :
  (dt <= READ_TIMEOUT)%N ->
  read 1 (mkWorld t ((dt, b) :: rest)) = Ok [b] (mkWorld (t + dt) rest).
Proof.
  intros Hdt. unfold read, ser_read. cbn [ser_read_within wire now].
  apply N.leb_le in Hdt. now rewrite Hdt.
Qed.

(** [sync] on garbage without the marker, followed by the marker, when the
    last byte of the marker is asked for before the deadline. *)
Lemma sync_loop_punctual wg : forall fuel deadline prev t d1 d2 rest,
  (length prev <= 1)%nat ->
  contains_magic (prev ++ map snd wg) = false ->
  punctual (wg ++ [(d1, x5a); (d2, xa5)]) = true ->
  (t + span wg + d1 < deadline)%N ->
  (length wg + 2 <= fuel)%nat ->
  sync_loop fuel deadline prev (mkWorld t (wg ++ (d1, x5a) :: (d2, xa5) :: rest))
  = Ok true (mkWorld (t + span wg + d1 + d2) rest).
Proof.
  induction wg as [|[dt x] wg IH]; intros fuel deadline prev t d1 d2 rest Hprev Hno Hp Ht Hfuel.
  - destruct fuel as [|[|fuel]]; [cbn in Hfuel; lia..|].
    unfold punctual in Hp. cbn [app forallb fst] in Hp.
    rewrite !andb_true_iff in Hp. destruct Hp as (H1 & H2 & _).
    apply N.leb_le in H1, H2. cbn [span] in Ht.
    cbn [app span]. cbn [sync_loop]. unfold bind at 1. unfold monotonic at 1.
    cbn [now]. assert (E1 : (t <? deadline)%N = true) by (apply N.ltb_lt; lia).
    rewrite E1. unfold bind at 1. rewrite read1_punctual by assumption.
    replace (bytes_eqb prev [x5a] && bytes_eqb [x5a] [xa5]) with false
      by (now rewrite andb_false_r).
    unfold bind at 1. unfold monotonic at 1. cbn [now].
    assert (E2 : (t + d1 <? deadline)%N = true) by (apply N.ltb_lt; lia).
    rewrite E2. unfold bind at 1. rewrite read1_punctual by assumption.
    cbn. now rewrite N.add_0_r.
  - destruct fuel as [|fuel]; [cbn in Hfuel; lia|].
    pose proof Hp as Hp'. unfold punctual in Hp'. cbn [app forallb fst] in Hp'.
    apply andb_true_iff in Hp'. destruct Hp' as (Hdt & Hp').
    apply N.leb_le in Hdt. cbn [span] in Ht.
    cbn [app]. cbn [sync_loop]. unfold bind at 1. unfold monotonic at 1.
    cbn [now]. assert (E1 : (t <? deadline)%N = true) by (apply N.ltb_lt; lia).
    rewrite E1. unfold bind at 1. rewrite read1_punctual by assumption.
    assert (Hx : bytes_eqb prev [x5a] && bytes_eqb [x] [xa5] = false
                 /\ contains_magic ([x] ++ map snd wg) = false).
    { change (map snd ((dt, x) :: wg)) with (x :: map snd wg) in Hno.
      destruct prev as [|p [|q prev]]; [| |cbn in Hprev; lia].
      - split; [reflexivity|exact Hno].
      - cbn [app contains_magic] in Hno. apply orb_false_iff in Hno.
        destruct Hno as (Hpx & Hrest). split; [|exact Hrest].
        cbn [bytes_eqb]. rewrite !andb_true_r. exact Hpx. }
    destruct Hx as (-> & Hno').
    rewrite (IH fuel deadline [x] (t + dt)%N d1 d2 rest); try assumption.
    + cbn [span]. f_equal. f_equal. lia.
    + cbn. lia.
    + lia.
    + cbn in Hfuel. lia.
Qed.

Lemma magic_on_wire (wm : list (N * byte)) :
  map snd wm = MAGIC_B -> exists d1 d2, wm = [(d1, x5a); (d2, xa5)].
Proof.
  destruct wm as [|[d1 b1] [|[d2 b2] [|? ?]]]; try discriminate.
  cbn. intros H. injection H as -> ->. now exists d1, d2.
Qed.

Lemma sync_punctual (wg wm : list (N * byte)) timeout t rest :
  contains_magic (map snd wg) = false ->
  map snd wm = MAGIC_B ->
  punctual (wg ++ wm) = true ->
  (span (wg ++ wm) < timeout)%N ->
  sync timeout (mkWorld t (wg ++ wm ++ rest))
  = Ok true (mkWorld (t + span (wg ++ wm)) rest).
Proof.
  intros Hno Hm Hp Ht. destruct (magic_on_wire wm Hm) as (d1 & d2 & ->).
  rewrite span_app in *. cbn [span] in *. unfold sync. cbn [app now].
  rewrite (sync_loop_punctual wg _ _ [] t d1 d2 rest).
  - f_equal. f_equal. lia.
  - cbn. lia.
  - exact Hno.
  - exact Hp.
  - lia.
  - unfold sync_fuel. cbn [wire]. rewrite length_app.
    generalize (N.to_nat (timeout / READ_TIMEOUT)). intros k. cbn [length]. lia.
Qed.

(** A stream read as two byte strings in a row splits accordingly. *)
Lemma wire_split (ws : list (N * byte)) a b :
  map snd ws = a ++ b ->
  exists wa wb, ws = wa ++ wb /\ map snd wa = a /\ map snd wb = b.
Proof.
  intros H. exists (firstn (length a) ws), (skipn (length a) ws).
  split; [now rewrite firstn_skipn|].
  rewrite <- firstn_map, <- skipn_map, H.
  split.
  - rewrite firstn_app, Nat.sub_diag, firstn_all. cbn. apply app_nil_r.
  - rewrite skipn_app, Nat.sub_diag, skipn_all. reflexivity.
Qed.

Section TimedFrames.

Variable HDR_AFTER_MAGIC : nat.
Variable FRAME_SAMPLES : Z.

Local Abbreviation header_of := (header_of HDR_AFTER_MAGIC).
Local Abbreviation payload_of := (payload_of HDR_AFTER_MAGIC).
Local Abbreviation frame_ok := (frame_ok HDR_AFTER_MAGIC FRAME_SAMPLES).

(** A whole, valid frame that arrives without a stall is accepted, at the
    time its last byte arrives. *)
Lemma attempt_punctual (wf : list (N * byte)) t rest :
  frame_ok (map snd wf) = true ->
  punctual wf = true ->
  attempt HDR_AFTER_MAGIC FRAME_SAMPLES (mkWorld t (wf ++ rest))
  = Accepted (header_of (map snd wf)) (payload_of (map snd wf)) (crc_of (map snd wf))
      (mkWorld (t + span wf) rest).
Proof.
  intros Hok Hp.
  destruct (frame_ok_split _ _ _ Hok) as (Hf & Hh & Hpl & Hc & Hr & Hcrc).
  set (f := map snd wf) in *.
  destruct (wire_split wf _ _ Hf) as (wh & w1 & -> & Eh & E1).
  destruct (wire_split w1 _ _ E1) as (wp & wc & -> & Ep & Ec).
  rewrite !punctual_app in Hp. rewrite !andb_true_iff in Hp.
  destruct Hp as (Hph & Hpp & Hpc).
  unfold attempt. rewrite <- !app_assoc.
  rewrite (read_exact_punctual HDR_AFTER_MAGIC t wh)
    by (try assumption; now rewrite <- Hh, <- Eh, length_map).
  rewrite Eh, Hr.
  rewrite (read_exact_punctual _ (t + span wh) wp)
    by (try assumption; now rewrite <- Hpl, <- Ep, length_map).
  rewrite (read_exact_punctual 2 _ wc)
    by (try assumption; now rewrite <- Hc, <- Ec, length_map).
  rewrite Ep, Ec. apply Z.eqb_eq in Hcrc. rewrite Hcrc.
  rewrite !span_app. f_equal. f_equal. lia.
Qed.

End TimedFrames.

Lemma stay_framed_punctual (wm : list (N * byte)) t rest v :
  map snd wm = MAGIC_B -> punctual wm = true ->
  stay_framed (mkState (mkWorld t (wm ++ rest)) v)
  = Ok Continue (mkState (mkWorld (t + span wm) rest) v).
Proof.
  intros Hm Hp. unfold stay_framed.
  assert (Hlen : length wm = 2%nat) by (now rewrite <- (length_map snd), Hm).
  rewrite (bind_io_ok v (read_exact_punctual 2 t wm rest Hlen Hp)).
  now rewrite Hm.
Qed.

Lemma track_seq_spec seq last errors :
  track_seq seq last errors
  = (Some seq, errors + (if spec_gap last seq then 1 else 0)).
Proof.
  unfold track_seq, spec_gap. f_equal.
  destruct last as [l|]; [|lia].
  change 0xFFFFFFFF with (Z.ones 32). rewrite Z.land_ones by lia.
  destruct (seq =? (l + 1) mod 2 ^ 32); cbn [negb]; lia.
Qed.

(** The effect of an accepted frame, field by field. *)
Lemma effect_accepted gap hdr payload crc_raw w3 v :
  effect gap (Accepted hdr payload crc_raw w3) v
  = mkLocals (total v + Z.of_nat (length (samples_of payload)))
             (bad_crc v)
             (seq_errors v + (if spec_gap (last_seq v) (seq_of hdr) then 1 else 0))
             (Some (seq_of hdr))
             (csv v ++ rows_from (total v) (flag_of gap (gap_of gap hdr) v)
                                 (samples_of payload)).
Proof.
  cbn [effect]. rewrite deliver_spec, track_seq_spec. reflexivity.
Qed.

Lemma last_cons_default {A} (l : list A) : forall x d d',
  last (x :: l) d = last (x :: l) d'.
Proof.
  induction l as [|y l IH]; intros x d d'; [reflexivity|].
  change (last (y :: l) d = last (y :: l) d'). apply IH.
Qed.

(** The counters after a sequence of verdicts. *)
Lemma effects_counters gap vds : forall v,
  let v' := fold_left (fun v vd => effect gap vd v) vds v in
  seq_errors v' = seq_errors v + spec_gaps (last_seq v) (accepted_seqs vds)
  /\ bad_crc v' = bad_crc v + corrupt_count vds
  /\ last_seq v' = last (map Some (accepted_seqs vds)) (last_seq v).
Proof.
  induction vds as [|vd vds IH]; intros v; cbn [fold_left].
  - cbn. repeat split; lia.
  - specialize (IH (effect gap vd v)). cbv zeta in *.
    destruct IH as (H1 & H2 & H3). rewrite H1, H2, H3.
    destruct vd as [w'|hdr w1|hdr p c w3|hdr p c w3];
      cbn [accepted_seqs corrupt_count spec_gaps map];
      try (cbn [effect count_bad_crc seq_errors bad_crc last_seq];
           repeat split; lia).
    rewrite effect_accepted. cbn [seq_errors bad_crc last_seq].
    repeat split; try lia.
    destruct (accepted_seqs vds) as [|z l]; [reflexivity|].
    cbn [map]. change (last (Some (seq_of hdr) :: Some z :: map Some l) (last_seq v))
      with (last (Some z :: map Some l) (last_seq v)).
    apply last_cons_default.
Qed.

End SerialFacts.

Module RPCFacts.
Import RPC.

Lemma hex_char_digit b :
  in_hex_chars b = true -> is_space b = false /\ exists n, hex_digit b = Some n.
Proof.
  destruct b; intros H; try discriminate H; split; try reflexivity; eexists; reflexivity.
Qed.

(** Under the guard of the [bytes] branch [bytes.fromhex] cannot raise: the
    [except ValueError] clause is dead, and the buffer is half as long. *)
Lemma fromhex_hex n : forall raw,
  length raw = (2 * n)%nat -> forallb in_hex_chars raw = true ->
  exists buf, fromhex raw = Some buf /\ length buf = n.
Proof.
  induction n as [|n IH]; intros raw Hlen Hall.
  - destruct raw; [|discriminate]. exists []. split; reflexivity.
  - destruct raw as [|c [|d raw]]; try (cbn in Hlen; lia).
    cbn [forallb] in Hall. apply andb_true_iff in Hall. destruct Hall as (Hc & Hall).
    apply andb_true_iff in Hall. destruct Hall as (Hd & Hall).
    destruct (hex_char_digit c Hc) as (Hsp & top & Htop).
    destruct (hex_char_digit d Hd) as (_ & bot & Hbot).
    destruct (IH raw) as (buf & Hbuf & Hl); [cbn in Hlen; lia|assumption|].
    cbn [fromhex]. rewrite Hsp, Htop, Hbot, Hbuf. cbn [option_map].
    eexists. split; [reflexivity|]. cbn. now rewrite Hl.
Qed.

(** What [bytes.fromhex] makes of two hexadecimal digits. *)
Lemma fromhex_pair c d rest :
  in_hex_chars c = true -> in_hex_chars d = true ->
  exists b hi lo,
    fromhex (c :: d :: rest) = option_map (cons b) (fromhex rest)
    /\ hex_digit c = Some hi /\ hex_digit d = Some lo
    /\ Byte.to_N b = (16 * hi + lo)%N.
Proof.
  intros Hc Hd.
  destruct (hex_char_digit c Hc) as (Hsp & hi & Hhi).
  destruct (hex_char_digit d Hd) as (_ & lo & Hlo).
  assert (Hr : forall x n, hex_digit x = Some n -> (n < 16)%N).
  { intros x n. unfold hex_digit.
    destruct ((48 <=? Byte.to_N x) && (Byte.to_N x <=? 57))%N eqn:E1;
      [|destruct ((97 <=? Byte.to_N x) && (Byte.to_N x <=? 102))%N eqn:E2;
        [|destruct ((65 <=? Byte.to_N x) && (Byte.to_N x <=? 70))%N eqn:E3]];
      intros H; try discriminate; injection H as <-;
      match goal with E : _ = true |- _ =>
        apply andb_true_iff in E; destruct E as (Ea & Eb);
        apply N.leb_le in Ea; apply N.leb_le in Eb end; lia. }
  pose proof (Hr c hi Hhi). pose proof (Hr d lo Hlo).
  exists (byte_of_N (hi * 16 + lo)), hi, lo.
  cbn [fromhex]. rewrite Hsp, Hhi, Hlo. repeat split.
  unfold byte_of_N.
  destruct (Byte.of_N (hi * 16 + lo)) as [b|] eqn:E.
  - apply Byte.to_of_N in E. lia.
  - apply Byte.of_N_None_iff in E. lia.
Qed.

Lemma looks_like_hex_spec raw :
  looks_like_hex raw = true <->
  raw <> [] /\ Nat.even (length raw) = true /\ forallb in_hex_chars raw = true.
Proof.
  unfold looks_like_hex. rewrite !andb_true_iff.
  destruct raw as [|b raw].
  - split; [intros ((H & _) & _); discriminate|intros (H & _); now elim H].
  - split; [intros ((_ & H1) & H2)|intros (_ & H1 & H2)]; repeat split;
      try assumption; discriminate.
Qed.

Lemma hex_or_raw_hex raw :
  looks_like_hex raw = true ->
  exists buf, fromhex raw = Some buf /\ hex_or_raw raw = buf
              /\ length raw = (2 * length buf)%nat.
Proof.
  intros H. unfold hex_or_raw. rewrite H.
  apply looks_like_hex_spec in H. destruct H as (_ & Hev & Hall).
  apply Nat.even_spec in Hev. destruct Hev as (n & Hn).
  destruct (fromhex_hex n raw Hn Hall) as (buf & Hb & Hl).
  exists buf. rewrite Hb. repeat split. lia.
Qed.

Lemma hex_or_raw_raw raw : looks_like_hex raw = false -> hex_or_raw raw = raw.
Proof. intros H. unfold hex_or_raw. now rewrite H. Qed.

Lemma trailer_unpack buf :
  (2 <= length buf)%nat -> unpack_H buf (length buf - 2) = Val (trailer buf).
Proof.
  intros H. rewrite SerialFacts.unpack_H_ok by lia. unfold trailer.
  rewrite firstn_all2; [reflexivity|]. rewrite length_skipn. lia.
Qed.

Lemma to_buf_hex raw :
  hex_text raw = true ->
  exists buf, fromhex raw = Some buf /\ length raw = (2 * length buf)%nat
    /\ (raw = [] \/ to_buf (PyBytes raw) = Some buf).
Proof.
  intros H. unfold hex_text in H. apply andb_true_iff in H. destruct H as (Hev & Hall).
  destruct raw as [|b raw'].
  - exists []. repeat split. now left.
  - set (raw := b :: raw') in *.
    assert (Hl : looks_like_hex raw = true).
    { apply looks_like_hex_spec. repeat split; try assumption. discriminate. }
    destruct (hex_or_raw_hex raw Hl) as (buf & Hf & Hh & Hlen).
    exists buf. repeat split; try assumption. right.
    unfold to_buf. cbn [truthy raw negb]. now f_equal.
Qed.

Lemma to_buf_raw raw :
  hex_text raw = false -> to_buf (PyBytes raw) = Some raw.
Proof.
  intros H. destruct raw as [|b raw']; [discriminate|].
  unfold to_buf. cbn [truthy negb]. f_equal. apply hex_or_raw_raw.
  destruct (looks_like_hex (b :: raw')) eqn:E; [|reflexivity].
  apply looks_like_hex_spec in E. destruct E as (_ & E1 & E2).
  unfold hex_text in H. rewrite E1, E2 in H. discriminate.
Qed.

End RPCFacts.

Module RPC_capture_facts.
Import RPC RPC_capture RPCFacts.

Lemma read_samples_ok_capture n : forall buf i,
  (6 + 2 * (i + n) <= length buf)%nat ->
  read_samples n buf i
  = Val (map (fun v => Z.land v 0x3FFF)
             (words16 (firstn (2 * n) (skipn (6 + i * 2) buf)))).
Proof.
  induction n as [|n IH]; intros buf i H.
  - reflexivity.
  - cbn [read_samples].
    rewrite SerialFacts.unpack_H_ok by lia. cbn [py_bind].
    rewrite IH by lia. cbn [py_bind].
    destruct (SerialFacts.skipn_cons2 buf (6 + i * 2) ltac:(lia)) as (a & b & Hs).
    rewrite Hs. replace (2 * S n)%nat with (S (S (2 * n))) by lia.
    replace (6 + S i * 2)%nat with (6 + i * 2 + 2)%nat by lia.
    reflexivity.
Qed.

(** [parse_buf] with every [unpack_from] resolved: it raises nothing, and
    returns the decoded frame exactly when the buffer is well formed. *)
Lemma parse_buf_spec_capture buf0 :
  parse_buf buf0
  = let buf := strip_overflow buf0 in
    if well_formed buf
    then Val (Some (seq_of buf), Some (samples_of buf))
    else Val (None, None).
Proof.
  unfold parse_buf, well_formed. cbv zeta.
  generalize (strip_overflow buf0). intros buf.
  destruct (Nat.ltb_spec (length buf) 8) as [Hlt|Hge].
  - destruct (Nat.leb_spec 8 (length buf)); [lia|reflexivity].
  - destruct (Nat.leb_spec 8 (length buf)); [|lia]. cbn [andb].
    rewrite SerialFacts.unpack_H_ok by (cbn; lia). cbn [py_bind].
    rewrite SerialFacts.unpack_I_ok by (cbn; lia). cbn [py_bind].
    change (skipn 0 buf) with buf. fold (count_of buf). fold (seq_of buf).
    destruct (Z.eqb_spec (Z.of_nat (length buf)) (6 + count_of buf * 2 + 2)) as [Hlen|Hlen];
      [|reflexivity].
    cbn [negb andb].
    rewrite trailer_unpack by lia. cbn [py_bind].
    destruct (crc16_ibm (drop_last2 buf) =? trailer buf); [|reflexivity].
    cbn [negb].
    rewrite read_samples_ok_capture by lia. reflexivity.
Qed.

Lemma samples_of_length_capture buf :
  well_formed buf = true -> Z.of_nat (length (samples_of buf)) = count_of buf.
Proof.
  unfold well_formed. rewrite !andb_true_iff. intros ((H8 & Hlen) & _).
  apply Nat.leb_le in H8. apply Z.eqb_eq in Hlen.
  unfold samples_of. rewrite length_map.
  rewrite (SerialFacts.words16_length _ (Z.to_nat (count_of buf))).
  - lia.
  - rewrite length_firstn, length_skipn. lia.
Qed.

(** [parse_frame] returns either both fields or none. *)
Lemma parse_frame_cases_capture resp :
  parse_frame resp = Val (None, None)
  \/ exists buf0, to_buf resp = Some buf0
       /\ well_formed (strip_overflow buf0) = true
       /\ parse_frame resp
          = Val (Some (seq_of (strip_overflow buf0)),
                 Some (samples_of (strip_overflow buf0))).
Proof.
  unfold parse_frame. destruct (to_buf resp) as [buf0|]; [|left; reflexivity].
  rewrite parse_buf_spec_capture. cbv zeta.
  destruct (well_formed (strip_overflow buf0)) eqn:Hwf; [right|left; reflexivity].
  exists buf0. repeat split. assumption.
Qed.

Lemma write_samples_spec_capture samples : forall v,
  write_samples samples v
  = mkLocals (total v + Z.of_nat (length samples)) (bad v) (empty v) (last_seq v)
             (seq_errors v)
             (csv v ++ combine (map (fun i => total v + Z.of_nat i) (seq 0 (length samples)))
                               samples).
Proof.
  induction samples as [|x samples IH]; intros v.
  - destruct v. cbn. rewrite app_nil_r. f_equal. lia.
  - cbn [write_samples]. rewrite IH. cbn [total bad empty last_seq seq_errors csv].
    rewrite <- app_assoc. cbn [length seq map combine app].
    f_equal; [lia|]. f_equal. f_equal; [f_equal; lia|].
    f_equal. rewrite <- seq_shift, map_map. apply map_ext. intros i. lia.
Qed.

(** One answer of the bridge: rejected and counted in [empty], or accepted. *)
Lemma on_response_cases v resp :
  (parse_frame resp = Val (None, None)
   /\ on_response v resp
      = Val (mkLocals (total v) (bad v) (empty v + 1) (last_seq v) (seq_errors v) (csv v)))
  \/ (exists seq samples,
        parse_frame resp = Val (Some seq, Some samples)
        /\ on_response v resp
           = Val (write_samples samples
                    (mkLocals (total v) (bad v) (empty v) (Some seq)
                       (snd (track_seq seq (last_seq v) (seq_errors v))) (csv v)))).
Proof.
  unfold on_response.
  destruct (parse_frame_cases_capture resp) as [H|(buf0 & _ & _ & H)]; rewrite H; cbn [py_bind].
  - left. split; reflexivity.
  - right. eexists; eexists. split; reflexivity.
Qed.

(** The counters of a whole run: every answer is either accepted or counted
    in [empty]; [bad] never moves. *)
Lemma capture_loop_counters resps : forall v,
  exists v', capture_loop resps v = Val v'
    /\ seq_errors v' = seq_errors v + spec_gaps (last_seq v) (accepted_seqs resps)
    /\ last_seq v' = last (map Some (accepted_seqs resps)) (last_seq v)
    /\ bad v' = bad v
    /\ empty v' = empty v + Z.of_nat (length resps)
                  - Z.of_nat (length (accepted_seqs resps)).
Proof.
  induction resps as [|resp resps IH]; intros v.
  - exists v. cbn. repeat split; lia.
  - cbn [capture_loop accepted_seqs].
    destruct (on_response_cases v resp) as [(Hp & ->)|(seq & samples & Hp & ->)];
      rewrite Hp; cbn [py_bind].
    + destruct (IH (mkLocals (total v) (bad v) (empty v + 1) (last_seq v)
                      (seq_errors v) (csv v))) as (v' & -> & H1 & H2 & H3 & H4).
      exists v'. cbn [seq_errors last_seq bad empty] in *.
      split; [reflexivity|]. repeat split; try assumption. cbn [length]. lia.
    + rewrite write_samples_spec_capture. cbn [total bad empty last_seq seq_errors csv].
      rewrite SerialFacts.track_seq_spec. cbn [snd].
      match goal with |- context [capture_loop resps ?u] =>
        destruct (IH u) as (v' & -> & H1 & H2 & H3 & H4) end.
      exists v'. cbn [seq_errors last_seq bad empty] in *.
      split; [reflexivity|]. cbn [spec_gaps map length].
      repeat split; try lia.
      rewrite H2. destruct (accepted_seqs resps) as [|z l]; [reflexivity|].
      cbn [map]. symmetry.
      change (last (Some seq :: Some z :: map Some l) (last_seq v))
        with (last (Some z :: map Some l) (last_seq v)).
      apply SerialFacts.last_cons_default.
Qed.

Lemma strip_overflow_length_capture buf :
  (length buf - 1 <= length (strip_overflow buf) <= length buf)%nat.
Proof.
  unfold strip_overflow. destruct buf as [|b rest]; [cbn; lia|].
  destruct (b2z b =? 33); cbn; lia.
Qed.

Lemma well_formed_length_capture buf :
  well_formed buf = true ->
  Z.of_nat (length buf) = 8 + 2 * Z.of_nat (length (samples_of buf)).
Proof.
  intros H. rewrite (samples_of_length_capture buf H).
  unfold well_formed in H. rewrite !andb_true_iff in H. destruct H as ((_ & H) & _).
  apply Z.eqb_eq in H. lia.
Qed.

(** A buffer and its hexadecimal reading cannot both be frames with the
    same samples: they differ in length. *)
Lemma hex_reading_differs_capture raw buf seq samples :
  length raw = (2 * length buf)%nat ->
  parse_buf raw = Val (Some seq, Some samples) ->
  parse_buf buf <> parse_buf raw.
Proof.
  intros Hlen Hraw Heq. rewrite Hraw in Heq.
  rewrite parse_buf_spec_capture in Hraw, Heq. cbv zeta in *.
  destruct (well_formed (strip_overflow raw)) eqn:Hw1; [|discriminate].
  destruct (well_formed (strip_overflow buf)) eqn:Hw2; [|discriminate].
  apply well_formed_length_capture in Hw1, Hw2.
  injection Hraw as _ Hs1. injection Heq as _ Hs2.
  rewrite Hs1 in Hw1. rewrite Hs2 in Hw2.
  pose proof (strip_overflow_length_capture raw). pose proof (strip_overflow_length_capture buf). lia.
Qed.

End RPC_capture_facts.

Module RPC_sample_facts.
Import RPC RPC_sample_csv RPCFacts.

Lemma lor_bytes lo hi :
  0 <= lo < 256 -> 0 <= hi -> Z.lor lo (Z.shiftl hi 8) = lo + 256 * hi.
Proof.
  intros Hlo Hhi.
  assert (Hdisj : Z.land lo (Z.shiftl hi 8) = 0).
  { apply Z.bits_inj'. intros n Hn. rewrite Z.land_spec, Z.bits_0.
    destruct (Z.lt_ge_cases n 8) as [Hlt|Hge].
    - rewrite Z.shiftl_spec_low by lia. apply andb_false_r.
    - destruct (Z.eq_dec lo 0) as [->|Hnz]; [now rewrite Z.bits_0|].
      rewrite (Z.bits_above_log2 lo n); [reflexivity|lia|].
      apply Z.lt_le_trans with 8; [|assumption].
      apply Z.log2_lt_pow2; lia. }
  pose proof (Z.add_lor_land lo (Z.shiftl hi 8)) as H.
  rewrite Hdisj, Z.add_0_r in H. rewrite H.
  rewrite Z.shiftl_mul_pow2 by lia. change (2 ^ 8) with 256. lia.
Qed.

Lemma skipn_cons (buf : bytes) : forall off,
  (off < length buf)%nat ->
  exists a, skipn off buf = a :: skipn (S off) buf /\ nth_error buf off = Some a.
Proof.
  induction buf as [|x buf IH]; intros off H; cbn in H; [lia|].
  destruct off as [|off].
  - exists x. split; reflexivity.
  - destruct (IH off ltac:(lia)) as (a & Hs & Hn). exists a. split; assumption.
Qed.

Lemma index_ok buf i b : nth_error buf i = Some b -> index buf i = Val (b2z b).
Proof. intros H. unfold index. now rewrite H. Qed.

Lemma read_samples_ok_stamped n : forall buf off t,
  (off + 3 * n <= length buf)%nat ->
  read_samples n buf off t = Val (triples (firstn (3 * n) (skipn off buf)) t).
Proof.
  induction n as [|n IH]; intros buf off t H.
  - reflexivity.
  - cbn [read_samples].
    rewrite SerialFacts.unpack_H_ok by lia. cbn [py_bind].
    destruct (skipn_cons buf off ltac:(lia)) as (lo & Hs0 & _).
    destruct (skipn_cons buf (S off) ltac:(lia)) as (hi & Hs1 & _).
    destruct (skipn_cons buf (S (S off)) ltac:(lia)) as (dt & Hs2 & Hn2).
    replace (off + 2)%nat with (S (S off)) by lia.
    rewrite (index_ok _ _ _ Hn2). cbn [py_bind].
    replace (S (S off) + 1)%nat with (S (S (S off))) by lia.
    rewrite IH by lia. cbn [py_bind].
    rewrite Hs0, Hs1, Hs2.
    replace (3 * S n)%nat with (S (S (S (3 * n)))) by lia.
    reflexivity.
Qed.

Lemma trailer_lor buf :
  (2 <= length buf)%nat ->
  exists lo hi, index_back buf 2 = Val lo /\ index_back buf 1 = Val hi
                /\ Z.lor lo (Z.shiftl hi 8) = trailer buf.
Proof.
  intros H. unfold index_back, trailer.
  destruct (Nat.leb_spec 2 (length buf)); [|lia].
  destruct (Nat.leb_spec 1 (length buf)); [|lia].
  destruct (skipn_cons buf (length buf - 2) ltac:(lia)) as (a & Hs0 & Hn0).
  destruct (skipn_cons buf (length buf - 1) ltac:(lia)) as (b & Hs1 & Hn1).
  replace (S (length buf - 2)) with (length buf - 1)%nat in Hs0 by lia.
  replace (S (length buf - 1)) with (length buf) in Hs1 by lia.
  rewrite skipn_all in Hs1.
  exists (b2z a), (b2z b).
  rewrite (index_ok _ _ _ Hn0), (index_ok _ _ _ Hn1), Hs0, Hs1.
  repeat split. cbn [le_uint].
  rewrite lor_bytes; [lia|apply SerialFacts.b2z_range|apply SerialFacts.b2z_range].
Qed.

(** [parse_buf] with every access resolved: it raises nothing, and returns
    samples exactly when the buffer is well formed. *)
Lemma parse_buf_spec_stamped buf0 :
  parse_buf buf0
  = let buf := strip_overflow buf0 in
    if well_formed buf then Val (decoded buf) else Val ([], []).
Proof.
  unfold parse_buf, well_formed. cbv zeta.
  generalize (strip_overflow buf0). intros buf.
  destruct (Nat.ltb_spec (length buf) 7) as [Hlt|Hge].
  - destruct (Nat.leb_spec 7 (length buf)); [lia|reflexivity].
  - destruct (Nat.leb_spec 7 (length buf)); [|lia]. cbn [andb].
    destruct buf as [|b0 buf']; [cbn in Hge; lia|].
    set (buf := b0 :: buf') in *.
    assert (Hc : index buf 0 = Val (count_of buf)).
    { unfold count_of. cbn. f_equal. lia. }
    rewrite Hc. cbn [py_bind].
    assert (Hmax : (count_of buf >? MAX_SAMPLES) = false).
    { unfold count_of, MAX_SAMPLES. cbn [buf firstn le_uint].
      pose proof (SerialFacts.b2z_range b0). lia. }
    rewrite Hmax, orb_false_r.
    destruct (count_of buf =? 0) eqn:Hz; [reflexivity|]. cbn [negb andb].
    destruct (Z.eqb_spec (Z.of_nat (length buf)) (1 + 4 + count_of buf * 3 + 2)) as [Hlen|Hlen];
      [|reflexivity].
    cbn [negb andb].
    destruct (trailer_lor buf ltac:(lia)) as (lo & hi & Hlo & Hhi & Hlor).
    rewrite Hlo. cbn [py_bind]. rewrite Hhi. cbn [py_bind]. rewrite Hlor.
    destruct (crc16_ibm (drop_last2 buf) =? trailer buf); [|reflexivity].
    cbn [negb].
    rewrite SerialFacts.unpack_I_ok by lia. cbn [py_bind].
    rewrite read_samples_ok_stamped by lia. reflexivity.
Qed.

Lemma triples_length n : forall bs t,
  length bs = (3 * n)%nat ->
  length (fst (triples bs t)) = n /\ length (snd (triples bs t)) = n.
Proof.
  induction n as [|n IH]; intros bs t H.
  - destruct bs; [split; reflexivity|cbn in H; lia].
  - destruct bs as [|a [|b [|c bs]]]; cbn in H; try lia.
    cbn [triples fst snd length]. destruct (IH bs (t + b2z c) ltac:(lia)) as (H1 & H2).
    split; f_equal; assumption.
Qed.

Lemma decoded_length buf :
  well_formed buf = true ->
  Z.of_nat (length (fst (decoded buf))) = count_of buf
  /\ length (snd (decoded buf)) = length (fst (decoded buf))
  /\ 1 <= count_of buf.
Proof.
  unfold well_formed. rewrite !andb_true_iff. intros (((H7 & Hz) & Hlen) & _).
  apply Nat.leb_le in H7. apply Z.eqb_eq in Hlen.
  apply negb_true_iff, Z.eqb_neq in Hz.
  pose proof (SerialFacts.le_uint_nonneg (firstn 1 buf)) as Hnn. fold (count_of buf) in Hnn.
  unfold decoded.
  destruct (triples_length (Z.to_nat (count_of buf))
              (firstn (3 * Z.to_nat (count_of buf)) (skipn 5 buf)) (t0_of buf)) as (H1 & H2).
  { rewrite length_firstn, length_skipn. lia. }
  rewrite H1, H2. repeat split; lia.
Qed.

Lemma parse_frame_cases_stamped resp :
  parse_frame resp = Val ([], [])
  \/ exists buf0, to_buf resp = Some buf0
       /\ well_formed (strip_overflow buf0) = true
       /\ parse_frame resp = Val (decoded (strip_overflow buf0)).
Proof.
  unfold parse_frame. destruct (to_buf resp) as [buf0|]; [|left; reflexivity].
  rewrite parse_buf_spec_stamped. cbv zeta.
  destruct (well_formed (strip_overflow buf0)) eqn:Hwf; [right|left; reflexivity].
  exists buf0. repeat split. assumption.
Qed.

Lemma strip_overflow_length_stamped buf :
  (length buf - 1 <= length (strip_overflow buf) <= length buf)%nat.
Proof.
  unfold strip_overflow. destruct buf as [|b rest]; [cbn; lia|].
  destruct ((b2z b =? 33) && (1 <? length (b :: rest))%nat); cbn; lia.
Qed.

Lemma well_formed_length_stamped buf :
  well_formed buf = true ->
  Z.of_nat (length buf) = 7 + 3 * Z.of_nat (length (fst (decoded buf))).
Proof.
  intros H. destruct (decoded_length buf H) as (-> & _).
  unfold well_formed in H. rewrite !andb_true_iff in H. destruct H as ((_ & H) & _).
  apply Z.eqb_eq in H. lia.
Qed.

Lemma hex_reading_differs_stamped raw buf sample samples timestamps :
  length raw = (2 * length buf)%nat ->
  parse_buf raw = Val (sample :: samples, timestamps) ->
  parse_buf buf <> parse_buf raw.
Proof.
  intros Hlen Hraw Heq. rewrite Hraw in Heq.
  rewrite parse_buf_spec_stamped in Hraw, Heq. cbv zeta in *.
  destruct (well_formed (strip_overflow raw)) eqn:Hw1; [|discriminate].
  destruct (well_formed (strip_overflow buf)) eqn:Hw2; [|discriminate].
  apply well_formed_length_stamped in Hw1, Hw2.
  injection Hraw as Hs1. injection Heq as Hs2.
  rewrite Hs1 in Hw1. rewrite Hs2 in Hw2. cbn [fst] in *.
  pose proof (strip_overflow_length_stamped raw). pose proof (strip_overflow_length_stamped buf). lia.
Qed.

Lemma write_samples_bad pairs : forall v, bad (write_samples pairs v) = bad v.
Proof.
  induction pairs as [|[raw ts] pairs IH]; intros v; [reflexivity|].
  cbn [write_samples]. now rewrite IH.
Qed.

(** [bad] counts the answers without samples, whatever the reason. *)
Lemma capture_loop_bad resps : forall v,
  exists v', capture_loop resps v = Val v'
    /\ bad v' = bad v + Z.of_nat (length (filter rejected resps)).
Proof.
  induction resps as [|resp resps IH]; intros v.
  - exists v. cbn. split; [reflexivity|lia].
  - cbn [capture_loop filter]. unfold on_response.
    destruct (parse_frame_cases_stamped resp) as [H|(buf0 & _ & Hwf & H)].
    + assert (Hrej : rejected resp = true) by (unfold rejected; now rewrite H).
      rewrite H, Hrej. cbn [py_bind].
      destruct (IH (mkLocals (total v) (bad v + 1) (csv v))) as (v' & -> & Hb).
      exists v'. split; [reflexivity|]. cbn [bad length] in *. lia.
    + destruct (decoded_length _ Hwf) as (Hn & _ & H1).
      destruct (decoded (strip_overflow buf0)) as [[|sample samples] timestamps];
        [cbn [fst length] in Hn; lia|].
      assert (Hrej : rejected resp = false) by (unfold rejected; now rewrite H).
      rewrite H, Hrej. cbn [py_bind].
      match goal with |- context [capture_loop resps ?u] =>
        destruct (IH u) as (v' & -> & Hb) end.
      exists v'. split; [reflexivity|]. now rewrite Hb, write_samples_bad.
Qed.

End RPC_sample_facts.

(** Masking is reduction modulo a power of two, also on the negative values
    of a signed container. *)
Lemma land_0xFFF s : Z.land s 0xFFF = s mod 4096.
Proof. change 0xFFF with (Z.ones 12). now rewrite Z.land_ones by lia. Qed.

Lemma land_0x3FFF s : Z.land s 0x3FFF = s mod 16384.
Proof. change 0x3FFF with (Z.ones 14). now rewrite Z.land_ones by lia. Qed.

Lemma to_int16_mod u : to_int16 u mod 4096 = u mod 4096.
Proof.
  unfold to_int16. destruct (u <? 32768); [reflexivity|].
  replace (u - 65536) with (u + (-16) * 4096) by lia. apply Z.mod_add. lia.
Qed.

(** * Properties of the specification *)

Import Serial.

(** C4 -- Sequence gaps.  The tracker of the three scripts that carry a
    sequence number reports a gap exactly when a frame was accepted before
    and the new number is not [(last_accepted + 1) mod 2^32]: over a whole
    session the counter [seq_errors] is the number of such gaps along the
    accepted frames.  The first accepted frame reports none, nor does 0
    after 0xFFFFFFFF; the numbers 5, 6, 8 report none after 6 and one
    after 8. *)
Theorem sequence_gap_iff :
  (forall seq last errors,
      track_seq seq last errors
      = (Some seq, errors + (if spec_gap last seq then 1 else 0)))
  /\ (forall duration w,
        seq_errors (vars (snd (ADC_csv_gather.run_capture duration w)))
        = spec_gaps None (accepted_seqs (session 6 512 false duration w)))
  /\ (forall duration w,
        seq_errors (vars (snd (ADC_readcsv_reducedclipping.run_capture duration w)))
        = spec_gaps None (accepted_seqs (session 10 16384 true duration w)))
  /\ (forall resps,
        exists v, RPC_capture.run_capture resps = Val v
          /\ RPC_capture.seq_errors v
             = spec_gaps None (RPC_capture.accepted_seqs resps))
  /\ (forall seq, spec_gap None seq = false)
  /\ spec_gap (Some 0xFFFFFFFF) 0 = false
  /\ spec_gaps None [5; 6] = 0
  /\ spec_gaps None [5; 6; 8] = 1
  /\ spec_gaps None [0xFFFFFFFF; 0] = 0.
Proof.
  split; [exact SerialFacts.track_seq_spec|].
  split.
  { intros duration w. unfold ADC_csv_gather.run_capture.
    rewrite SerialFacts.run_capture_trace by (cbv; first [lia | discriminate]).
    now destruct (SerialFacts.effects_counters false
                    (session 6 512 false duration w) fresh) as (H & _). }
  split.
  { intros duration w. unfold ADC_readcsv_reducedclipping.run_capture.
    rewrite SerialFacts.run_capture_trace by (cbv; lia).
    now destruct (SerialFacts.effects_counters true
                    (session 10 16384 true duration w) fresh) as (H & _). }
  split.
  { intros resps.
    destruct (RPC_capture_facts.capture_loop_counters resps RPC_capture.fresh)
      as (v & Hv & H & _).
    exists v. split; assumption. }
  repeat split.
Qed.

(** C6 -- SequenceState.  [last_seq] is assigned the number of a frame
    exactly when the frame is accepted, gap or no gap; every other outcome
    of an iteration (stalled read, malformed header, checksum mismatch; in
    the RPC loop any rejected answer) leaves it as it was.  At the end of a
    session it is the number of the last accepted frame, and [None] only if
    no frame was accepted. *)
Theorem last_seq_tracks_acceptance :
  (forall w v,
      exists s', final (ADC_csv_gather.frame_body (mkState w v)) = Some s'
        /\ last_seq (vars s')
           = match attempt 6 512 w with
             | Accepted hdr _ _ _ => Some (seq_of hdr)
             | _ => last_seq v
             end)
  /\ (forall w v,
        exists s', final (ADC_readcsv_reducedclipping.frame_body (mkState w v)) = Some s'
          /\ last_seq (vars s')
             = match attempt 10 16384 w with
               | Accepted hdr _ _ _ => Some (seq_of hdr)
               | _ => last_seq v
               end)
  /\ (forall v resp,
        exists v', RPC_capture.on_response v resp = Val v'
          /\ RPC_capture.last_seq v'
             = match RPC_capture.parse_frame resp with
               | Val (Some seq, Some _) => Some seq
               | _ => RPC_capture.last_seq v
               end)
  /\ (forall duration w,
        last_seq (vars (snd (ADC_csv_gather.run_capture duration w)))
        = last (map Some (accepted_seqs (session 6 512 false duration w))) None)
  /\ (forall duration w,
        last_seq (vars (snd (ADC_readcsv_reducedclipping.run_capture duration w)))
        = last (map Some (accepted_seqs (session 10 16384 true duration w))) None)
  /\ (forall resps,
        exists v, RPC_capture.run_capture resps = Val v
          /\ RPC_capture.last_seq v
             = last (map Some (RPC_capture.accepted_seqs resps)) None).
Proof.
  assert (Hstep : forall HDR FS gap, (6 <= HDR)%nat -> (gap = true -> (10 <= HDR)%nat) ->
            forall w v,
              exists s', final (frame_body HDR FS gap (mkState w v)) = Some s'
                /\ last_seq (vars s')
                   = match attempt HDR FS w with
                     | Accepted hdr _ _ _ => Some (seq_of hdr)
                     | _ => last_seq v
                     end).
  { intros HDR FS gap H6 H10 w v.
    destruct (SerialFacts.frame_body_final HDR FS gap H6 H10 w v) as (s' & Hf & Hv).
    exists s'. split; [assumption|]. rewrite Hv.
    destruct (attempt HDR FS w); try reflexivity.
    now rewrite SerialFacts.effect_accepted. }
  split; [apply Hstep; cbv; first [lia | discriminate]|].
  split; [apply Hstep; cbv; lia|].
  split.
  { intros v resp.
    destruct (RPC_capture_facts.on_response_cases v resp)
      as [(Hp & ->)|(seq & samples & Hp & ->)]; rewrite Hp; eexists; split;
      try reflexivity.
    now rewrite RPC_capture_facts.write_samples_spec_capture. }
  split.
  { intros duration w. unfold ADC_csv_gather.run_capture.
    rewrite SerialFacts.run_capture_trace by (cbv; first [lia | discriminate]).
    now destruct (SerialFacts.effects_counters false
                    (session 6 512 false duration w) fresh) as (_ & _ & H). }
  split.
  { intros duration w. unfold ADC_readcsv_reducedclipping.run_capture.
    rewrite SerialFacts.run_capture_trace by (cbv; lia).
    now destruct (SerialFacts.effects_counters true
                    (session 10 16384 true duration w) fresh) as (_ & _ & H). }
  intros resps.
  destruct (RPC_capture_facts.capture_loop_counters resps RPC_capture.fresh)
    as (v & Hv & _ & H & _).
  exists v. split; assumption.
Qed.


(** C1 -- The checksum gate.  A serial iteration writes rows only if the
    bytes it has read from the wire -- a header, the payload the header
    announces, two checksum bytes -- satisfy
    [crc16 (MAGIC_B ++ hdr ++ payload) = le_uint crc_raw]; an RPC parser
    returns samples only if the buffer it parses (the answer once decoded
    and stripped of the overflow marker) satisfies
    [crc16_ibm buf[:-2] = le_uint buf[-2:]].  [crc16] is CRC-16/CCITT-FALSE
    and [crc16_ibm] is CRC-16/ARC: they start from 0xFFFF and 0, and give
    the catalogue check values 0x29B1 and 0xBB3D on "123456789". *)
Theorem crc_gate :
  (forall w v s',
      final (ADC_csv_gather.frame_body (mkState w v)) = Some s' ->
      csv (vars s') <> csv v ->
      exists hdr payload crc_raw rest,
        map snd (wire w) = hdr ++ payload ++ crc_raw ++ rest
        /\ length hdr = 6%nat
        /\ length payload = Z.to_nat (nsamp_of hdr * 2)
        /\ length crc_raw = 2%nat
        /\ crc16 (MAGIC_B ++ hdr ++ payload) = le_uint crc_raw)
  /\ (forall w v s',
        final (ADC_readcsv_reducedclipping.frame_body (mkState w v)) = Some s' ->
        csv (vars s') <> csv v ->
        exists hdr payload crc_raw rest,
          map snd (wire w) = hdr ++ payload ++ crc_raw ++ rest
          /\ length hdr = 10%nat
          /\ length payload = Z.to_nat (nsamp_of hdr * 2)
          /\ length crc_raw = 2%nat
          /\ crc16 (MAGIC_B ++ hdr ++ payload) = le_uint crc_raw)
  /\ (forall resp seq samples,
        RPC_capture.parse_frame resp = Val (Some seq, Some samples) ->
        exists buf0,
          RPC.to_buf resp = Some buf0
          /\ crc16_ibm (drop_last2 (RPC_capture.strip_overflow buf0))
             = trailer (RPC_capture.strip_overflow buf0))
  /\ (forall resp sample samples timestamps,
        RPC_sample_csv.parse_frame resp = Val (sample :: samples, timestamps) ->
        exists buf0,
          RPC.to_buf resp = Some buf0
          /\ crc16_ibm (drop_last2 (RPC_sample_csv.strip_overflow buf0))
             = trailer (RPC_sample_csv.strip_overflow buf0))
  /\ crc16 [] = 0xFFFF /\ crc16 check_input = 0x29B1
  /\ crc16_ibm [] = 0 /\ crc16_ibm check_input = 0xBB3D.
Proof.
  split.
  { intros w v s'. unfold ADC_csv_gather.frame_body.
    apply SerialFacts.frame_body_crc_gate; [lia|discriminate]. }
  split.
  { intros w v s'. unfold ADC_readcsv_reducedclipping.frame_body.
    apply SerialFacts.frame_body_crc_gate; lia. }
  split.
  { intros resp seq samples H.
    destruct (RPC_capture_facts.parse_frame_cases_capture resp) as [H0|(buf0 & Hb & Hwf & _)];
      [congruence|].
    exists buf0. split; [assumption|].
    unfold RPC_capture.well_formed in Hwf.
    apply andb_true_iff in Hwf. destruct Hwf as (_ & Hcrc). now apply Z.eqb_eq. }
  split.
  { intros resp sample samples timestamps H.
    destruct (RPC_sample_facts.parse_frame_cases_stamped resp) as [H0|(buf0 & Hb & Hwf & _)];
      [congruence|].
    exists buf0. split; [assumption|].
    unfold RPC_sample_csv.well_formed in Hwf.
    apply andb_true_iff in Hwf. destruct Hwf as (_ & Hcrc). now apply Z.eqb_eq. }
  repeat split; vm_compute; reflexivity.
Qed.

(** The gate at work on [frame_5], [blob_7] and [stamped_1]. *)
Lemma crc_gate_witness :
  (exists hdr payload crc_raw rest,
      frame_5 = hdr ++ payload ++ crc_raw ++ rest
      /\ length hdr = 6%nat
      /\ length payload = Z.to_nat (nsamp_of hdr * 2)
      /\ length crc_raw = 2%nat
      /\ crc16 (MAGIC_B ++ hdr ++ payload) = le_uint crc_raw)
  /\ (exists buf0,
        RPC.to_buf (RPC.PyBytes blob_7) = Some buf0
        /\ crc16_ibm (drop_last2 (RPC_capture.strip_overflow buf0))
           = trailer (RPC_capture.strip_overflow buf0))
  /\ (exists buf0,
        RPC.to_buf (RPC.PyBytes stamped_1) = Some buf0
        /\ crc16_ibm (drop_last2 (RPC_sample_csv.strip_overflow buf0))
           = trailer (RPC_sample_csv.strip_overflow buf0)).
Proof.
  split; [|split].
  - eapply (proj1 crc_gate (mkWorld 0 (instant frame_5)) fresh).
    + cbv. reflexivity.
    + cbv. discriminate.
  - eapply (proj1 (proj2 (proj2 crc_gate)) (RPC.PyBytes blob_7)).
    vm_compute. reflexivity.
  - eapply (proj1 (proj2 (proj2 (proj2 crc_gate))) (RPC.PyBytes stamped_1)).
    vm_compute. reflexivity.
Defined.

(** C10 (as stated) fails for a frame of odd length: [stamped_hexodd] is a
    valid RPC_sample_csv.py frame of 151 bytes, each the code of a
    hexadecimal digit; the guard [len(raw) % 2 == 0] is false, the bytes are
    parsed as they are, and the frame is accepted with its 48 samples. *)
Lemma odd_hex_frame_parsed_raw :
  forallb RPC.in_hex_chars stamped_hexodd = true
  /\ length stamped_hexodd = 151%nat
  /\ RPC_sample_csv.parse_frame (RPC.PyBytes stamped_hexodd)
     = RPC_sample_csv.parse_buf stamped_hexodd
  /\ RPC_sample_csv.parse_frame (RPC.PyBytes stamped_hexodd)
     = Val (repeat 0x3030 47 ++ [0x3436],
            map (fun k => 0x30303030 + 0x30 * Z.of_nat k) (seq 1 48)).
Proof.
  repeat split; vm_compute; reflexivity.
Qed.

(** C10 (amended) -- Hexadecimal text in a [bytes] answer.  A [bytes]
    answer of even length all of whose bytes are codes of hexadecimal digits
    is decoded by [bytes.fromhex] (which cannot fail on it: two digits give
    one byte, sixteen times the first plus the second) and the decoded
    buffer, half as long, is what both parsers parse; any other [bytes]
    answer, one of odd length among them, is parsed as it is.  So a binary
    frame of even length made of such bytes only is never parsed as the
    frame it is: where the raw bytes would be accepted, the answer of
    [parse_frame] differs from the parse of the raw bytes. *)
Theorem hex_text_is_reinterpreted :
  (forall raw,
      RPC.hex_text raw = true ->
      exists buf,
        RPC.fromhex raw = Some buf
        /\ length raw = (2 * length buf)%nat
        /\ RPC_capture.parse_frame (RPC.PyBytes raw) = RPC_capture.parse_buf buf
        /\ RPC_sample_csv.parse_frame (RPC.PyBytes raw) = RPC_sample_csv.parse_buf buf)
  /\ (forall raw,
        RPC.hex_text raw = false ->
        RPC_capture.parse_frame (RPC.PyBytes raw) = RPC_capture.parse_buf raw
        /\ RPC_sample_csv.parse_frame (RPC.PyBytes raw) = RPC_sample_csv.parse_buf raw)
  /\ (forall raw seq samples,
        RPC.hex_text raw = true ->
        RPC_capture.parse_buf raw = Val (Some seq, Some samples) ->
        RPC_capture.parse_frame (RPC.PyBytes raw) <> RPC_capture.parse_buf raw)
  /\ (forall raw sample samples timestamps,
        RPC.hex_text raw = true ->
        RPC_sample_csv.parse_buf raw = Val (sample :: samples, timestamps) ->
        RPC_sample_csv.parse_frame (RPC.PyBytes raw) <> RPC_sample_csv.parse_buf raw)
  /\ (forall raw,
        Nat.even (length raw) = false ->
        RPC_capture.parse_frame (RPC.PyBytes raw) = RPC_capture.parse_buf raw
        /\ RPC_sample_csv.parse_frame (RPC.PyBytes raw) = RPC_sample_csv.parse_buf raw)
  /\ (forall c d rest,
        RPC.in_hex_chars c = true -> RPC.in_hex_chars d = true ->
        exists b hi lo,
          RPC.fromhex (c :: d :: rest) = option_map (cons b) (RPC.fromhex rest)
          /\ RPC.hex_digit c = Some hi /\ RPC.hex_digit d = Some lo
          /\ Byte.to_N b = (16 * hi + lo)%N)
  /\ RPC.fromhex hex_digits_text
     = Some [x01; x23; x45; x67; x89; xab; xcd; xef; xab; xcd; xef;
             x10; x32; x54; x76; x98; xba; xdc; xfe; xba; xdc; xfe]
  /\ RPC.to_buf (RPC.PyBytes blob_7_hex) = Some blob_7
  /\ RPC_capture.parse_frame (RPC.PyBytes blob_7_hex) = Val (Some 7, Some [0x3FFF; 0x1234])
  /\ RPC.to_buf (RPC.PyBytes stamped_1_hex) = Some stamped_1
  /\ RPC_sample_csv.parse_frame (RPC.PyBytes stamped_1_hex) = Val ([0xFFFF], [1003]).
Proof.
  assert (Hhex : forall raw, RPC.hex_text raw = true ->
            exists buf, RPC.fromhex raw = Some buf
              /\ length raw = (2 * length buf)%nat
              /\ RPC_capture.parse_frame (RPC.PyBytes raw) = RPC_capture.parse_buf buf
              /\ RPC_sample_csv.parse_frame (RPC.PyBytes raw) = RPC_sample_csv.parse_buf buf).
  { intros raw H.
    destruct (RPCFacts.to_buf_hex raw H) as (buf & Hf & Hlen & [->|Hb]).
    - exists buf. destruct buf; [|discriminate]. repeat split.
    - exists buf. unfold RPC_capture.parse_frame, RPC_sample_csv.parse_frame.
      rewrite Hb. repeat split; assumption. }
  assert (Hraw : forall raw, RPC.hex_text raw = false ->
            RPC_capture.parse_frame (RPC.PyBytes raw) = RPC_capture.parse_buf raw
            /\ RPC_sample_csv.parse_frame (RPC.PyBytes raw) = RPC_sample_csv.parse_buf raw).
  { intros raw H. unfold RPC_capture.parse_frame, RPC_sample_csv.parse_frame.
    rewrite (RPCFacts.to_buf_raw raw H). split; reflexivity. }
  split; [exact Hhex|].
  split; [exact Hraw|].
  split.
  { intros raw seq samples H Hp.
    destruct (Hhex raw H) as (buf & _ & Hlen & -> & _).
    exact (RPC_capture_facts.hex_reading_differs_capture raw buf seq samples Hlen Hp). }
  split.
  { intros raw sample samples timestamps H Hp.
    destruct (Hhex raw H) as (buf & _ & Hlen & _ & ->).
    exact (RPC_sample_facts.hex_reading_differs_stamped raw buf sample samples timestamps
             Hlen Hp). }
  split.
  { intros raw H. apply Hraw. unfold RPC.hex_text. now rewrite H. }
  split; [exact RPCFacts.fromhex_pair|].
  repeat split; vm_compute; reflexivity.
Qed.

(** [blob_7_hex] is parsed as [blob_7]; [blob_7] itself is parsed as it is;
    [stamped_hexlike], a valid binary frame of even length, is not parsed as
    such; [stamped_hexodd], of odd length, is. *)
Lemma hex_text_is_reinterpreted_witness :
  (exists buf,
      RPC.fromhex blob_7_hex = Some buf
      /\ length blob_7_hex = (2 * length buf)%nat
      /\ RPC_capture.parse_frame (RPC.PyBytes blob_7_hex) = RPC_capture.parse_buf buf
      /\ RPC_sample_csv.parse_frame (RPC.PyBytes blob_7_hex) = RPC_sample_csv.parse_buf buf)
  /\ (RPC_capture.parse_frame (RPC.PyBytes blob_7) = RPC_capture.parse_buf blob_7
      /\ RPC_sample_csv.parse_frame (RPC.PyBytes blob_7) = RPC_sample_csv.parse_buf blob_7)
  /\ RPC_sample_csv.parse_frame (RPC.PyBytes stamped_hexlike)
     <> RPC_sample_csv.parse_buf stamped_hexlike
  /\ (RPC_capture.parse_frame (RPC.PyBytes stamped_hexodd)
      = RPC_capture.parse_buf stamped_hexodd
      /\ RPC_sample_csv.parse_frame (RPC.PyBytes stamped_hexodd)
         = RPC_sample_csv.parse_buf stamped_hexodd).
Proof.
  split; [|split; [|split]].
  - apply (proj1 hex_text_is_reinterpreted blob_7_hex). vm_compute. reflexivity.
  - apply (proj1 (proj2 hex_text_is_reinterpreted) blob_7). vm_compute. reflexivity.
  - eapply (proj1 (proj2 (proj2 (proj2 hex_text_is_reinterpreted))) stamped_hexlike).
    + vm_compute. reflexivity.
    + vm_compute. reflexivity.
  - apply (proj1 (proj2 (proj2 (proj2 (proj2 hex_text_is_reinterpreted)))) stamped_hexodd).
    vm_compute. reflexivity.
Defined.

(** C9 (as stated) fails when the leading garbage holds the marker: [sync]
    locks on the false marker, the six bytes after it read as a header
    announcing two samples, the payload and checksum reads swallow the true
    marker and the head of [frame_5], the checksum fails, and the
    resynchronisation finds the marker of [frame_6] only.  Both frames are
    valid; the rows of [frame_5] are never written. *)
Lemma garbage_with_marker_loses_frame :
  frame_ok 6 512 frame_5 = true
  /\ frame_ok 6 512 frame_6 = true
  /\ ADC_csv_gather.run_capture 5
       (mkWorld 0 (instant (garbage_with_marker ++ MAGIC_B ++ frame_5
                            ++ MAGIC_B ++ frame_6)))
     = (TimedOut,
        mkState (mkWorld 1000 [])
                (mkLocals 2 1 0 (Some 6) [mkRow 0 291 None; mkRow 1 1 None])).
Proof.
  repeat split; vm_compute; reflexivity.
Qed.

(** C9 (amended) -- Resynchronisation.  The stream is made of garbage that
    does not hold the marker, the marker, a valid frame, the marker and a
    second valid frame; no byte keeps a read waiting for its timeout, the
    first marker is complete within the five seconds of the initial [sync]
    and the second within the duration of the session.  [run_capture] then
    skips the garbage and delivers both frames in order: the local variables
    at the end are those of two accepted frames, nothing else having been
    counted.  The session ends on the [TimeoutError] of the read that
    follows the second frame, one read timeout after the last byte. *)
Theorem resync_after_garbage :
  forall HDR FS gap (wg wm1 wf1 wm2 wf2 : list (N * byte)) duration t0,
    (6 <= HDR)%nat -> (gap = true -> (10 <= HDR)%nat) ->
    contains_magic (map snd wg) = false ->
    map snd wm1 = MAGIC_B ->
    frame_ok HDR FS (map snd wf1) = true ->
    map snd wm2 = MAGIC_B ->
    frame_ok HDR FS (map snd wf2) = true ->
    punctual (wg ++ wm1 ++ wf1 ++ wm2 ++ wf2) = true ->
    (span (wg ++ wm1) < 5000)%N ->
    (span (wf1 ++ wm2) < duration * 1000)%N ->
    run_capture HDR FS gap duration
      (mkWorld t0 (wg ++ wm1 ++ wf1 ++ wm2 ++ wf2))
    = (TimedOut,
       mkState (mkWorld (t0 + span (wg ++ wm1 ++ wf1 ++ wm2 ++ wf2) + READ_TIMEOUT) [])
         (deliver gap (header_of HDR (map snd wf2)) (payload_of HDR (map snd wf2))
            (deliver gap (header_of HDR (map snd wf1)) (payload_of HDR (map snd wf1))
               fresh))).
Proof.
  intros HDR FS gap wg wm1 wf1 wm2 wf2 duration t0 H6 H10 Hno Hm1 Hf1 Hm2 Hf2 Hp Hs Hd.
  rewrite !SerialFacts.punctual_app in Hp. rewrite !andb_true_iff in Hp.
  destruct Hp as (Hpg & Hpm1 & Hpf1 & Hpm2 & Hpf2).
  unfold run_capture.
  rewrite (SerialFacts.sync_punctual wg wm1 5000 t0 _ Hno Hm1)
    by (try assumption; rewrite SerialFacts.punctual_app; now rewrite Hpg, Hpm1).
  cbn [now wire port].
  set (t1 := (t0 + span (wg ++ wm1))%N).
  rewrite SerialFacts.span_app in Hd.
  assert (Hnow : (t1 <? t1 + duration * 1000)%N = true) by (apply N.ltb_lt; lia).
  assert (Hnow' : (t1 + span wf1 + span wm2 <? t1 + duration * 1000)%N = true)
    by (apply N.ltb_lt; lia).
  destruct (length (wf1 ++ wm2 ++ wf2)) as [|fuel] eqn:Hlen.
  { apply (f_equal (@length _)) in Hm2. rewrite length_map in Hm2.
    rewrite !length_app in Hlen. cbn in Hm2. lia. }
  rewrite (SerialFacts.capture_loop_unfold HDR FS gap). cbn [now]. rewrite Hnow.
  rewrite (SerialFacts.frame_body_attempt HDR FS gap H6 H10).
  rewrite (SerialFacts.attempt_punctual HDR FS wf1 t1 _ Hf1 Hpf1). cbn [carry_on].
  rewrite (SerialFacts.stay_framed_punctual wm2 _ _ _ Hm2 Hpm2).
  rewrite (SerialFacts.capture_loop_unfold HDR FS gap). cbn [now]. rewrite Hnow'.
  rewrite (SerialFacts.frame_body_attempt HDR FS gap H6 H10).
  rewrite <- (app_nil_r wf2) at 1.
  rewrite (SerialFacts.attempt_punctual HDR FS wf2 _ [] Hf2 Hpf2). cbn [carry_on].
  rewrite SerialFacts.stay_framed_silent.
  unfold t1. rewrite !SerialFacts.span_app. do 3 f_equal. lia.
Qed.

(** The theorem on [garbage], [frame_5] and [frame_6], the garbage coming
    in at 100 ms a byte and the frames at 2 ms a byte. *)
Lemma resync_after_garbage_witness :
  run_capture 6 512 false 5
    (mkWorld 0 (paced 100 garbage ++ paced 2 MAGIC_B ++ paced 2 frame_5
                ++ paced 2 MAGIC_B ++ paced 2 frame_6))
  = (TimedOut,
     mkState
       (mkWorld (0 + span (paced 100 garbage ++ paced 2 MAGIC_B ++ paced 2 frame_5
                           ++ paced 2 MAGIC_B ++ paced 2 frame_6) + READ_TIMEOUT) [])
       (deliver false (header_of 6 (map snd (paced 2 frame_6)))
          (payload_of 6 (map snd (paced 2 frame_6)))
          (deliver false (header_of 6 (map snd (paced 2 frame_5)))
             (payload_of 6 (map snd (paced 2 frame_5))) fresh))).
Proof.
  apply (resync_after_garbage 6 512 false (paced 100 garbage) (paced 2 MAGIC_B)
           (paced 2 frame_5) (paced 2 MAGIC_B) (paced 2 frame_6) 5 0).
  - lia.
  - discriminate.
  - reflexivity.
  - reflexivity.
  - vm_compute. reflexivity.
  - reflexivity.
  - vm_compute. reflexivity.
  - vm_compute. reflexivity.
  - vm_compute. reflexivity.
  - vm_compute. reflexivity.
Defined.

(** C3 (as stated) fails: when the stream stalls after the marker and a
    header, [read_exact] raises [TimeoutError], which no handler inside the
    loop catches; the iteration does not return to [sync], the loop is left
    and the session ends at once.  Here the marker and a whole valid frame
    arrive half a second later, well within the session and within the two
    seconds a resynchronisation would have had; they are never read. *)
Lemma stalled_frame_ends_capture :
  (forall fl s', ADC_csv_gather.frame_body
                   (mkState (mkWorld 0 (skipn 2 stalled_wire)) fresh) <> Ok fl s')
  /\ ADC_csv_gather.run_capture 5 (mkWorld 0 stalled_wire)
     = (TimedOut,
        mkState (mkWorld 1000 ((500%N, x5a) :: instant (xa5 :: frame_5))) fresh).
Proof.
  split; [intros fl s'|]; vm_compute; [discriminate|reflexivity].
Qed.

(** C3 (amended) -- Partial-frame timeout.  When the header has been read
    and announces a plausible sample count, and the read of the payload or
    of the checksum raises [TimeoutError], the iteration raises it in its
    turn, with the local variables untouched and the port where the read
    gave it up; the capture loop, entered before its end time, passes it
    on, and [run_capture] ends the session on it: there is no
    resynchronisation. *)
Theorem stalled_frame_ends_session :
  forall HDR FS gap w hdr w1 w',
    (6 <= HDR)%nat -> (gap = true -> (10 <= HDR)%nat) ->
    read_exact HDR w = Ok hdr w1 ->
    (nsamp_of hdr =? 0) || (nsamp_of hdr >? FS) = false ->
    (read_exact (Z.to_nat (nsamp_of hdr * 2)) w1 = Raise TimeoutError w'
     \/ exists payload w2,
          read_exact (Z.to_nat (nsamp_of hdr * 2)) w1 = Ok payload w2
          /\ read_exact 2 w2 = Raise TimeoutError w') ->
    (forall v, frame_body HDR FS gap (mkState w v) = Raise TimeoutError (mkState w' v))
    /\ (forall v fuel end_time,
          (now w < end_time)%N ->
          capture_loop HDR FS gap (S fuel) end_time (mkState w v)
          = Raise TimeoutError (mkState w' v))
    /\ (forall duration w0,
          sync 5000 w0 = Ok true w -> (0 < duration)%N ->
          run_capture HDR FS gap duration w0 = (TimedOut, mkState w' fresh)).
Proof.
  intros HDR FS gap w hdr w1 w' H6 H10 Hh Hrange Hstall.
  assert (Hbody : forall v, frame_body HDR FS gap (mkState w v)
                            = Raise TimeoutError (mkState w' v)).
  { intros v. rewrite (SerialFacts.frame_body_header HDR FS gap H6 H10 w hdr w1 v Hh).
    rewrite Hrange.
    destruct Hstall as [Hp|(payload & w2 & Hp & Hc)].
    - now rewrite (SerialFacts.bind_io_raise v Hp).
    - rewrite (SerialFacts.bind_io_ok v Hp). now rewrite (SerialFacts.bind_io_raise v Hc). }
  assert (Hloop : forall v fuel end_time, (now w < end_time)%N ->
            capture_loop HDR FS gap (S fuel) end_time (mkState w v)
            = Raise TimeoutError (mkState w' v)).
  { intros v fuel end_time Ht. rewrite SerialFacts.capture_loop_unfold.
    apply N.ltb_lt in Ht. now rewrite Ht, Hbody. }
  split; [exact Hbody|]. split; [exact Hloop|].
  intros duration w0 Hs Hd. unfold run_capture. rewrite Hs.
  rewrite Hloop; [reflexivity|lia].
Qed.

(** The theorem on [stalled_wire], the marker already found. *)
Lemma stalled_frame_ends_session_witness :
  (forall v, ADC_csv_gather.frame_body (mkState (mkWorld 0 (skipn 2 stalled_wire)) v)
             = Raise TimeoutError
                 (mkState (mkWorld 1000 ((500%N, x5a) :: instant (xa5 :: frame_5))) v))
  /\ ADC_csv_gather.run_capture 5 (mkWorld 0 stalled_wire)
     = (TimedOut,
        mkState (mkWorld 1000 ((500%N, x5a) :: instant (xa5 :: frame_5))) fresh).
Proof.
  pose proof (stalled_frame_ends_session 6 512 false
                (mkWorld 0 (skipn 2 stalled_wire))
                (firstn 6 frame_5)
                (mkWorld 0 ((1500%N, x5a) :: instant (xa5 :: frame_5)))
                (mkWorld 1000 ((500%N, x5a) :: instant (xa5 :: frame_5)))
                ltac:(lia) ltac:(discriminate) eq_refl eq_refl
                (or_introl eq_refl)) as (Hbody & _ & Hrun).
  split; [exact Hbody|].
  apply (Hrun 5%N (mkWorld 0 stalled_wire)); reflexivity.
Defined.

(** C2 (as stated) fails for RPC_capture.py: the eight bytes of
    [blob_empty] declare zero samples, their length and checksum fit, and
    [parse_frame] returns them as frame 1 with no sample; [run_capture]
    takes the frame as accepted and records its number. *)
Lemma zero_count_blob_accepted :
  RPC_capture.count_of blob_empty = 0
  /\ RPC_capture.parse_frame (RPC.PyBytes blob_empty) = Val (Some 1, Some [])
  /\ RPC_capture.run_capture [RPC.PyBytes blob_empty]
     = Val (RPC_capture.mkLocals 0 0 0 (Some 1) 0 []).
Proof.
  repeat split; vm_compute; reflexivity.
Qed.

(** C7 (as stated) fails for RPC_sample_csv.py: [stamped_1] carries one
    sample with all bits set, and 0xFFFF is what [parse_frame] returns and
    [run_capture] writes, not 0xFFF. *)
Lemma timestamp_format_keeps_container :
  RPC_sample_csv.parse_frame (RPC.PyBytes stamped_1) = Val ([0xFFFF], [1003])
  /\ RPC_sample_csv.run_capture [RPC.PyBytes stamped_1]
     = Val (RPC_sample_csv.mkLocals 1 0 [RPC_sample_csv.mkRow 0 1003 0xFFFF]).
Proof.
  repeat split; vm_compute; reflexivity.
Qed.

(** X10 -- In RPC_capture.py every failure of [parse_frame] is the pair
    [(None, None)], so the loop counts every rejected answer in [empty],
    whatever the reason: the branch that increments [bad] is never taken.
    [blob_7_corrupt], a frame with one checksum byte altered, is counted as
    an empty answer. *)
Lemma bad_counter_never_moves :
  (forall resps,
      exists v, RPC_capture.run_capture resps = Val v
        /\ RPC_capture.bad v = 0
        /\ RPC_capture.empty v
           = Z.of_nat (length resps)
             - Z.of_nat (length (RPC_capture.accepted_seqs resps)))
  /\ RPC_capture.parse_frame (RPC.PyBytes blob_7_corrupt) = Val (None, None)
  /\ RPC_capture.run_capture [RPC.PyBytes blob_7_corrupt]
     = Val (RPC_capture.mkLocals 0 0 1 None 0 []).
Proof.
  split.
  { intros resps.
    destruct (RPC_capture_facts.capture_loop_counters resps RPC_capture.fresh)
      as (v & Hv & _ & _ & Hbad & Hempty).
    exists v. cbn in Hbad, Hempty. split; [assumption|]. split; lia. }
  repeat split; vm_compute; reflexivity.
Qed.

(** C8 (as stated) fails by the way the counters are laid out.  In
    ADC_csv_gather.py a header that announces no sample is rejected and
    the loop resynchronises, but no counter moves: the session below, whose
    one iteration ends in a malformed header, closes with [bad_crc = 0].
    In RPC_sample_csv.py the single counter takes an empty answer for a bad
    frame. *)
Lemma failures_not_told_apart :
  session 6 512 false 5 (mkWorld 0 (instant (MAGIC_B ++ header_zero)))
  = [Malformed header_zero (mkWorld 0 [])]
  /\ ADC_csv_gather.run_capture 5 (mkWorld 0 (instant (MAGIC_B ++ header_zero)))
     = (SyncLost, mkState (mkWorld 2000 []) fresh)
  /\ RPC_sample_csv.run_capture [RPC.PyNone]
     = Val (RPC_sample_csv.mkLocals 0 1 []).
Proof.
  repeat split; vm_compute; reflexivity.
Qed.

(** * Further properties of the code *)

(** X1 -- Every session of the serial scripts comes to its summary: the
    model's iteration bounds are never exhausted and no exception other than the
    handled [TimeoutError] is raised (no [struct.error]). *)
Theorem capture_sessions_end :
  (forall duration w,
      let e := fst (ADC_csv_gather.run_capture duration w) in
      e = NoSync \/ e = TimeUp \/ e = SyncLost \/ e = TimedOut)
  /\ (forall duration w,
        let e := fst (ADC_readcsv_reducedclipping.run_capture duration w) in
        e = NoSync \/ e = TimeUp \/ e = SyncLost \/ e = TimedOut).
Proof.
  split; intros duration w.
  - apply (SerialFacts.run_capture_ends 6 512 false); [lia|discriminate].
  - apply (SerialFacts.run_capture_ends 10 16384 true); lia.
Qed.

(** C2 (amended) -- Sample count out of bounds.  In the serial scripts a
    header whose sample count is 0 or above [FRAME_SAMPLES] sends the loop
    to [sync] on the port as the header read left it: no payload byte is
    read, nothing is written or counted.  The parser of RPC_sample_csv.py
    returns no sample for a count of 0, and its one-byte count cannot exceed
    [MAX_SAMPLES].  The parser of RPC_capture.py sets no bound on the count:
    it returns the frame whenever length and checksum fit. *)
Theorem count_bounds_per_format :
  (forall w v,
      match read_exact 6 w with
      | Ok hdr w1 =>
          if (nsamp_of hdr =? 0) || (nsamp_of hdr >? 512)
          then ADC_csv_gather.frame_body (mkState w v) = resync (mkState w1 v)
          else True
      | _ => True
      end)
  /\ (forall w v,
        match read_exact 10 w with
        | Ok hdr w1 =>
            if (nsamp_of hdr =? 0) || (nsamp_of hdr >? 16384)
            then ADC_readcsv_reducedclipping.frame_body (mkState w v)
                 = resync (mkState w1 v)
            else True
        | _ => True
        end)
  /\ (forall w v,
        exists (ok : bool) w',
          resync (mkState w v) = Ok (if ok then Continue else Break) (mkState w' v))
  /\ (forall buf0,
        if RPC_sample_csv.count_of (RPC_sample_csv.strip_overflow buf0) =? 0
        then RPC_sample_csv.parse_buf buf0 = Val ([], [])
        else True)
  /\ (forall buf, RPC_sample_csv.count_of buf <= RPC_sample_csv.MAX_SAMPLES)
  /\ (forall buf0,
        RPC_capture.parse_buf buf0
        = let buf := RPC_capture.strip_overflow buf0 in
          if RPC_capture.well_formed buf
          then Val (Some (RPC_capture.seq_of buf), Some (RPC_capture.samples_of buf))
          else Val (None, None)).
Proof.
  split.
  { intros w v. destruct (read_exact 6 w) as [hdr w1|e w1|] eqn:Hr; try exact I.
    destruct ((nsamp_of hdr =? 0) || (nsamp_of hdr >? 512)) eqn:Hrange; [|exact I].
    change (ADC_csv_gather.frame_body (mkState w v))
      with (frame_body 6 512 false (mkState w v)).
    rewrite (SerialFacts.frame_body_header 6 512 false ltac:(lia) ltac:(discriminate)
               w hdr w1 v Hr).
    now rewrite Hrange. }
  split.
  { intros w v. destruct (read_exact 10 w) as [hdr w1|e w1|] eqn:Hr; try exact I.
    destruct ((nsamp_of hdr =? 0) || (nsamp_of hdr >? 16384)) eqn:Hrange; [|exact I].
    change (ADC_readcsv_reducedclipping.frame_body (mkState w v))
      with (frame_body 10 16384 true (mkState w v)).
    rewrite (SerialFacts.frame_body_header 10 16384 true ltac:(lia) ltac:(lia)
               w hdr w1 v Hr).
    now rewrite Hrange. }
  split.
  { intros w v. destruct (SerialFacts.resync_run w) as (ok & w' & _ & H & _).
    exists ok, w'. apply H. }
  split.
  { intros buf0.
    destruct (RPC_sample_csv.count_of (RPC_sample_csv.strip_overflow buf0) =? 0) eqn:Hz;
      [|exact I].
    rewrite RPC_sample_facts.parse_buf_spec_stamped. cbv zeta.
    unfold RPC_sample_csv.well_formed. rewrite Hz.
    now rewrite andb_false_r. }
  split; [|exact RPC_capture_facts.parse_buf_spec_capture].
  intros buf. unfold RPC_sample_csv.count_of, RPC_sample_csv.MAX_SAMPLES.
  destruct buf as [|b buf]; cbn [firstn le_uint]; [lia|].
  pose proof (SerialFacts.b2z_range b). lia.
Qed.

(** C8 (amended) -- What the failure counters count.  In the serial
    scripts [bad_crc] is the number of checksum mismatches of the session
    (headers out of range and stalled reads are not counted); in
    RPC_sample_csv.py [bad] is the number of answers from which no sample
    came, empty answers included; in RPC_capture.py every rejected answer
    is counted once, in one of the two failure counters. *)
Theorem failure_counters :
  (forall duration w,
      bad_crc (vars (snd (ADC_csv_gather.run_capture duration w)))
      = corrupt_count (session 6 512 false duration w))
  /\ (forall duration w,
        bad_crc (vars (snd (ADC_readcsv_reducedclipping.run_capture duration w)))
        = corrupt_count (session 10 16384 true duration w))
  /\ (forall resps,
        exists v, RPC_sample_csv.run_capture resps = Val v
          /\ RPC_sample_csv.bad v
             = Z.of_nat (length (filter RPC_sample_csv.rejected resps)))
  /\ RPC_sample_csv.rejected RPC.PyNone = true
  /\ (forall resps,
        exists v, RPC_capture.run_capture resps = Val v
          /\ RPC_capture.bad v + RPC_capture.empty v
             = Z.of_nat (length resps)
               - Z.of_nat (length (RPC_capture.accepted_seqs resps))).
Proof.
  split.
  { intros duration w. unfold ADC_csv_gather.run_capture.
    rewrite SerialFacts.run_capture_trace by (cbv; first [lia | discriminate]).
    now destruct (SerialFacts.effects_counters false
                    (session 6 512 false duration w) fresh) as (_ & H & _). }
  split.
  { intros duration w. unfold ADC_readcsv_reducedclipping.run_capture.
    rewrite SerialFacts.run_capture_trace by (cbv; lia).
    now destruct (SerialFacts.effects_counters true
                    (session 10 16384 true duration w) fresh) as (_ & H & _). }
  split.
  { intros resps.
    destruct (RPC_sample_facts.capture_loop_bad resps RPC_sample_csv.fresh)
      as (v & Hv & Hb).
    exists v. split; [assumption|]. cbn in Hb. lia. }
  split; [reflexivity|].
  intros resps.
  destruct (RPC_capture_facts.capture_loop_counters resps RPC_capture.fresh)
    as (v & Hv & _ & _ & Hbad & Hempty).
  exists v. cbn in Hbad, Hempty. split; [assumption|]. lia.
Qed.

(** * Further facts about the model *)

(** *** Words, lists and [struct.unpack] *)

Module WordFacts.
Import SPI.

Lemma unpack_H_seq_ok n : forall buf off,
  (off + 2 * n <= length buf)%nat ->
  unpack_H_seq n buf off = Val (words16 (firstn (2 * n) (skipn off buf))).
Proof.
  induction n as [|n IH]; intros buf off H.
  - reflexivity.
  - cbn [unpack_H_seq]. rewrite SerialFacts.unpack_H_ok by lia. cbn [py_bind].
    rewrite IH by lia. cbn [py_bind].
    destruct (SerialFacts.skipn_cons2 buf off ltac:(lia)) as (a & b & Hs).
    rewrite Hs. replace (2 * S n)%nat with (S (S (2 * n))) by lia.
    reflexivity.
Qed.

Lemma unpack_H_exact_ok n raw :
  length raw = (2 * n)%nat -> unpack_H_exact n raw = Val (words16 raw).
Proof.
  intros H. unfold unpack_H_exact. rewrite H, Nat.eqb_refl.
  rewrite unpack_H_seq_ok by (cbn; lia).
  cbn [skipn]. now rewrite <- H, firstn_all.
Qed.

Lemma unpack_H_exact_short n raw :
  length raw <> (2 * n)%nat -> unpack_H_exact n raw = Exn StructError.
Proof.
  intros H. unfold unpack_H_exact.
  destruct (Nat.eqb_spec (length raw) (2 * n)); [contradiction|reflexivity].
Qed.

Lemma words16_range bs : Forall (fun u => 0 <= u < 65536) (words16 bs).
Proof.
  assert (H : forall n bs, (length bs <= n)%nat -> Forall (fun u => 0 <= u < 65536) (words16 bs)).
  { induction n as [|n IH]; intros [|a [|b rest]] Hn; cbn [words16]; try constructor;
      try (cbn in Hn; lia).
    - cbn [le_uint]. pose proof (SerialFacts.b2z_range a). pose proof (SerialFacts.b2z_range b).
      lia.
    - apply IH. cbn in Hn. lia. }
  apply (H (length bs)). lia.
Qed.

Lemma unpack_h_exact_ok n payload :
  length payload = (2 * n)%nat ->
  unpack_h_exact n payload = Val (map to_int16 (words16 payload)).
Proof.
  intros H. unfold unpack_h_exact. rewrite H, Nat.eqb_refl.
  rewrite SerialFacts.unpack_h_seq_ok by (cbn; lia).
  cbn [skipn]. now rewrite <- H, firstn_all.
Qed.

Lemma unpack_h_exact_short n payload :
  length payload <> (2 * n)%nat -> unpack_h_exact n payload = Exn StructError.
Proof.
  intros H. unfold unpack_h_exact.
  destruct (Nat.eqb_spec (length payload) (2 * n)); [contradiction|reflexivity].
Qed.

Lemma to_int16_range u : 0 <= u < 65536 -> -32768 <= to_int16 u <= 32767.
Proof. unfold to_int16. destruct (Z.ltb_spec u 32768); lia. Qed.

Lemma combine_fst {A B} (l : list A) : forall (l' : list B),
  length l = length l' -> map fst (combine l l') = l.
Proof.
  induction l as [|a l IH]; intros [|b l'] H; cbn in *; try discriminate; [reflexivity|].
  f_equal. apply IH. lia.
Qed.

Lemma combine_snd {A B} (l : list A) : forall (l' : list B),
  length l = length l' -> map snd (combine l l') = l'.
Proof.
  induction l as [|a l IH]; intros [|b l'] H; cbn in *; try discriminate; [reflexivity|].
  f_equal. apply IH. lia.
Qed.

Lemma seq_from n : forall k, map (fun i => Z.of_nat k + Z.of_nat i) (seq 0 n) = map Z.of_nat (seq k n).
Proof.
  induction n as [|n IH]; intros k; [reflexivity|].
  cbn [seq map]. f_equal; [lia|].
  rewrite <- seq_shift, map_map. rewrite <- (IH (S k)).
  apply map_ext. intros i. lia.
Qed.

Lemma le_uint_below bs n : (length bs <= n)%nat -> 0 <= le_uint bs < 2 ^ (8 * Z.of_nat n).
Proof.
  revert n. induction bs as [|b bs IH]; intros n Hn.
  - cbn [le_uint]. split; [lia|]. apply Z.pow_pos_nonneg; lia.
  - destruct n as [|n]; [cbn in Hn; lia|]. cbn [le_uint length] in *.
    specialize (IH n ltac:(lia)). pose proof (SerialFacts.b2z_range b).
    replace (8 * Z.of_nat (S n)) with (8 + 8 * Z.of_nat n) by lia.
    rewrite Z.pow_add_r by lia. change (2 ^ 8) with 256. lia.
Qed.

Lemma bytes_eqb_eq a : forall b, bytes_eqb a b = true <-> a = b.
Proof.
  induction a as [|x a IH]; intros [|y b]; cbn [bytes_eqb]; split; intros H;
    try reflexivity; try discriminate.
  - apply andb_true_iff in H. destruct H as (Hxy & Hab).
    apply Byte.byte_dec_bl in Hxy. apply IH in Hab. congruence.
  - injection H as -> ->. apply andb_true_iff. split.
    + apply Byte.byte_dec_lb. reflexivity.
    + now apply IH.
Qed.

End WordFacts.

(** *** The checksums as bijections of their state *)

Module ChecksumFacts.

Lemma all_from_spec n : forall x p,
  all_from n x p = true -> forall k, x <= k < x + Z.of_nat n -> p k = true.
Proof.
  induction n as [|n IH]; intros x p H k Hk; [lia|].
  cbn [all_from] in H. apply andb_true_iff in H. destruct H as (Hx & Hrest).
  destruct (Z.eq_dec k x) as [->|Hne]; [assumption|].
  apply (IH (x + 1) p Hrest). lia.
Qed.

Lemma rounds_undone x :
  0 <= x < 65536 -> Nat.iter 8 crc16_unbit (crc16_rounds x) = x.
Proof.
  intros Hx.
  assert (H : all_from (Z.to_nat 65536) 0
                (fun x => Nat.iter 8 crc16_unbit (crc16_rounds x) =? x) = true)
    by (vm_compute; reflexivity).
  apply Z.eqb_eq. apply (all_from_spec _ _ _ H). rewrite Z2Nat.id; lia.
Qed.

Lemma ibm_rounds_undone x :
  0 <= x < 65536 -> Nat.iter 8 crc16_ibm_unbit (Nat.iter 8 crc16_ibm_bit x) = x.
Proof.
  intros Hx.
  assert (H : all_from (Z.to_nat 65536) 0
                (fun x => Nat.iter 8 crc16_ibm_unbit (Nat.iter 8 crc16_ibm_bit x) =? x)
              = true)
    by (vm_compute; reflexivity).
  apply Z.eqb_eq. apply (all_from_spec _ _ _ H). rewrite Z2Nat.id; lia.
Qed.


Lemma lxor_below n a b :
  0 <= n -> 0 <= a < 2 ^ n -> 0 <= b < 2 ^ n -> 0 <= Z.lxor a b < 2 ^ n.
Proof.
  intros Hn Ha Hb. split; [apply Z.lxor_nonneg; lia|].
  destruct (Z.eq_dec (Z.lxor a b) 0) as [->|Hne]; [lia|].
  assert (Hpos : 0 < Z.lxor a b) by (pose proof (proj2 (Z.lxor_nonneg a b)); lia).
  apply Z.log2_lt_pow2; [assumption|].
  eapply Z.le_lt_trans; [apply Z.log2_lxor; lia|].
  assert (Hn0 : n <> 0).
  { intros ->. change (2 ^ 0) with 1 in *.
    assert (a = 0) by lia. assert (b = 0) by lia. subst. now apply Hne. }
  apply Z.max_lub_lt.
  - destruct (Z.eq_dec a 0) as [->|]; [cbn; lia|]. apply Z.log2_lt_pow2; lia.
  - destruct (Z.eq_dec b 0) as [->|]; [cbn; lia|]. apply Z.log2_lt_pow2; lia.
Qed.

Lemma lxor_cancel_r a b c : Z.lxor a c = Z.lxor b c -> a = b.
Proof.
  intros H. apply (f_equal (fun x => Z.lxor x c)) in H.
  now rewrite !Z.lxor_assoc, !Z.lxor_nilpotent, !Z.lxor_0_r in H.
Qed.

Lemma lxor_cancel_l a b c : Z.lxor c a = Z.lxor c b -> a = b.
Proof. rewrite !(Z.lxor_comm c). apply lxor_cancel_r. Qed.

Lemma b2z_inj b b' : b2z b = b2z b' -> b = b'.
Proof.
  unfold b2z. intros H. apply N2Z.inj in H.
  apply (f_equal Byte.of_N) in H. rewrite !Byte.of_to_N in H. congruence.
Qed.

Lemma land_0xFFFF x : Z.land x 0xFFFF = x mod 65536.
Proof. change 0xFFFF with (Z.ones 16). now rewrite Z.land_ones by lia. Qed.

(** *** [crc16] *)

Lemma crc16_byte_rounds s b :
  crc16_byte s b = crc16_rounds (Z.lxor s (Z.shiftl (b2z b) 8)).
Proof. reflexivity. Qed.

Lemma crc16_byte_range s b : 0 <= crc16_byte s b < 65536.
Proof.
  unfold crc16_byte. rewrite land_0xFFFF. apply Z.mod_pos_bound. lia.
Qed.

Lemma shifted_byte_range b : 0 <= Z.shiftl (b2z b) 8 < 2 ^ 16.
Proof.
  pose proof (SerialFacts.b2z_range b). rewrite Z.shiftl_mul_pow2 by lia.
  change (2 ^ 8) with 256. change (2 ^ 16) with 65536. lia.
Qed.

Lemma crc16_byte_inj_state s s' b :
  0 <= s < 65536 -> 0 <= s' < 65536 ->
  crc16_byte s b = crc16_byte s' b -> s = s'.
Proof.
  intros Hs Hs' H. rewrite !crc16_byte_rounds in H.
  apply (f_equal (Nat.iter 8 crc16_unbit)) in H.
  rewrite !rounds_undone in H
    by (apply (lxor_below 16); [lia|assumption|apply shifted_byte_range]).
  now apply lxor_cancel_r in H.
Qed.

Lemma crc16_byte_inj_byte s b b' :
  0 <= s < 65536 -> crc16_byte s b = crc16_byte s b' -> b = b'.
Proof.
  intros Hs H. rewrite !crc16_byte_rounds in H.
  apply (f_equal (Nat.iter 8 crc16_unbit)) in H.
  rewrite !rounds_undone in H
    by (apply (lxor_below 16); [lia|assumption|apply shifted_byte_range]).
  apply lxor_cancel_l in H. apply b2z_inj.
  rewrite !Z.shiftl_mul_pow2 in H by lia. lia.
Qed.

Lemma crc16_fold_range data : forall s,
  0 <= s < 65536 -> 0 <= fold_left crc16_byte data s < 65536.
Proof.
  induction data as [|b data IH]; intros s Hs; [assumption|].
  cbn [fold_left]. apply IH, crc16_byte_range.
Qed.

Lemma crc16_fold_inj data : forall s s',
  0 <= s < 65536 -> 0 <= s' < 65536 ->
  fold_left crc16_byte data s = fold_left crc16_byte data s' -> s = s'.
Proof.
  induction data as [|b data IH]; intros s s' Hs Hs' H; [assumption|].
  cbn [fold_left] in H. apply IH in H; try apply crc16_byte_range.
  now apply crc16_byte_inj_state in H.
Qed.

(** *** [crc16_ibm] *)

Lemma crc16_ibm_bit_range x : 0 <= x < 65536 -> 0 <= crc16_ibm_bit x < 65536.
Proof.
  intros Hx. unfold crc16_ibm_bit.
  assert (Hs : 0 <= Z.shiftr x 1 < 2 ^ 16).
  { rewrite Z.shiftr_div_pow2 by lia. change (2 ^ 1) with 2. change (2 ^ 16) with 65536.
    split; [apply Z.div_pos; lia|]. apply Z.div_lt_upper_bound; lia. }
  destruct (Z.land x 1 =? 0); [exact Hs|].
  apply (lxor_below 16); [lia|exact Hs|cbv; split; congruence].
Qed.

Lemma ibm_rounds_range x :
  0 <= x < 65536 -> 0 <= Nat.iter 8 crc16_ibm_bit x < 65536.
Proof.
  intros Hx. cbn [Nat.iter]. now repeat apply crc16_ibm_bit_range.
Qed.

Lemma byte_below_16 b : 0 <= b2z b < 2 ^ 16.
Proof. pose proof (SerialFacts.b2z_range b). change (2 ^ 16) with 65536. lia. Qed.

Lemma crc16_ibm_byte_range s b :
  0 <= s < 65536 -> 0 <= crc16_ibm_byte s b < 65536.
Proof.
  intros Hs. apply ibm_rounds_range, (lxor_below 16); [lia|assumption|apply byte_below_16].
Qed.

Lemma ibm_rounds_inj x y :
  0 <= x < 65536 -> 0 <= y < 65536 ->
  Nat.iter 8 crc16_ibm_bit x = Nat.iter 8 crc16_ibm_bit y -> x = y.
Proof.
  intros Hx Hy H. apply (f_equal (Nat.iter 8 crc16_ibm_unbit)) in H.
  now rewrite !ibm_rounds_undone in H.
Qed.

Lemma crc16_ibm_byte_inj_state s s' b :
  0 <= s < 65536 -> 0 <= s' < 65536 ->
  crc16_ibm_byte s b = crc16_ibm_byte s' b -> s = s'.
Proof.
  intros Hs Hs' H. unfold crc16_ibm_byte in H.
  apply ibm_rounds_inj in H;
    try (apply (lxor_below 16); [lia|assumption|apply byte_below_16]).
  now apply lxor_cancel_r in H.
Qed.

Lemma crc16_ibm_byte_inj_byte s b b' :
  0 <= s < 65536 -> crc16_ibm_byte s b = crc16_ibm_byte s b' -> b = b'.
Proof.
  intros Hs H. unfold crc16_ibm_byte in H.
  apply ibm_rounds_inj in H;
    try (apply (lxor_below 16); [lia|assumption|apply byte_below_16]).
  apply lxor_cancel_l in H. now apply b2z_inj.
Qed.

Lemma ibm_fold_range data : forall s,
  0 <= s < 65536 -> 0 <= fold_left crc16_ibm_byte data s < 65536.
Proof.
  induction data as [|b data IH]; intros s Hs; [assumption|].
  cbn [fold_left]. now apply IH, crc16_ibm_byte_range.
Qed.

Lemma ibm_fold_inj data : forall s s',
  0 <= s < 65536 -> 0 <= s' < 65536 ->
  fold_left crc16_ibm_byte data s = fold_left crc16_ibm_byte data s' -> s = s'.
Proof.
  induction data as [|b data IH]; intros s s' Hs Hs' H; [assumption|].
  cbn [fold_left] in H. apply IH in H; try now apply crc16_ibm_byte_range.
  now apply crc16_ibm_byte_inj_state in H.
Qed.

(** The mask of the [return] statement changes nothing. *)
Lemma crc16_ibm_fold data : crc16_ibm data = fold_left crc16_ibm_byte data 0.
Proof.
  unfold crc16_ibm. rewrite land_0xFFFF. apply Z.mod_small, ibm_fold_range. lia.
Qed.

(** Eight rounds bring the high byte of the state down, when the low byte
    is clear. *)
Lemma ibm_rounds_high h :
  0 <= h < 256 -> Nat.iter 8 crc16_ibm_bit (h * 256) = h.
Proof.
  intros Hh.
  assert (H : all_from (Z.to_nat 256) 0
                (fun h => Nat.iter 8 crc16_ibm_bit (h * 256) =? h) = true)
    by (vm_compute; reflexivity).
  apply Z.eqb_eq. apply (all_from_spec _ _ _ H). rewrite Z2Nat.id; lia.
Qed.

Lemma lxor_bytes lo hi :
  0 <= lo < 256 -> 0 <= hi -> Z.lxor (hi * 256) lo = lo + 256 * hi.
Proof.
  intros Hlo Hhi. rewrite <- Z.add_nocarry_lxor; [lia|].
  apply Z.bits_inj'. intros n Hn. rewrite Z.land_spec, Z.bits_0.
  destruct (Z.lt_ge_cases n 8) as [Hlt|Hge].
  - change 256 with (2 ^ 8). rewrite Z.mul_pow2_bits_low by lia. reflexivity.
  - rewrite (Z.bits_above_log2 lo n), andb_false_r; [reflexivity|lia|].
    destruct (Z.eq_dec lo 0) as [->|]; [cbn; lia|].
    apply Z.lt_le_trans with 8; [|assumption]. apply Z.log2_lt_pow2; lia.
Qed.

(** The residue: the checksum of a message followed by two bytes is zero
    exactly when the two bytes are the checksum of the message, low byte
    first. *)
Lemma crc16_ibm_residue data lo hi :
  crc16_ibm (data ++ [lo; hi]) = 0 <-> le_uint [lo; hi] = crc16_ibm data.
Proof.
  rewrite !crc16_ibm_fold, fold_left_app. cbn [fold_left le_uint].
  set (s := fold_left crc16_ibm_byte data 0).
  assert (Hs : 0 <= s < 65536) by (apply ibm_fold_range; lia).
  pose proof (SerialFacts.b2z_range lo) as Hlo.
  pose proof (SerialFacts.b2z_range hi) as Hhi.
  assert (H1 : 0 <= crc16_ibm_byte s lo < 65536) by now apply crc16_ibm_byte_range.
  change (crc16_ibm_byte (crc16_ibm_byte s lo) hi)
    with (Nat.iter 8 crc16_ibm_bit (Z.lxor (crc16_ibm_byte s lo) (b2z hi))).
  assert (H0 : Nat.iter 8 crc16_ibm_bit 0 = 0) by reflexivity.
  split.
  - intros H. rewrite <- H0 in H.
    apply ibm_rounds_inj in H;
      [|apply (lxor_below 16); [lia|assumption|apply byte_below_16]|lia].
    apply Z.lxor_eq in H. unfold crc16_ibm_byte in H.
    rewrite <- (ibm_rounds_high (b2z hi) Hhi) in H.
    apply ibm_rounds_inj in H;
      [|apply (lxor_below 16); [lia|assumption|apply byte_below_16]|lia].
    apply (f_equal (fun x => Z.lxor x (b2z lo))) in H.
    rewrite Z.lxor_assoc, Z.lxor_nilpotent, Z.lxor_0_r in H.
    rewrite lxor_bytes in H by lia. lia.
  - intros H.
    assert (E : crc16_ibm_byte s lo = b2z hi).
    { unfold crc16_ibm_byte. rewrite <- H.
      replace (b2z lo + 256 * (b2z hi + 256 * 0)) with (b2z lo + 256 * b2z hi) by lia.
      rewrite <- lxor_bytes by lia.
      rewrite Z.lxor_assoc, Z.lxor_nilpotent, Z.lxor_0_r.
      now apply ibm_rounds_high. }
    rewrite E, Z.lxor_nilpotent. reflexivity.
Qed.

End ChecksumFacts.

(** *** The port, once more *)

Module PortFacts.
Import Serial SerialFacts.

(** A read never outlasts its timeout; one that returns nothing has waited
    for all of it. *)
Lemma ser_read_within_time size : forall budget w got w',
  ser_read_within budget size w = (got, w') ->
  (now w' <= now w + budget)%N
  /\ (got = [] -> (0 < size)%nat -> now w' = (now w + budget)%N).
Proof.
  induction size as [|size IH]; intros budget w got w' H; cbn [ser_read_within] in H.
  - injection H as <- <-. split; [lia|intros _ Hs; lia].
  - destruct (wire w) as [|[dt b] rest].
    + injection H as <- <-. cbn [now]. split; [lia|reflexivity].
    + destruct (N.leb_spec dt budget) as [Hle|Hgt].
      * destruct (ser_read_within (budget - dt) size (mkWorld (now w + dt) rest))
          as [got1 w1] eqn:Hrec.
        injection H as <- <-. apply IH in Hrec. cbn [now] in Hrec.
        split; [lia|discriminate].
      * injection H as <- <-. cbn [now]. split; [lia|reflexivity].
Qed.

Lemma read_cases size w :
  exists got w', read size w = Ok got w'
    /\ map snd (wire w) = got ++ map snd (wire w')
    /\ (length got <= size)%nat
    /\ (now w <= now w' <= now w + READ_TIMEOUT)%N
    /\ (got = [] -> (0 < size)%nat -> now w' = (now w + READ_TIMEOUT)%N).
Proof.
  unfold read, ser_read.
  destruct (ser_read_within READ_TIMEOUT size w) as [got w'] eqn:H.
  exists got, w'. split; [reflexivity|].
  destruct (ser_read_within_spec _ _ _ _ _ H) as (Hb & Hl & _ & Hn).
  destruct (ser_read_within_time _ _ _ _ _ H) as (Ht & Ht').
  repeat split; assumption.
Qed.

(** *** [read_exact]: all or nothing, in bounded time *)

Lemma read_exact_loop_time fuel : forall n buf w,
  (length buf <= n)%nat -> (n - length buf <= fuel)%nat ->
  match read_exact_loop fuel n buf w with
  | Ok b w' =>
      exists more, b = buf ++ more /\ length b = n
        /\ map snd (wire w) = more ++ map snd (wire w')
        /\ (now w <= now w' <= now w + N.of_nat (n - length buf) * READ_TIMEOUT)%N
  | Raise e w' =>
      e = TimeoutError
      /\ (exists lost, map snd (wire w) = lost ++ map snd (wire w')
            /\ (length buf + length lost < n)%nat)
      /\ (now w + READ_TIMEOUT <= now w'
          <= now w + N.of_nat (n - length buf) * READ_TIMEOUT)%N
  | Fuel => False
  end.
Proof.
  induction fuel as [|fuel IH]; intros n buf w Hle Hfuel.
  - cbn [read_exact_loop]. destruct (Nat.ltb_spec (length buf) n); [lia|].
    unfold ret. exists []. rewrite app_nil_r. cbn. repeat split; lia.
  - cbn [read_exact_loop]. destruct (Nat.ltb_spec (length buf) n) as [Hlt|Hge].
    + unfold bind.
      destruct (read_cases (n - length buf) w)
        as (got & w1 & -> & Hb & Hl & Hn & Hwait).
      destruct got as [|g got'].
      * unfold raise. split; [reflexivity|]. split.
        -- exists []. cbn in *. split; [assumption|lia].
        -- rewrite (Hwait eq_refl) by lia. unfold READ_TIMEOUT. lia.
      * specialize (IH n (buf ++ g :: got') w1).
        rewrite length_app in IH. cbn [length] in *.
        specialize (IH ltac:(lia) ltac:(lia)).
        destruct (read_exact_loop fuel n (buf ++ g :: got') w1) as [b w'|e w'|].
        -- destruct IH as (more & -> & Hlen & Hbytes & Hnow).
           exists ((g :: got') ++ more). rewrite app_assoc.
           repeat split; try assumption.
           ++ rewrite Hb, Hbytes. now rewrite <- app_assoc.
           ++ lia.
           ++ unfold READ_TIMEOUT in *. lia.
        -- destruct IH as (-> & (lost & Hlost & Hlen) & Hnow).
           split; [reflexivity|]. split.
           ++ exists ((g :: got') ++ lost). split.
              ** rewrite Hb, Hlost. now rewrite <- app_assoc.
              ** rewrite length_app. cbn [length]. lia.
           ++ unfold READ_TIMEOUT in *. lia.
        -- exact IH.
    + unfold ret. exists []. rewrite app_nil_r. cbn. repeat split; lia.
Qed.

(** *** [sync]: the first marker, or none before the deadline *)

Lemma contains_magic_short prev : (length prev <= 1)%nat -> contains_magic prev = false.
Proof. destruct prev as [|p [|q prev]]; cbn; intros; try reflexivity; lia. Qed.

Lemma contains_magic_cons x b rest :
  contains_magic (x :: b :: rest)
  = (Byte.eqb x x5a && Byte.eqb b xa5) || contains_magic (b :: rest).
Proof. reflexivity. Qed.

Lemma no_match prev b :
  (length prev <= 1)%nat ->
  bytes_eqb prev [x5a] && bytes_eqb [b] [xa5] = false ->
  forall rest, contains_magic (prev ++ b :: rest) = contains_magic (b :: rest).
Proof.
  intros Hprev Hno rest. destruct prev as [|p [|q prev]]; [reflexivity| |cbn in Hprev; lia].
  cbn [app]. rewrite contains_magic_cons.
  cbn [bytes_eqb] in Hno. rewrite !andb_true_r in Hno. now rewrite Hno.
Qed.

Lemma sync_loop_sound fuel : forall deadline prev w ok w',
  (length prev <= 1)%nat ->
  sync_loop fuel deadline prev w = Ok ok w' ->
  exists c, map snd (wire w) = c ++ map snd (wire w')
    /\ (if ok
        then exists g, prev ++ c = g ++ MAGIC_B /\ contains_magic (g ++ [x5a]) = false
        else contains_magic (prev ++ c) = false /\ (deadline <= now w')%N)
    /\ (now w <= now w')%N
    /\ (now w' = now w \/ (now w' < deadline + READ_TIMEOUT)%N).
Proof.
  induction fuel as [|fuel IH]; intros deadline prev w ok w' Hprev H.
  - cbn [sync_loop] in H. unfold bind, monotonic in H.
    destruct (N.ltb_spec (now w) deadline) as [Hlt|Hge]; [discriminate|].
    unfold ret in H. injection H as <- <-. exists []. rewrite app_nil_r.
    split; [reflexivity|]. split; [split; [now apply contains_magic_short|lia]|].
    split; [lia|now left].
  - cbn [sync_loop] in H. unfold bind at 1 in H. unfold monotonic at 1 in H.
    destruct (N.ltb_spec (now w) deadline) as [Hlt|Hge].
    + unfold bind at 1 in H.
      destruct (read_cases 1 w) as (got & w1 & Hr & Hb & Hl & Hn & _).
      rewrite Hr in H. destruct got as [|b [|b' got]]; [| |cbn in Hl; lia].
      * apply IH in H; [|assumption].
        destruct H as (c & Hc & Hok & Hn1 & Ht).
        exists c. split; [now rewrite Hb|]. split; [assumption|].
        split; [lia|]. right. unfold READ_TIMEOUT in *. lia.
      * destruct (bytes_eqb prev [x5a] && bytes_eqb [b] [xa5]) eqn:Hm.
        -- unfold ret in H. injection H as <- <-.
           apply andb_true_iff in Hm. destruct Hm as (Hp & Hq).
           apply WordFacts.bytes_eqb_eq in Hp, Hq. injection Hq as ->. subst prev.
           exists [xa5]. split; [assumption|].
           split; [exists []; split; reflexivity|].
           split; [lia|]. right. unfold READ_TIMEOUT in *. lia.
        -- apply IH in H; [|cbn; lia].
           destruct H as (c & Hc & Hok & Hn1 & Ht).
           exists (b :: c). split; [rewrite Hb, Hc; reflexivity|].
           split.
           { destruct ok.
             - destruct Hok as (g & Hg & Hno).
               exists (prev ++ g). split; [rewrite <- app_assoc, <- Hg; reflexivity|].
               rewrite <- app_assoc.
               destruct g as [|g0 g].
               + cbn [app] in Hg. injection Hg as -> _.
                 change ([] ++ [x5a]) with [x5a].
                 rewrite (no_match prev x5a Hprev Hm). reflexivity.
               + cbn [app] in Hg. injection Hg as <- _.
                 cbn [app]. rewrite (no_match prev b Hprev Hm). exact Hno.
             - destruct Hok as (Hno & Hd). split; [|assumption].
               rewrite (no_match prev b Hprev Hm). exact Hno. }
           split; [lia|]. right. unfold READ_TIMEOUT in *. lia.
    + unfold ret in H. injection H as <- <-. exists []. rewrite app_nil_r.
      split; [reflexivity|]. split; [split; [now apply contains_magic_short|lia]|].
      split; [lia|now left].
Qed.

End PortFacts.

(** *** The rows of a serial session *)

Module SessionFacts.
Import Serial SerialFacts.

Lemma rows_from_length samples : forall t flag,
  length (rows_from t flag samples) = length samples.
Proof.
  induction samples as [|s samples IH]; intros t flag; [reflexivity|].
  cbn [rows_from length]. now rewrite IH.
Qed.

Lemma rows_from_index samples : forall t flag n,
  t = Z.of_nat n ->
  map sample_index (rows_from t flag samples) = map Z.of_nat (seq n (length samples)).
Proof.
  induction samples as [|s samples IH]; intros t flag n Ht; [reflexivity|].
  cbn [rows_from length seq map sample_index]. f_equal; [assumption|].
  apply IH. lia.
Qed.

Lemma rows_from_raw samples : forall t flag,
  map adc_raw (rows_from t flag samples) = map (fun s => s mod 4096) samples.
Proof.
  induction samples as [|s samples IH]; intros t flag; [reflexivity|].
  cbn [rows_from map adc_raw]. now rewrite IH, land_0xFFF.
Qed.

Local Abbreviation effects gap := (fold_left (fun v vd => effect gap vd v)).
Local Abbreviation samples_in frames :=
  (flat_map (fun f : bytes * bytes => samples_of (snd f)) frames).

Lemma effect_keeps_rows gap vd v :
  (forall hdr payload c w3, vd <> Accepted hdr payload c w3) ->
  csv (effect gap vd v) = csv v /\ total (effect gap vd v) = total v.
Proof.
  intros H. destruct vd; try (split; reflexivity).
  now destruct (H hdr payload crc_raw w3).
Qed.

(** The rows after a sequence of verdicts. *)
Lemma effects_rows gap vds : forall v,
  total v = Z.of_nat (length (csv v)) ->
  let v' := effects gap vds v in
  total v' = Z.of_nat (length (csv v'))
  /\ map adc_raw (csv v')
     = map adc_raw (csv v) ++ map (fun s => s mod 4096) (samples_in (accepted_frames vds))
  /\ map sample_index (csv v')
     = map sample_index (csv v)
       ++ map Z.of_nat (seq (length (csv v)) (length (csv v') - length (csv v)))
  /\ (length (csv v) <= length (csv v'))%nat.
Proof.
  induction vds as [|vd vds IH]; intros v Hv; cbn [fold_left].
  - cbn. rewrite Nat.sub_diag, !app_nil_r. repeat split; [assumption|lia].
  - assert (Hstep : total (effect gap vd v) = Z.of_nat (length (csv (effect gap vd v)))
                    /\ map adc_raw (csv (effect gap vd v))
                       = map adc_raw (csv v)
                         ++ map (fun s => s mod 4096) (samples_in (accepted_frames [vd]))
                    /\ map sample_index (csv (effect gap vd v))
                       = map sample_index (csv v)
                         ++ map Z.of_nat (seq (length (csv v))
                              (length (csv (effect gap vd v)) - length (csv v)))
                    /\ (length (csv v) <= length (csv (effect gap vd v)))%nat).
    { destruct vd as [w'|hdr w1|hdr p c w3|hdr p c w3];
        try (cbn; rewrite Nat.sub_diag, !app_nil_r; repeat split; [assumption|lia]).
      rewrite effect_accepted. cbn [csv total accepted_frames flat_map snd].
      rewrite !map_app, !length_app, rows_from_length, app_nil_r, rows_from_raw.
      rewrite (rows_from_index _ _ _ (length (csv v)) Hv).
      replace (length (csv v) + length (samples_of p) - length (csv v))%nat
        with (length (samples_of p)) by lia.
      repeat split; lia. }
    destruct Hstep as (H1 & H2 & H3 & H4).
    specialize (IH (effect gap vd v) H1). cbv zeta in IH.
    destruct IH as (I1 & I2 & I3 & I4).
    split; [assumption|]. split; [|split; [|lia]].
    + rewrite I2, H2, <- app_assoc, <- map_app. f_equal. f_equal.
      destruct vd; cbn [accepted_frames flat_map]; try reflexivity.
      now rewrite app_nil_r.
    + rewrite I3, H3, <- app_assoc, <- map_app. f_equal. f_equal.
      set (a := length (csv v)) in *. set (b := length (csv (effect gap vd v))) in *.
      set (c := length (csv (effects gap vds (effect gap vd v)))) in *.
      replace (c - a)%nat with ((b - a) + (c - b))%nat by lia.
      rewrite seq_app. f_equal. f_equal. lia.
Qed.

(** The rows of a whole session. *)
Lemma run_capture_rows HDR FS gap duration w :
  (6 <= HDR)%nat -> (gap = true -> (10 <= HDR)%nat) ->
  let v := vars (snd (run_capture HDR FS gap duration w)) in
  map adc_raw (csv v)
  = map (fun s => s mod 4096)
        (samples_in (accepted_frames (session HDR FS gap duration w)))
  /\ map sample_index (csv v) = map Z.of_nat (seq 0 (length (csv v)))
  /\ total v = Z.of_nat (length (csv v)).
Proof.
  intros H6 H10. cbv zeta. rewrite (run_capture_trace HDR FS gap H6 H10).
  destruct (effects_rows gap (session HDR FS gap duration w) fresh eq_refl)
    as (H1 & H2 & H3 & _).
  cbn [fresh csv map app length] in H2, H3. rewrite Nat.sub_0_r in H3.
  repeat split; assumption.
Qed.

(** *** The [gap_flag] column *)

Lemma rows_from_unflagged samples : forall t,
  filter flagged (rows_from t (Some 0) samples) = []
  /\ Forall (fun r => gap_flag r = Some 0) (rows_from t (Some 0) samples).
Proof.
  induction samples as [|s samples IH]; intros t; [split; [reflexivity|constructor]|].
  cbn [rows_from option_map filter]. destruct (IH (t + 1)) as (H1 & H2).
  split; [exact H1|]. constructor; [reflexivity|exact H2].
Qed.

Lemma rows_from_none samples : forall t,
  Forall (fun r => gap_flag r = None) (rows_from t None samples).
Proof.
  induction samples as [|s samples IH]; intros t; [constructor|].
  cbn [rows_from option_map]. constructor; [reflexivity|apply IH].
Qed.

Lemma attempt_with_samples HDR FS w : with_samples (attempt HDR FS w).
Proof.
  pose proof (attempt_full_payload HDR FS w) as H. unfold with_samples.
  destruct (attempt HDR FS w); try exact I.
  destruct H as (Hlen & Hn). intros E. rewrite E in Hlen. cbn [length Z.of_nat] in Hlen. lia.
Qed.

Lemma verdicts_with_samples HDR FS gap fuel : forall end_time w,
  Forall with_samples (verdicts HDR FS gap fuel end_time w).
Proof.
  induction fuel as [|fuel IH]; intros end_time w; cbn [verdicts];
    destruct (now w <? end_time)%N; try constructor.
  - apply attempt_with_samples.
  - destruct (next_port _ _); [apply IH|constructor].
Qed.

Lemma session_with_samples HDR FS gap duration w :
  Forall with_samples (session HDR FS gap duration w).
Proof.
  unfold session. destruct (sync 5000 w) as [[|] w'| |]; try constructor.
  apply verdicts_with_samples.
Qed.

Local Abbreviation gapped frames :=
  (filter (fun f : bytes * bytes => gap_of true (fst f) >? 0) frames).

Lemma effects_flags vds : forall v,
  Forall with_samples vds ->
  total v = Z.of_nat (length (csv v)) ->
  Forall (fun r => gap_flag r = Some 0 \/ gap_flag r = Some 1) (csv v) ->
  (forall r, nth_error (csv v) 0 = Some r -> gap_flag r = Some 0) ->
  let v' := effects true vds v in
  Forall (fun r => gap_flag r = Some 0 \/ gap_flag r = Some 1) (csv v')
  /\ (forall r, nth_error (csv v') 0 = Some r -> gap_flag r = Some 0)
  /\ length (filter flagged (csv v'))
     = (length (filter flagged (csv v))
        + length (gapped (if total v >? 0
                          then accepted_frames vds
                          else tl (accepted_frames vds))))%nat.
Proof.
  induction vds as [|vd vds IH]; intros v Hgood Hv Hall H0; cbn [fold_left].
  - cbn [accepted_frames tl]. destruct (total v >? 0); cbn; repeat split; auto.
  - inversion Hgood as [|? ? Hvd Hrest]; subst.
    destruct vd as [w'|hdr w1|hdr p c w3|hdr p c w3];
      try (cbn [effect accepted_frames]; apply IH; assumption).
    + cbn [effect accepted_frames]. apply (IH (count_bad_crc v)); assumption.
    + cbn [with_samples] in Hvd. cbn [accepted_frames].
      pose proof (effect_accepted true hdr p c w3 v) as He.
      set (v1 := effect true (Accepted hdr p c w3) v) in *.
      destruct (samples_of p) as [|s samples] eqn:Hs; [contradiction|].
      assert (Htot : total v1 = Z.of_nat (length (csv v1))).
      { rewrite He. cbn [total csv]. rewrite length_app, rows_from_length. lia. }
      assert (Hpos : (total v1 >? 0) = true).
      { rewrite He. cbn [total]. apply Z.gtb_lt. cbn [length]. lia. }
      cbn [rows_from option_map flag_of] in He.
      destruct (rows_from_unflagged samples (total v + 1)) as (Hnone & Hzero).
      assert (Hall1 : Forall (fun r => gap_flag r = Some 0 \/ gap_flag r = Some 1) (csv v1)).
      { rewrite He. cbn [csv]. apply Forall_app. split; [assumption|].
        constructor.
        - cbn [gap_flag]. destruct ((gap_of true hdr >? 0) && (total v >? 0)); auto.
        - eapply Forall_impl; [|exact Hzero]. cbn. auto. }
      assert (H01 : forall r, nth_error (csv v1) 0 = Some r -> gap_flag r = Some 0).
      { rewrite He. cbn [csv]. intros r Hr.
        destruct (csv v) as [|r0 rows] eqn:Hcsv.
        - cbn [app nth_error] in Hr. injection Hr as <-. cbn [gap_flag].
          rewrite Hv. cbn [length]. now rewrite andb_false_r.
        - apply H0. exact Hr. }
      destruct (IH v1 Hrest Htot Hall1 H01) as (I1 & I2 & I3).
      split; [assumption|]. split; [assumption|].
      rewrite I3, Hpos. rewrite He. cbn [csv].
      rewrite filter_app, length_app. cbn [filter]. rewrite Hnone.
      unfold flagged at 2. cbn [gap_flag].
      destruct (total v >? 0); cbn [tl filter fst];
        destruct (gap_of true hdr >? 0); cbn [andb Z.eqb Pos.eqb length app]; lia.
Qed.

Lemma effects_no_flag vds : forall v,
  Forall (fun r => gap_flag r = None) (csv v) ->
  Forall (fun r => gap_flag r = None) (csv (effects false vds v)).
Proof.
  induction vds as [|vd vds IH]; intros v Hv; cbn [fold_left]; [assumption|].
  apply IH. destruct vd; try assumption.
  rewrite effect_accepted. cbn [csv flag_of]. apply Forall_app. split; [assumption|].
  apply rows_from_none.
Qed.

End SessionFacts.

(** *** The rows of the RPC loops *)

Module RPC_rows_facts.
Import RPC.

(** *** RPC_capture.py *)

Lemma capture_loop_rows_capture resps : forall v,
  RPC_capture.total v = Z.of_nat (length (RPC_capture.csv v)) ->
  exists v', RPC_capture.capture_loop resps v = Val v'
    /\ RPC_capture.total v' = Z.of_nat (length (RPC_capture.csv v'))
    /\ map snd (RPC_capture.csv v')
       = map snd (RPC_capture.csv v) ++ flat_map capture_delivered resps
    /\ map fst (RPC_capture.csv v')
       = map fst (RPC_capture.csv v)
         ++ map Z.of_nat (seq (length (RPC_capture.csv v))
                              (length (RPC_capture.csv v') - length (RPC_capture.csv v)))
    /\ (length (RPC_capture.csv v) <= length (RPC_capture.csv v'))%nat.
Proof.
  induction resps as [|resp resps IH]; intros v Hv.
  - exists v. cbn. rewrite Nat.sub_diag, !app_nil_r. repeat split; [assumption|lia].
  - cbn [RPC_capture.capture_loop flat_map]. unfold capture_delivered at 1.
    destruct (RPC_capture_facts.on_response_cases v resp)
      as [(Hp & ->)|(seq & samples & Hp & ->)]; rewrite Hp; cbn [py_bind].
    + match goal with |- context [RPC_capture.capture_loop resps ?u] =>
        destruct (IH u Hv) as (v' & -> & H1 & H2 & H3 & H4) end.
      exists v'. cbn [RPC_capture.csv] in *. repeat split; assumption.
    + rewrite RPC_capture_facts.write_samples_spec_capture.
      cbn [RPC_capture.total RPC_capture.csv RPC_capture.bad RPC_capture.empty
           RPC_capture.last_seq RPC_capture.seq_errors].
      match goal with |- context [RPC_capture.capture_loop resps ?u] =>
        destruct (IH u) as (v' & -> & H1 & H2 & H3 & H4) end.
      { cbn [RPC_capture.total RPC_capture.csv].
        rewrite length_app, length_combine, length_map, length_seq, Nat.min_id. lia. }
      exists v'. cbn [RPC_capture.csv] in *. split; [reflexivity|].
      rewrite length_app, length_combine, length_map, length_seq, Nat.min_id in *.
      rewrite map_app in H2, H3.
      rewrite WordFacts.combine_snd in H2 by now rewrite length_map, length_seq.
      rewrite WordFacts.combine_fst in H3 by now rewrite length_map, length_seq.
      split; [assumption|]. split; [now rewrite H2, <- app_assoc|].
      split; [|lia].
      rewrite H3, <- app_assoc. f_equal.
      rewrite Hv, WordFacts.seq_from, <- map_app. f_equal.
      set (a := length (RPC_capture.csv v)) in *. set (n := length samples) in *.
      set (c := length (RPC_capture.csv v')) in *.
      replace (c - a)%nat with (n + (c - (a + n)))%nat by lia.
      now rewrite seq_app.
Qed.

Lemma capture_delivered_range resp : Forall (fun s => 0 <= s < 16384) (capture_delivered resp).
Proof.
  unfold capture_delivered.
  destruct (RPC_capture_facts.parse_frame_cases_capture resp) as [->|(buf0 & _ & _ & ->)];
    [constructor|].
  unfold RPC_capture.samples_of. apply Forall_map, Forall_forall. intros u _.
  rewrite land_0x3FFF. apply Z.mod_pos_bound. lia.
Qed.

End RPC_rows_facts.

Module Stamped_rows_facts.
Import RPC.

Lemma triples_shape n : forall bs t,
  (length bs <= n)%nat ->
  length (snd (RPC_sample_csv.triples bs t)) = length (fst (RPC_sample_csv.triples bs t))
  /\ Forall (fun s => 0 <= s < 65536) (fst (RPC_sample_csv.triples bs t))
  /\ stepwise t (snd (RPC_sample_csv.triples bs t)).
Proof.
  induction n as [|n IH]; intros bs t Hn.
  - destruct bs; [|cbn in Hn; lia]. cbn. repeat split. constructor.
  - destruct bs as [|lo [|hi [|dt bs]]]; try (cbn; repeat split; constructor).
    cbn [RPC_sample_csv.triples fst snd length stepwise].
    destruct (IH bs (t + b2z dt) ltac:(cbn in Hn; lia)) as (H1 & H2 & H3).
    pose proof (SerialFacts.b2z_range lo). pose proof (SerialFacts.b2z_range hi).
    pose proof (SerialFacts.b2z_range dt).
    split; [now rewrite H1|]. split; [|split; [lia|assumption]].
    constructor; [cbn [le_uint]; lia|assumption].
Qed.

Lemma stepwise_nth timestamps : forall t i a b,
  stepwise t timestamps ->
  nth_error timestamps i = Some a -> nth_error timestamps (S i) = Some b ->
  a <= b <= a + 255.
Proof.
  induction timestamps as [|x rest IH]; intros t i a b Hs Ha Hb; [destruct i; discriminate|].
  cbn [stepwise] in Hs. destruct Hs as (_ & Hs).
  destruct i as [|i].
  - cbn in Ha. injection Ha as ->. destruct rest as [|y rest]; [discriminate|].
    cbn in Hb. injection Hb as ->. cbn [stepwise] in Hs. tauto.
  - apply (IH x i a b Hs); assumption.
Qed.

Local Abbreviation view :=
  (fun r => (RPC_sample_csv.adc_raw r, RPC_sample_csv.timestamp_ms r)).

Lemma write_samples_rows_stamped pairs : forall v,
  let v' := RPC_sample_csv.write_samples pairs v in
  RPC_sample_csv.total v' = RPC_sample_csv.total v + Z.of_nat (length pairs)
  /\ map view (RPC_sample_csv.csv v') = map view (RPC_sample_csv.csv v) ++ pairs
  /\ map RPC_sample_csv.sample_index (RPC_sample_csv.csv v')
     = map RPC_sample_csv.sample_index (RPC_sample_csv.csv v)
       ++ map (fun i => RPC_sample_csv.total v + Z.of_nat i) (seq 0 (length pairs))
  /\ length (RPC_sample_csv.csv v') = (length (RPC_sample_csv.csv v) + length pairs)%nat.
Proof.
  induction pairs as [|[raw ts] pairs IH]; intros v; cbv zeta.
  - cbn. rewrite !app_nil_r. repeat split; lia.
  - cbn [RPC_sample_csv.write_samples].
    match goal with |- context [RPC_sample_csv.write_samples pairs ?u] =>
      destruct (IH u) as (H1 & H2 & H3 & H4) end.
    cbv zeta in *. cbn [RPC_sample_csv.total RPC_sample_csv.csv] in *.
    rewrite H1, H2, H3, H4. rewrite !map_app, !length_app, <- !app_assoc.
    cbn [map length app seq RPC_sample_csv.adc_raw RPC_sample_csv.timestamp_ms
         RPC_sample_csv.sample_index].
    repeat split; try lia.
    f_equal. f_equal; [f_equal; lia|].
    rewrite <- seq_shift, map_map. apply map_ext. intros i. lia.
Qed.

Lemma capture_loop_rows_stamped resps : forall v,
  RPC_sample_csv.total v = Z.of_nat (length (RPC_sample_csv.csv v)) ->
  exists v', RPC_sample_csv.capture_loop resps v = Val v'
    /\ RPC_sample_csv.total v' = Z.of_nat (length (RPC_sample_csv.csv v'))
    /\ map view (RPC_sample_csv.csv v')
       = map view (RPC_sample_csv.csv v) ++ flat_map stamped_delivered resps
    /\ map RPC_sample_csv.sample_index (RPC_sample_csv.csv v')
       = map RPC_sample_csv.sample_index (RPC_sample_csv.csv v)
         ++ map Z.of_nat (seq (length (RPC_sample_csv.csv v))
                              (length (RPC_sample_csv.csv v')
                               - length (RPC_sample_csv.csv v)))
    /\ (length (RPC_sample_csv.csv v) <= length (RPC_sample_csv.csv v'))%nat.
Proof.
  induction resps as [|resp resps IH]; intros v Hv.
  - exists v. cbn. rewrite Nat.sub_diag, !app_nil_r. repeat split; [assumption|lia].
  - cbn [RPC_sample_csv.capture_loop flat_map]. unfold stamped_delivered at 1.
    unfold RPC_sample_csv.on_response.
    destruct (RPC_sample_facts.parse_frame_cases_stamped resp) as [H|(buf0 & _ & Hwf & H)];
      rewrite H; cbn [py_bind].
    + match goal with |- context [RPC_sample_csv.capture_loop resps ?u] =>
        destruct (IH u Hv) as (v' & -> & H1 & H2 & H3 & H4) end.
      exists v'. cbn [RPC_sample_csv.csv combine app] in *. repeat split; assumption.
    + destruct (RPC_sample_facts.decoded_length _ Hwf) as (Hn & Hlen & H1).
      destruct (RPC_sample_csv.decoded (RPC_sample_csv.strip_overflow buf0))
        as [[|sample samples] timestamps] eqn:Hd; [cbn [fst length] in Hn; lia|].
      cbn [py_bind].
      set (pairs := combine (sample :: samples) timestamps).
      destruct (write_samples_rows_stamped pairs v) as (W1 & W2 & W3 & W4). cbv zeta in *.
      match goal with |- context [RPC_sample_csv.capture_loop resps ?u] =>
        destruct (IH u) as (v' & -> & I1 & I2 & I3 & I4) end.
      { rewrite W1, W4. lia. }
      exists v'. split; [reflexivity|]. split; [assumption|].
      split; [now rewrite I2, W2, <- app_assoc|]. split; [|lia].
      rewrite I3, W3, <- app_assoc. f_equal.
      rewrite Hv, WordFacts.seq_from, <- map_app. f_equal.
      rewrite W4 in *.
      set (a := length (RPC_sample_csv.csv v)) in *. set (n := length pairs) in *.
      set (c := length (RPC_sample_csv.csv v')) in *.
      replace (c - a)%nat with (n + (c - (a + n)))%nat by lia.
      now rewrite seq_app.
Qed.

(** What [parse_frame] returns, if anything. *)
Lemma parse_frame_shape resp samples timestamps :
  RPC_sample_csv.parse_frame resp = Val (samples, timestamps) ->
  length timestamps = length samples
  /\ (length samples <= 255)%nat
  /\ Forall (fun s => 0 <= s < 65536) samples
  /\ exists t0, 0 <= t0 < 2 ^ 32 /\ stepwise t0 timestamps.
Proof.
  intros H.
  destruct (RPC_sample_facts.parse_frame_cases_stamped resp) as [H0|(buf0 & _ & Hwf & H0)];
    rewrite H0 in H.
  - assert (E : (@nil Z, @nil Z) = (samples, timestamps)) by congruence.
    injection E as <- <-. repeat split; try constructor; try (cbn; lia).
    exists 0. cbn. lia.
  - destruct (RPC_sample_facts.decoded_length _ Hwf) as (Hn & Hlen & _).
    set (buf := RPC_sample_csv.strip_overflow buf0) in *.
    assert (E : RPC_sample_csv.decoded buf = (samples, timestamps)) by congruence.
    assert (T : length (snd (RPC_sample_csv.decoded buf))
                = length (fst (RPC_sample_csv.decoded buf))
                /\ Forall (fun s => 0 <= s < 65536) (fst (RPC_sample_csv.decoded buf))
                /\ stepwise (RPC_sample_csv.t0_of buf) (snd (RPC_sample_csv.decoded buf)))
      by (unfold RPC_sample_csv.decoded; eapply triples_shape; apply Nat.le_refl).
    rewrite E in T, Hn. cbn [fst snd] in T, Hn. destruct T as (T1 & T2 & T3).
    split; [assumption|]. split.
    + assert (RPC_sample_csv.count_of buf <= 255).
      { unfold RPC_sample_csv.count_of. destruct buf as [|b ?]; cbn [firstn le_uint]; [lia|].
        pose proof (SerialFacts.b2z_range b). lia. }
      lia.
    + split; [assumption|]. exists (RPC_sample_csv.t0_of buf). split; [|assumption].
      unfold RPC_sample_csv.t0_of.
      apply (WordFacts.le_uint_below _ 4). rewrite length_firstn. lia.
Qed.

End Stamped_rows_facts.

(** *** The overflow marker *)

Module OverflowFacts.
Import RPC.

Lemma marker_is_no_digit rest : hex_or_raw (x21 :: rest) = x21 :: rest.
Proof.
  unfold hex_or_raw, looks_like_hex.
  change (forallb in_hex_chars (x21 :: rest)) with false.
  now rewrite andb_false_r.
Qed.

Lemma to_buf_marker rest :
  to_buf (PyBytes (x21 :: rest)) = Some (x21 :: rest).
Proof. cbn [to_buf truthy negb]. now rewrite marker_is_no_digit. Qed.

Lemma capture_marker_stripped rest :
  RPC_capture.well_formed (x21 :: rest) = true ->
  RPC_capture.parse_buf (x21 :: rest) = Val (None, None).
Proof.
  intros Hwf. rewrite RPC_capture_facts.parse_buf_spec_capture. cbv zeta.
  change (RPC_capture.strip_overflow (x21 :: rest)) with rest.
  destruct (RPC_capture.well_formed rest) eqn:Hwf'; [|reflexivity].
  unfold RPC_capture.well_formed in Hwf, Hwf'.
  rewrite !andb_true_iff in Hwf, Hwf'.
  destruct Hwf as ((_ & H) & _). destruct Hwf' as ((_ & H') & _).
  apply Z.eqb_eq in H, H'. cbn [length] in H. lia.
Qed.

Lemma stamped_marker_stripped rest :
  RPC_sample_csv.well_formed (x21 :: rest) = true ->
  RPC_sample_csv.parse_buf (x21 :: rest) = Val ([], []).
Proof.
  intros Hwf. rewrite RPC_sample_facts.parse_buf_spec_stamped. cbv zeta.
  unfold RPC_sample_csv.well_formed in Hwf.
  rewrite !andb_true_iff in Hwf. destruct Hwf as (((H7 & _) & H) & _).
  apply Nat.leb_le in H7. apply Z.eqb_eq in H.
  assert (Hs : RPC_sample_csv.strip_overflow (x21 :: rest) = rest).
  { unfold RPC_sample_csv.strip_overflow.
    destruct (Nat.ltb_spec 1 (length (x21 :: rest))); [reflexivity|lia]. }
  rewrite Hs.
  destruct (RPC_sample_csv.well_formed rest) eqn:Hwf'; [|reflexivity].
  unfold RPC_sample_csv.well_formed in Hwf'.
  rewrite !andb_true_iff in Hwf'. destruct Hwf' as ((_ & H') & _).
  apply Z.eqb_eq in H'.
  change (RPC_sample_csv.count_of (x21 :: rest)) with 33 in H.
  cbn [length] in H. lia.
Qed.

End OverflowFacts.

(** *** The batch scripts *)

Module SPIFacts.
Import SPI.

Lemma find_from_range sub data : forall i,
  find_from sub data i = -1
  \/ i <= find_from sub data i <= i + Z.of_nat (length data).
Proof.
  induction data as [|x data IH]; intros i; cbn [find_from].
  - destruct (starts_with sub []); [right; cbn; lia|left; reflexivity].
  - destruct (starts_with sub (x :: data)); [right; cbn [length]; lia|].
    destruct (IH (i + 1)) as [H|H]; [left; assumption|right; cbn [length]; lia].
Qed.

(** An occurrence that is found is where [find] says. *)
Lemma find_from_found sub data : forall i,
  find_from sub data i <> -1 -> 0 <= i ->
  starts_with sub (skipn (Z.to_nat (find_from sub data i - i)) data) = true.
Proof.
  induction data as [|x data IH]; intros i H Hi; cbn [find_from] in *.
  - destruct (starts_with sub []) eqn:Hs; [|contradiction].
    now rewrite Z.sub_diag.
  - destruct (starts_with sub (x :: data)) eqn:Hs.
    + now rewrite Z.sub_diag.
    + specialize (IH (i + 1) H ltac:(lia)).
      destruct (find_from_range sub data (i + 1)) as [E|E]; [contradiction|].
      replace (Z.to_nat (find_from sub data (i + 1) - i))
        with (S (Z.to_nat (find_from sub data (i + 1) - (i + 1)))) by lia.
      exact IH.
Qed.

(** No occurrence starts before the one [find] gives. *)
Lemma find_from_first sub data : forall i k,
  0 <= i -> (Z.of_nat k < find_from sub data i - i \/ find_from sub data i = -1) ->
  (k <= length data)%nat ->
  starts_with sub (skipn k data) = false.
Proof.
  induction data as [|x data IH]; intros i k Hi Hk Hlen; cbn [find_from] in *.
  - destruct (starts_with sub []) eqn:Hs.
    + destruct Hk; lia.
    + destruct k; [assumption|cbn in Hlen; lia].
  - destruct (starts_with sub (x :: data)) eqn:Hs.
    + destruct Hk; lia.
    + destruct k as [|k]; [assumption|].
      cbn [skipn]. apply (IH (i + 1)); [lia| |cbn in Hlen; lia].
      destruct Hk as [Hk|Hk]; [left; lia|right; assumption].
Qed.

Lemma aligned_starts_with (data : bytes) :
  bytes_eqb (slice data 0 2) [x5a; xa5] = starts_with [x5a; xa5] data.
Proof.
  unfold slice. change (Z.to_nat (2 - 0)) with 2%nat. change (Z.to_nat 0) with 0%nat.
  cbn [skipn].
  destruct data as [|a [|b rest]]; cbn [firstn bytes_eqb starts_with];
    rewrite ?andb_false_r, ?andb_true_r; reflexivity.
Qed.

Lemma slice_length data a b :
  0 <= a -> a <= b ->
  length (slice data a b) = Nat.min (Z.to_nat (b - a)) (length data - Z.to_nat a).
Proof.
  intros Ha Hb. unfold slice. now rewrite length_firstn, length_skipn.
Qed.

(** The late-marker test of the three batch scripts, on a transfer of
    [TOTAL_BYTES] bytes that does not start with the marker: it passes for
    the offsets 1 and 2 only, and the slice it takes is then short. *)
Lemma late_marker (data : bytes) :
  length data = 2050%nat ->
  starts_with [x5a; xa5] data = false ->
  let offset := find data [x5a; xa5] in
  negb (offset =? -1) && (Z.of_nat (length data) - offset >=? 1024 * 2)
  = (offset =? 1) || (offset =? 2)
  /\ ((offset =? 1) || (offset =? 2) = true ->
      length (slice data (offset + 2) (offset + 2 + 1024 * 2))
      = Z.to_nat (2048 - offset)).
Proof.
  intros Hlen Hs. cbv zeta. unfold find.
  destruct data as [|x data]; [discriminate|].
  cbn [find_from]. rewrite Hs.
  destruct (find_from_range [x5a; xa5] data (0 + 1)) as [E|E].
  - rewrite E. split; [reflexivity|discriminate].
  - set (offset := find_from [x5a; xa5] data (0 + 1)) in *.
    split.
    + rewrite Hlen.
      destruct (Z.eqb_spec offset (-1)); [lia|].
      destruct (Z.eqb_spec offset 1); destruct (Z.eqb_spec offset 2);
        destruct (Z.geb_spec (Z.of_nat 2050 - offset) (1024 * 2)); cbn; try reflexivity; lia.
    + intros H. rewrite slice_length by lia. rewrite Hlen.
      apply orb_true_iff in H. destruct H as [H|H]; apply Z.eqb_eq in H; rewrite H;
        reflexivity.
Qed.


Lemma csvfile_on_batch v data :
  length data = 2050%nat ->
  csvfile.on_batch v data
  = if starts_with [x5a; xa5] data
    then Val (csvfile.write_samples (map to_int16 (words16 (skipn 2 data))) v)
    else if marker_late data then Exn StructError else Val v.
Proof.
  intros Hlen. unfold csvfile.on_batch, csvfile.select_payload, csvfile.MAGIC,
    csvfile.BATCH_SIZE, marker_late.
  rewrite aligned_starts_with.
  destruct (starts_with [x5a; xa5] data) eqn:Hs.
  - assert (Hp : length (skipn 2 data) = (2 * 1024)%nat) by (rewrite length_skipn; lia).
    destruct (skipn 2 data) as [|b rest] eqn:Hsk; [discriminate|].
    change (Z.to_nat 1024) with 1024%nat.
    now rewrite (WordFacts.unpack_h_exact_ok 1024 (b :: rest) Hp).
  - destruct (late_marker data Hlen Hs) as (Hc & Hl). cbv zeta in Hc, Hl.
    cbv zeta. rewrite Hc. cbn [negb andb].
    destruct ((find data [x5a; xa5] =? 1) || (find data [x5a; xa5] =? 2)) eqn:Ho;
      [|reflexivity].
    specialize (Hl eq_refl).
    destruct (slice data (find data [x5a; xa5] + 2) (find data [x5a; xa5] + 2 + 1024 * 2))
      as [|b rest] eqn:Hsl.
    + apply orb_true_iff in Ho. cbn [length] in Hl.
      destruct Ho as [Ho|Ho]; apply Z.eqb_eq in Ho; rewrite Ho in Hl; discriminate.
    + change (Z.to_nat 1024) with 1024%nat.
      rewrite WordFacts.unpack_h_exact_short; [reflexivity|].
      rewrite Hl. apply orb_true_iff in Ho.
      destruct Ho as [Ho|Ho]; apply Z.eqb_eq in Ho; rewrite Ho; discriminate.
Qed.

Lemma csvlist_on_batch csv data :
  length data = 2050%nat ->
  csvlist.on_batch csv data
  = if starts_with [x5a; xa5] data
    then Val (csv ++ map to_int16 (words16 (skipn 2 data)))
    else if marker_late data then Exn StructError else Val csv.
Proof.
  intros Hlen. unfold csvlist.on_batch, csvlist.MAGIC, csvlist.BATCH_SIZE, marker_late.
  rewrite aligned_starts_with.
  destruct (starts_with [x5a; xa5] data) eqn:Hs.
  - assert (Hp : length (skipn 2 data) = (2 * 1024)%nat) by (rewrite length_skipn; lia).
    change (Z.to_nat 1024) with 1024%nat.
    now rewrite (WordFacts.unpack_h_exact_ok 1024 _ Hp).
  - destruct (late_marker data Hlen Hs) as (Hc & Hl). cbv zeta in Hc, Hl.
    cbv zeta. rewrite Hc. cbn [negb andb].
    destruct ((find data [x5a; xa5] =? 1) || (find data [x5a; xa5] =? 2)) eqn:Ho;
      [|reflexivity].
    specialize (Hl eq_refl).
    change (Z.to_nat 1024) with 1024%nat.
    rewrite WordFacts.unpack_h_exact_short; [reflexivity|].
    rewrite Hl. apply orb_true_iff in Ho.
    destruct Ho as [Ho|Ho]; apply Z.eqb_eq in Ho; rewrite Ho; discriminate.
Qed.

Lemma batch_samples_length data :
  length data = 2050%nat ->
  length (batch_samples data) = if starts_with [x5a; xa5] data then 1024%nat else 0%nat.
Proof.
  intros Hlen. unfold batch_samples. destruct (starts_with [x5a; xa5] data); [|reflexivity].
  rewrite length_map. apply SerialFacts.words16_length. rewrite length_skipn. lia.
Qed.

Lemma csvfile_write_samples samples : forall v,
  csvfile.sample_count v = Z.of_nat (length (csvfile.csv v)) ->
  map fst (csvfile.csv v) = map Z.of_nat (seq 0 (length (csvfile.csv v))) ->
  let v' := csvfile.write_samples samples v in
  csvfile.sample_count v' = Z.of_nat (length (csvfile.csv v'))
  /\ map fst (csvfile.csv v') = map Z.of_nat (seq 0 (length (csvfile.csv v')))
  /\ map snd (csvfile.csv v') = map snd (csvfile.csv v) ++ samples.
Proof.
  induction samples as [|s samples IH]; intros v Hc Hi; cbv zeta.
  - cbn. rewrite app_nil_r. repeat split; assumption.
  - cbn [csvfile.write_samples].
    match goal with |- context [csvfile.write_samples samples ?u] =>
      destruct (IH u) as (H1 & H2 & H3) end.
    + cbn [csvfile.sample_count csvfile.csv]. rewrite length_app. cbn [length]. lia.
    + cbn [csvfile.csv]. rewrite map_app, length_app, Hi. cbn [length map fst].
      rewrite seq_app, map_app. cbn [seq map Nat.add]. now rewrite Hc.
    + cbv zeta in *. cbn [csvfile.csv] in H3. rewrite map_app in H3. cbn [map snd] in H3.
      rewrite <- app_assoc in H3. repeat split; assumption.
Qed.

Lemma csvfile_loop batches : forall v,
  Forall (fun d => length d = 2050%nat) batches ->
  Forall (fun d => marker_late d = false) batches ->
  csvfile.sample_count v = Z.of_nat (length (csvfile.csv v)) ->
  map fst (csvfile.csv v) = map Z.of_nat (seq 0 (length (csvfile.csv v))) ->
  exists v', csvfile.run_to_csv_loop batches v = (v', None)
    /\ csvfile.sample_count v' = Z.of_nat (length (csvfile.csv v'))
    /\ map fst (csvfile.csv v') = map Z.of_nat (seq 0 (length (csvfile.csv v')))
    /\ map snd (csvfile.csv v') = map snd (csvfile.csv v) ++ flat_map batch_samples batches.
Proof.
  induction batches as [|d batches IH]; intros v Hlen Hok Hc Hi.
  - exists v. cbn. rewrite app_nil_r. repeat split; assumption.
  - inversion Hlen as [|? ? Hd Hlen']; subst. inversion Hok as [|? ? Hl Hok']; subst.
    cbn [csvfile.run_to_csv_loop flat_map]. rewrite (csvfile_on_batch v d Hd), Hl.
    unfold batch_samples at 1.
    destruct (starts_with [x5a; xa5] d).
    + destruct (csvfile_write_samples (map to_int16 (words16 (skipn 2 d))) v Hc Hi)
        as (W1 & W2 & W3). cbv zeta in *.
      destruct (IH _ Hlen' Hok' W1 W2) as (v' & -> & I1 & I2 & I3).
      exists v'. split; [reflexivity|]. split; [assumption|]. split; [assumption|].
      now rewrite I3, W3, <- app_assoc.
    + destruct (IH v Hlen' Hok' Hc Hi) as (v' & -> & I1 & I2 & I3).
      exists v'. repeat split; assumption.
Qed.

Lemma csvfile_loop_app pre : forall v d post,
  Forall (fun d => length d = 2050%nat) pre ->
  Forall (fun d => marker_late d = false) pre ->
  length d = 2050%nat -> marker_late d = true ->
  csvfile.run_to_csv_loop (pre ++ d :: post) v
  = (fst (csvfile.run_to_csv_loop pre v), Some StructError).
Proof.
  induction pre as [|b pre IH]; intros v d post Hlen Hok Hd Hl.
  - cbn [app csvfile.run_to_csv_loop fst]. rewrite (csvfile_on_batch v d Hd), Hl.
    unfold marker_late in Hl. apply andb_true_iff in Hl. destruct Hl as (Hl & _).
    apply negb_true_iff in Hl. now rewrite Hl.
  - inversion Hlen as [|? ? Hb Hlen']; subst. inversion Hok as [|? ? Hbl Hok']; subst.
    cbn [app csvfile.run_to_csv_loop]. rewrite (csvfile_on_batch v b Hb), Hbl.
    destruct (starts_with [x5a; xa5] b); now apply IH.
Qed.

Lemma debug_on_batch data :
  length data = 2050%nat ->
  length (debug.on_batch data)
  = if starts_with [x5a; xa5] data then 2048%nat
    else if find data [x5a; xa5] =? 1 then 2047%nat
    else if find data [x5a; xa5] =? 2 then 2046%nat
    else 0%nat.
Proof.
  intros Hlen. unfold debug.on_batch, debug.MAGIC, debug.BATCH_SIZE.
  rewrite aligned_starts_with.
  destruct (starts_with [x5a; xa5] data) eqn:Hs.
  - rewrite length_skipn. lia.
  - destruct (late_marker data Hlen Hs) as (Hc & Hl). cbv zeta in Hc, Hl.
    cbv zeta. rewrite Hc.
    remember (find data [x5a; xa5]) as offset eqn:Ho.
    destruct (Z.eqb_spec offset 1) as [E|E].
    + cbn [orb]. rewrite (Hl eq_refl). subst offset. rewrite E. reflexivity.
    + destruct (Z.eqb_spec offset 2) as [E2|E2]; [|reflexivity].
      cbn [orb]. rewrite (Hl eq_refl). subst offset. rewrite E2. reflexivity.
Qed.

(** *** speed.py *)

Lemma speed_on_batch all_data raw :
  length raw = 1026%nat ->
  speed.on_batch all_data raw
  = Val (all_data ++ if le_uint (firstn 2 raw) =? 0xABCD
                     then words16 (skipn 2 raw) else []).
Proof.
  intros H. unfold speed.on_batch, speed.BATCH_SIZE.
  change (Z.to_nat (512 + 1)) with 513%nat.
  rewrite (WordFacts.unpack_H_exact_ok 513 raw H). cbn [py_bind].
  destruct raw as [|a [|b rest]]; try discriminate.
  cbn [words16 firstn skipn].
  destruct (le_uint [a; b] =? 43981); [reflexivity|now rewrite app_nil_r].
Qed.

Lemma speed_loop batches : forall all_data,
  Forall (fun raw : bytes => length raw = 1026%nat) batches ->
  speed.run_loop batches all_data
  = Val (all_data ++ flat_map (fun raw => if le_uint (firstn 2 raw) =? 0xABCD
                                          then words16 (skipn 2 raw) else []) batches).
Proof.
  induction batches as [|raw batches IH]; intros all_data H.
  - cbn. now rewrite app_nil_r.
  - inversion H as [|? ? Hr Hrest]; subst.
    cbn [speed.run_loop flat_map]. rewrite (speed_on_batch all_data raw Hr). cbn [py_bind].
    rewrite IH by assumption. now rewrite <- app_assoc.
Qed.

Lemma speed_loop_short pre : forall all_data raw post,
  Forall (fun raw : bytes => length raw = 1026%nat) pre ->
  length raw <> 1026%nat ->
  speed.run_loop (pre ++ raw :: post) all_data = Exn StructError.
Proof.
  induction pre as [|b pre IH]; intros all_data raw post H Hr.
  - cbn [app speed.run_loop]. unfold speed.on_batch, speed.BATCH_SIZE.
    change (Z.to_nat (512 + 1)) with 513%nat.
    now rewrite (WordFacts.unpack_H_exact_short 513 raw Hr).
  - inversion H as [|? ? Hb Hrest]; subst.
    cbn [app speed.run_loop]. rewrite (speed_on_batch all_data b Hb). cbn [py_bind].
    now apply IH.
Qed.

(** *** raw_adc_csv.py *)

Lemma raw_on_batch v raw :
  length raw = 8%nat ->
  raw_adc_csv.on_batch v raw
  = Val (if le_uint (skipn 6 raw) =? 0xABCD
         then (fst v + 1, snd v ++ [le_uint (firstn 2 raw)])
         else v).
Proof.
  intros H. unfold raw_adc_csv.on_batch, raw_adc_csv.MAGIC_MARKER.
  rewrite (WordFacts.unpack_H_exact_ok 4 raw H). cbn [py_bind].
  destruct raw as [|b0 [|b1 [|b2 [|b3 [|b4 [|b5 [|b6 [|b7 [|? ?]]]]]]]]]; try discriminate.
  cbn [words16 nth_error skipn firstn].
  now destruct (le_uint [b6; b7] =? 43981).
Qed.

Lemma raw_loop batches : forall v,
  Forall (fun raw : bytes => length raw = 8%nat) batches ->
  raw_adc_csv.capture_loop batches v
  = let rows := flat_map (fun raw => if le_uint (skipn 6 raw) =? 0xABCD
                                     then [le_uint (firstn 2 raw)] else []) batches in
    Val (fst v + Z.of_nat (length rows), snd v ++ rows).
Proof.
  induction batches as [|raw batches IH]; intros v H; cbv zeta.
  - cbn. rewrite app_nil_r, Z.add_0_r. now destruct v.
  - inversion H as [|? ? Hr Hrest]; subst.
    cbn [raw_adc_csv.capture_loop flat_map]. rewrite (raw_on_batch v raw Hr). cbn [py_bind].
    rewrite IH by assumption. cbv zeta.
    destruct (le_uint (skipn 6 raw) =? 43981); cbn [fst snd app length].
    + rewrite <- app_assoc. cbn [app]. f_equal. f_equal. lia.
    + reflexivity.
Qed.

End SPIFacts.

(** *** The live monitor *)

Module MonitorFacts.
Import Serial SerialFacts SPI.








Section Frame.

Variables (t d1 d2 : N) (whdr wpay : list (N * byte)).
Hypothesis first_in_time : (d1 <= READ_TIMEOUT)%N.
Hypothesis second_in_time : (d2 <= READ_TIMEOUT)%N.
Hypothesis header_whole : length whdr = 6%nat.
Hypothesis header_in_time : (span whdr <= READ_TIMEOUT)%N.
Hypothesis payload_in_time : (span wpay <= READ_TIMEOUT)%N.

Local Abbreviation nsamp := (le_uint (skipn 4 (map snd whdr))).




End Frame.

End MonitorFacts.

(** *** The blob check as a residue *)

Module ResidueFacts.

Lemma last_two (buf : bytes) :
  (2 <= length buf)%nat ->
  exists lo hi, buf = drop_last2 buf ++ [lo; hi] /\ trailer buf = le_uint [lo; hi].
Proof.
  intros H. unfold drop_last2, trailer.
  pose proof (firstn_skipn (length buf - 2) buf) as Hs.
  assert (Hl : length (skipn (length buf - 2) buf) = 2%nat) by (rewrite length_skipn; lia).
  destruct (skipn (length buf - 2) buf) as [|lo [|hi [|? ?]]]; try discriminate.
  exists lo, hi. split; [now symmetry|reflexivity].
Qed.

Lemma blob_check (buf : bytes) :
  (2 <= length buf)%nat ->
  crc16_ibm (drop_last2 buf) = trailer buf <-> crc16_ibm buf = 0.
Proof.
  intros H. destruct (last_two buf H) as (lo & hi & Hb & Ht).
  rewrite Ht.
  replace (crc16_ibm buf) with (crc16_ibm (drop_last2 buf ++ [lo; hi])) by now rewrite <- Hb.
  rewrite ChecksumFacts.crc16_ibm_residue. split; intros E; now symmetry.
Qed.

Lemma crc16_byte_error a b b' c :
  b <> b' -> crc16 (a ++ b :: c) <> crc16 (a ++ b' :: c).
Proof.
  intros Hb H. unfold crc16 in H. rewrite !fold_left_app in H. cbn [fold_left] in H.
  assert (Hs : 0 <= fold_left crc16_byte a 0xFFFF < 65536)
    by (apply ChecksumFacts.crc16_fold_range; lia).
  apply ChecksumFacts.crc16_fold_inj in H; try apply ChecksumFacts.crc16_byte_range.
  now apply ChecksumFacts.crc16_byte_inj_byte in H.
Qed.

Lemma crc16_ibm_byte_error a b b' c :
  b <> b' -> crc16_ibm (a ++ b :: c) <> crc16_ibm (a ++ b' :: c).
Proof.
  intros Hb H. rewrite !ChecksumFacts.crc16_ibm_fold, !fold_left_app in H.
  cbn [fold_left] in H.
  assert (Hs : 0 <= fold_left crc16_ibm_byte a 0 < 65536)
    by (apply ChecksumFacts.ibm_fold_range; lia).
  apply ChecksumFacts.ibm_fold_inj in H; try now apply ChecksumFacts.crc16_ibm_byte_range.
  now apply ChecksumFacts.crc16_ibm_byte_inj_byte in H.
Qed.

End ResidueFacts.

(** *** Bytes between two frames *)

Module StrayFacts.
Import SerialFacts.

(** Two bytes that are not the marker where the marker is expected: they
    are dropped, and the search starts behind them. *)
Lemma stay_framed_stray (ws : list (N * byte)) t rest v :
  length ws = 2%nat -> punctual ws = true -> map snd ws <> MAGIC_B ->
  stay_framed (mkState (mkWorld t (ws ++ rest)) v)
  = resync (mkState (mkWorld (t + span ws) rest) v).
Proof.
  intros Hlen Hp Hne. unfold stay_framed.
  rewrite (bind_io_ok v (read_exact_punctual 2 t ws rest Hlen Hp)).
  destruct (bytes_eqb (map snd ws) MAGIC_B) eqn:E; [|reflexivity].
  apply WordFacts.bytes_eqb_eq in E. contradiction.
Qed.

Lemma resync_punctual (wg wm : list (N * byte)) t rest v :
  contains_magic (map snd wg) = false ->
  map snd wm = MAGIC_B ->
  punctual (wg ++ wm) = true ->
  (span (wg ++ wm) < 2000)%N ->
  resync (mkState (mkWorld t (wg ++ wm ++ rest)) v)
  = Ok Continue (mkState (mkWorld (t + span (wg ++ wm)) rest) v).
Proof.
  intros Hno Hm Hp Hs. unfold resync.
  now rewrite (bind_io_ok v (sync_punctual wg wm 2000 t rest Hno Hm Hp Hs)).
Qed.

End StrayFacts.

(** * More properties of the code *)

(** X2 -- [read_exact] is all or nothing, in bounded time.  [read_exact n]
    returns exactly the next [n] bytes of the port, or raises
    [TimeoutError]; it never returns a short buffer.  When it raises, the
    bytes it had already read (fewer than [n]) are gone from the port.  It
    returns within [n] read timeouts, and a raise comes no sooner than one
    timeout after the call.  On a stream none of whose bytes arrives more
    than a timeout after the byte before, it succeeds however long the whole
    takes. *)
Theorem read_exact_all_or_nothing :
  (forall n w,
      match read_exact n w with
      | Ok b w' =>
          length b = n
          /\ map snd (wire w) = b ++ map snd (wire w')
          /\ (now w <= now w' <= now w + N.of_nat n * READ_TIMEOUT)%N
      | Raise e w' =>
          e = TimeoutError
          /\ (exists lost, map snd (wire w) = lost ++ map snd (wire w')
                /\ (length lost < n)%nat)
          /\ (now w + READ_TIMEOUT <= now w' <= now w + N.of_nat n * READ_TIMEOUT)%N
      | Fuel => False
      end)
  /\ (forall n t a rest,
        length a = n -> punctual a = true ->
        read_exact n (mkWorld t (a ++ rest))
        = Ok (map snd a) (mkWorld (t + span a) rest)).
Proof.
  split; [|exact SerialFacts.read_exact_punctual].
  intros n w. unfold read_exact.
  pose proof (PortFacts.read_exact_loop_time n n [] w ltac:(cbn; lia) ltac:(lia)) as H.
  cbn [length] in H. rewrite Nat.sub_0_r in H.
  destruct (read_exact_loop n n [] w) as [b w'|e w'|]; [| |assumption].
  - destruct H as (more & -> & Hlen & Hb & Hn). cbn [app] in *. repeat split; tauto.
  - destruct H as (-> & (lost & Hlost & Hlen) & Hn). cbn [plus] in Hlen.
    split; [reflexivity|]. split; [exists lost; split; assumption|assumption].
Qed.

(** X3 -- [sync] stops at the first marker.  [sync] always returns.  When
    it returns [True] the bytes it has consumed end with 0x5A 0xA5 and hold
    no earlier occurrence of the marker; when it returns [False] they hold
    no marker and the deadline has passed.  Either way it returns less than
    one read timeout after its deadline. *)
Theorem sync_finds_first_marker :
  forall timeout w,
    exists ok w',
      sync timeout w = Ok ok w'
      /\ (exists consumed,
            map snd (wire w) = consumed ++ map snd (wire w')
            /\ if ok
               then exists g, consumed = g ++ MAGIC_B
                              /\ contains_magic (g ++ [x5a]) = false
               else contains_magic consumed = false
                    /\ (now w + timeout <= now w')%N)
      /\ (now w <= now w' < now w + timeout + READ_TIMEOUT)%N.
Proof.
  intros timeout w.
  destruct (SerialFacts.sync_spec timeout w) as (ok & w' & H & _).
  exists ok, w'. split; [assumption|].
  unfold sync in H.
  apply PortFacts.sync_loop_sound in H; [|cbn; lia].
  destruct H as (c & Hc & Hok & Hn & Ht). cbn [app] in Hok.
  split; [exists c; split; assumption|].
  unfold READ_TIMEOUT in *. lia.
Qed.

(** X4 -- The rows of a serial session.  In both serial scripts the
    [adc_raw] column is, in order, the samples of the accepted frames
    reduced modulo 4096 (nothing else is written, nothing of an accepted
    frame is left out); the rows are numbered 0, 1, 2, ... without a hole,
    whatever was rejected in between; and [total] is the number of rows. *)
Theorem serial_csv_content :
  (forall duration w,
      let v := vars (snd (ADC_csv_gather.run_capture duration w)) in
      map adc_raw (csv v)
      = map (fun s => s mod 4096)
            (flat_map (fun f => samples_of (snd f))
                      (accepted_frames (session 6 512 false duration w)))
      /\ map sample_index (csv v) = map Z.of_nat (seq 0 (length (csv v)))
      /\ total v = Z.of_nat (length (csv v)))
  /\ (forall duration w,
        let v := vars (snd (ADC_readcsv_reducedclipping.run_capture duration w)) in
        map adc_raw (csv v)
        = map (fun s => s mod 4096)
              (flat_map (fun f => samples_of (snd f))
                        (accepted_frames (session 10 16384 true duration w)))
        /\ map sample_index (csv v) = map Z.of_nat (seq 0 (length (csv v)))
        /\ total v = Z.of_nat (length (csv v))).
Proof.
  split; intros duration w.
  - apply (SessionFacts.run_capture_rows 6 512 false); [lia|discriminate].
  - apply (SessionFacts.run_capture_rows 10 16384 true); lia.
Qed.

(** X5 -- The [gap_flag] column.  ADC_csv_gather.py writes no gap flag.
    In ADC_readcsv_reducedclipping.py every row carries 0 or 1; the first
    row of the file carries 0 even when the first frame reports gap cycles
    (the test [total > 0]); and the rows that carry 1 are as many as the
    accepted frames after the first whose [gap_cycles] field is positive. *)
Theorem gap_flag_column :
  (forall duration w r,
      In r (csv (vars (snd (ADC_csv_gather.run_capture duration w)))) ->
      gap_flag r = None)
  /\ (forall duration w,
        let v := vars (snd (ADC_readcsv_reducedclipping.run_capture duration w)) in
        (forall r, In r (csv v) -> gap_flag r = Some 0 \/ gap_flag r = Some 1)
        /\ (forall r, nth_error (csv v) 0 = Some r -> gap_flag r = Some 0)
        /\ length (filter flagged (csv v))
           = length (filter (fun f => gap_of true (fst f) >? 0)
                            (tl (accepted_frames (session 10 16384 true duration w))))).
Proof.
  split.
  - intros duration w. unfold ADC_csv_gather.run_capture.
    rewrite SerialFacts.run_capture_trace by (cbv; first [lia | discriminate]).
    apply Forall_forall. apply SessionFacts.effects_no_flag. constructor.
  - intros duration w. cbv zeta. unfold ADC_readcsv_reducedclipping.run_capture.
    rewrite SerialFacts.run_capture_trace by (cbv; lia).
    destruct (SessionFacts.effects_flags (session 10 16384 true duration w) fresh
                (SessionFacts.session_with_samples _ _ _ _ _) eq_refl
                (Forall_nil _))
      as (H1 & H2 & H3).
    { intros r Hr. discriminate. }
    split; [apply Forall_forall; exact H1|]. split; [exact H2|].
    exact H3.
Qed.

(** X6 -- Bytes between two frames.  After an accepted frame the loop
    reads two bytes; when they are not the marker it drops them and scans
    on behind them.  Take a stream made of the marker, a valid frame, two
    such bytes, bytes without a marker, the marker and a second valid
    frame, on which no byte comes more than a read timeout after the one
    before, the first marker is complete within the five seconds of the
    initial [sync], the bytes without a marker and the second marker take
    less than the two seconds of the resynchronisation, and the second
    marker is complete before the duration has elapsed.  The session
    delivers the two frames and nothing of what lay between them, and ends
    on the [TimeoutError] of the read after the second frame.  With one
    stray byte after the first frame the two bytes are the stray byte and
    the first byte of the next marker: the frame that marker announced is
    lost although it is valid. *)
Theorem stray_bytes_cost_a_frame :
  forall HDR FS gap (wm1 wf1 ws wlost wm3 wf3 : list (N * byte)) duration t0,
    (6 <= HDR)%nat -> (gap = true -> (10 <= HDR)%nat) ->
    map snd wm1 = MAGIC_B -> frame_ok HDR FS (map snd wf1) = true ->
    length ws = 2%nat -> map snd ws <> MAGIC_B ->
    contains_magic (map snd wlost) = false ->
    map snd wm3 = MAGIC_B -> frame_ok HDR FS (map snd wf3) = true ->
    punctual (wm1 ++ wf1 ++ ws ++ wlost ++ wm3 ++ wf3) = true ->
    (span wm1 < 5000)%N ->
    (span (wlost ++ wm3) < 2000)%N ->
    (span (wf1 ++ ws ++ wlost ++ wm3) < duration * 1000)%N ->
    run_capture HDR FS gap duration
      (mkWorld t0 (wm1 ++ wf1 ++ ws ++ wlost ++ wm3 ++ wf3))
    = (TimedOut,
       mkState
         (mkWorld (t0 + span (wm1 ++ wf1 ++ ws ++ wlost ++ wm3 ++ wf3) + READ_TIMEOUT) [])
         (deliver gap (header_of HDR (map snd wf3)) (payload_of HDR (map snd wf3))
            (deliver gap (header_of HDR (map snd wf1)) (payload_of HDR (map snd wf1))
               fresh))).
Proof.
  intros HDR FS gap wm1 wf1 ws wlost wm3 wf3 duration t0 H6 H10 Hm1 Hf1 Hws Hne Hno Hm3 Hf3
    Hp Hs1 Hs2 Hd.
  rewrite !SerialFacts.punctual_app in Hp. rewrite !andb_true_iff in Hp.
  destruct Hp as (Hpm1 & Hpf1 & Hpws & Hpl & Hpm3 & Hpf3).
  unfold run_capture.
  change (wm1 ++ wf1 ++ ws ++ wlost ++ wm3 ++ wf3)
    with ([] ++ wm1 ++ wf1 ++ ws ++ wlost ++ wm3 ++ wf3) at 1.
  rewrite (SerialFacts.sync_punctual [] wm1 5000 t0 _ eq_refl Hm1)
    by (cbn [app]; assumption).
  cbn [app now wire port].
  set (t1 := (t0 + span wm1)%N).
  rewrite !SerialFacts.span_app in Hd. rewrite SerialFacts.span_app in Hs2.
  assert (Hnow : (t1 <? t1 + duration * 1000)%N = true) by (apply N.ltb_lt; lia).
  assert (Hnow' : (t1 + span wf1 + span ws + span (wlost ++ wm3) <? t1 + duration * 1000)%N
                  = true)
    by (apply N.ltb_lt; rewrite SerialFacts.span_app; lia).
  destruct (length (wf1 ++ ws ++ wlost ++ wm3 ++ wf3)) as [|fuel] eqn:Hlen.
  { rewrite !length_app in Hlen. lia. }
  rewrite (SerialFacts.capture_loop_unfold HDR FS gap). cbn [now]. rewrite Hnow.
  rewrite (SerialFacts.frame_body_attempt HDR FS gap H6 H10).
  rewrite (SerialFacts.attempt_punctual HDR FS wf1 t1 _ Hf1 Hpf1). cbn [carry_on].
  rewrite (StrayFacts.stay_framed_stray ws _ _ _ Hws Hpws Hne).
  rewrite (StrayFacts.resync_punctual wlost wm3 _ _ _ Hno Hm3)
    by (try (rewrite SerialFacts.punctual_app, Hpl, Hpm3; reflexivity);
        rewrite SerialFacts.span_app; lia).
  destruct fuel as [|fuel].
  { rewrite !length_app in Hlen. apply (f_equal (@length _)) in Hm3.
    rewrite length_map in Hm3. cbn in Hm3. lia. }
  rewrite (SerialFacts.capture_loop_unfold HDR FS gap). cbn [now]. rewrite Hnow'.
  rewrite (SerialFacts.frame_body_attempt HDR FS gap H6 H10).
  rewrite <- (app_nil_r wf3) at 1.
  rewrite (SerialFacts.attempt_punctual HDR FS wf3 _ [] Hf3 Hpf3). cbn [carry_on].
  rewrite SerialFacts.stay_framed_silent.
  unfold t1. rewrite !SerialFacts.span_app. do 3 f_equal. lia.
Qed.

(** The theorem after one stray byte: [frame_6], valid, lies between the
    two copies of [frame_5] and is not delivered. *)
Lemma stray_bytes_cost_a_frame_witness :
  frame_ok 6 512 frame_6 = true
  /\ run_capture 6 512 false 5
       (mkWorld 0 (instant MAGIC_B ++ instant frame_5 ++ instant [x00; x5a]
                   ++ instant (xa5 :: frame_6) ++ instant MAGIC_B ++ instant frame_5))
     = (TimedOut,
        mkState (mkWorld 1000 [])
          (mkLocals 2 0 1 (Some 5) [mkRow 0 0xFFF None; mkRow 1 0xFFF None])).
Proof.
  split; [vm_compute; reflexivity|].
  refine (eq_trans
            (stray_bytes_cost_a_frame 6 512 false (instant MAGIC_B) (instant frame_5)
               (instant [x00; x5a]) (instant (xa5 :: frame_6)) (instant MAGIC_B)
               (instant frame_5) 5 0 _ _ _ _ _ _ _ _ _ _ _ _ _) _).
  - lia.
  - discriminate.
  - reflexivity.
  - vm_compute. reflexivity.
  - reflexivity.
  - discriminate.
  - vm_compute. reflexivity.
  - reflexivity.
  - vm_compute. reflexivity.
  - vm_compute. reflexivity.
  - vm_compute. reflexivity.
  - vm_compute. reflexivity.
  - vm_compute. reflexivity.
  - vm_compute. reflexivity.
Defined.

(** X7 -- Both checksums catch every one-byte error.  Two messages that
    differ in exactly one byte have different [crc16], and different
    [crc16_ibm].  For the blob formats this covers the trailer too: when a
    buffer passes the check [crc16_ibm(buf[:-2]) == trailer], no buffer that
    differs from it in one byte does. *)
Theorem checksums_detect_byte_errors :
  (forall a b b' c, b <> b' -> crc16 (a ++ b :: c) <> crc16 (a ++ b' :: c))
  /\ (forall a b b' c, b <> b' -> crc16_ibm (a ++ b :: c) <> crc16_ibm (a ++ b' :: c))
  /\ (forall a b b' c,
        b <> b' -> (2 <= length (a ++ b :: c))%nat ->
        crc16_ibm (drop_last2 (a ++ b :: c)) = trailer (a ++ b :: c) ->
        crc16_ibm (drop_last2 (a ++ b' :: c)) <> trailer (a ++ b' :: c)).
Proof.
  split; [exact ResidueFacts.crc16_byte_error|].
  split; [exact ResidueFacts.crc16_ibm_byte_error|].
  intros a b b' c Hb Hlen H H'.
  apply ResidueFacts.blob_check in H; [|assumption].
  apply ResidueFacts.blob_check in H'; [|rewrite length_app in *; cbn [length] in *; lia].
  apply (ResidueFacts.crc16_ibm_byte_error a b b' c Hb). congruence.
Qed.


(** X8 -- The blob check is the residue test.  For a buffer of two bytes
    or more, [crc16_ibm(buf[:-2])] equals the little-endian number in the
    last two bytes exactly when [crc16_ibm(buf)] is 0. *)
Theorem blob_check_is_residue :
  forall buf : bytes,
    (2 <= length buf)%nat ->
    (crc16_ibm (drop_last2 buf) = trailer buf <-> crc16_ibm buf = 0).
Proof. exact ResidueFacts.blob_check. Qed.

(** The theorem on [blob_7]. *)
Lemma blob_check_is_residue_witness :
  crc16_ibm blob_7 = 0 /\ crc16_ibm (drop_last2 blob_7) = trailer blob_7.
Proof.
  assert (H : crc16_ibm blob_7 = 0) by (vm_compute; reflexivity).
  split; [exact H|].
  apply (proj2 (blob_check_is_residue blob_7 ltac:(cbn; lia))). exact H.
Defined.

(** X9 -- The rows of RPC_capture.py.  [run_capture] raises nothing.  The
    [adc_raw] column is, in order, the samples of the answers [parse_frame]
    accepts; the rows are numbered 0, 1, 2, ... without a hole; [total] is
    the number of rows; and every value written lies in 0..16383. *)
Theorem rpc_capture_csv_content :
  forall resps,
    exists v,
      RPC_capture.run_capture resps = Val v
      /\ map snd (RPC_capture.csv v)
         = flat_map (fun resp => match RPC_capture.parse_frame resp with
                                 | Val (Some _, Some samples) => samples
                                 | _ => []
                                 end) resps
      /\ map fst (RPC_capture.csv v)
         = map Z.of_nat (seq 0 (length (RPC_capture.csv v)))
      /\ RPC_capture.total v = Z.of_nat (length (RPC_capture.csv v))
      /\ Forall (fun s => 0 <= s < 16384) (map snd (RPC_capture.csv v)).
Proof.
  intros resps.
  destruct (RPC_rows_facts.capture_loop_rows_capture resps RPC_capture.fresh eq_refl)
    as (v & Hv & H1 & H2 & H3 & _).
  exists v. cbn [RPC_capture.fresh RPC_capture.csv map app length] in H2, H3.
  rewrite Nat.sub_0_r in H3.
  split; [exact Hv|]. split; [exact H2|]. split; [exact H3|]. split; [exact H1|].
  rewrite H2. apply Forall_flat_map, Forall_forall. intros resp _.
  apply RPC_rows_facts.capture_delivered_range.
Qed.

(** X11 -- The rows of RPC_sample_csv.py.  [run_capture] raises nothing.
    The columns [adc_raw] and [timestamp_ms] are, in order, the pairs
    [zip(samples, timestamps)] of the answers; the rows are numbered 0, 1,
    2, ... without a hole; and [total] is the number of rows. *)
Theorem stamped_csv_content :
  forall resps,
    exists v,
      RPC_sample_csv.run_capture resps = Val v
      /\ map (fun r => (RPC_sample_csv.adc_raw r, RPC_sample_csv.timestamp_ms r))
             (RPC_sample_csv.csv v)
         = flat_map (fun resp => match RPC_sample_csv.parse_frame resp with
                                 | Val (samples, timestamps) => combine samples timestamps
                                 | Exn _ => []
                                 end) resps
      /\ map RPC_sample_csv.sample_index (RPC_sample_csv.csv v)
         = map Z.of_nat (seq 0 (length (RPC_sample_csv.csv v)))
      /\ RPC_sample_csv.total v = Z.of_nat (length (RPC_sample_csv.csv v)).
Proof.
  intros resps.
  destruct (Stamped_rows_facts.capture_loop_rows_stamped resps RPC_sample_csv.fresh eq_refl)
    as (v & Hv & H1 & H2 & H3 & _).
  exists v. cbn [RPC_sample_csv.fresh RPC_sample_csv.csv map app length] in H2, H3.
  rewrite Nat.sub_0_r in H3.
  split; [exact Hv|]. split; [exact H2|]. split; [exact H3|exact H1].
Qed.

(** X12 -- What [parse_frame] of RPC_sample_csv.py returns.  As many
    timestamps as samples (so [zip] drops nothing), at most 255 of them;
    every sample in 0..65535; the first timestamp below 2^32 + 255 and each
    further one above the one before it by 0 to 255: the sum is not wrapped
    to 32 bits. *)
Theorem stamped_frame_shape :
  forall resp samples timestamps,
    RPC_sample_csv.parse_frame resp = Val (samples, timestamps) ->
    length timestamps = length samples
    /\ (length samples <= 255)%nat
    /\ Forall (fun s => 0 <= s < 65536) samples
    /\ (forall t, nth_error timestamps 0 = Some t -> 0 <= t < 2 ^ 32 + 255)
    /\ (forall i a b,
          nth_error timestamps i = Some a -> nth_error timestamps (S i) = Some b ->
          a <= b <= a + 255).
Proof.
  intros resp samples timestamps H.
  destruct (Stamped_rows_facts.parse_frame_shape resp samples timestamps H)
    as (H1 & H2 & H3 & t0 & Ht0 & Hs).
  split; [assumption|]. split; [assumption|]. split; [assumption|]. split.
  - intros t Ht. destruct timestamps as [|x rest]; [discriminate|].
    injection Ht as ->. cbn in Hs. lia.
  - intros i a b. now apply (Stamped_rows_facts.stepwise_nth timestamps t0).
Qed.

(** The theorem on [stamped_1]. *)
Lemma stamped_frame_shape_witness :
  RPC_sample_csv.parse_frame (RPC.PyBytes stamped_1) = Val ([0xFFFF], [1003])
  /\ length [1003] = length [0xFFFF]
  /\ (length [0xFFFF%Z] <= 255)%nat.
Proof.
  assert (H : RPC_sample_csv.parse_frame (RPC.PyBytes stamped_1) = Val ([0xFFFF], [1003]))
    by (vm_compute; reflexivity).
  split; [exact H|].
  destruct (stamped_frame_shape _ _ _ H) as (H1 & H2 & _).
  split; assumption.
Defined.

(** X13 -- The overflow marker eats frames of 33 samples.  Both RPC
    parsers drop a leading byte 0x21 before they look at the frame.  A
    buffer that is a complete frame with the right checksum, but whose first
    byte is 0x21 (the low byte of a count of 33, 289, ...; the count 33 in
    RPC_sample_csv.py), is therefore rejected when it comes without the
    marker, as a [bytes] object or as hexadecimal text: what is left after
    the byte is dropped cannot have the length its count asks for.
    [blob_33] and [stamped_33] are such frames. *)
Theorem overflow_marker_eats_frames :
  (forall rest,
      RPC_capture.well_formed (x21 :: rest) = true ->
      RPC_capture.parse_frame (RPC.PyBytes (x21 :: rest)) = Val (None, None)
      /\ RPC_capture.parse_frame (RPC.PyOther (Some (x21 :: rest))) = Val (None, None))
  /\ (forall rest,
        RPC_sample_csv.well_formed (x21 :: rest) = true ->
        RPC_sample_csv.parse_frame (RPC.PyBytes (x21 :: rest)) = Val ([], [])
        /\ RPC_sample_csv.parse_frame (RPC.PyOther (Some (x21 :: rest))) = Val ([], []))
  /\ RPC_capture.well_formed blob_33 = true
  /\ RPC_capture.count_of blob_33 = 33
  /\ RPC_sample_csv.well_formed stamped_33 = true
  /\ RPC_sample_csv.count_of stamped_33 = 33.
Proof.
  split; [|split].
  - intros rest Hwf. unfold RPC_capture.parse_frame.
    rewrite OverflowFacts.to_buf_marker. cbn [RPC.to_buf RPC.truthy negb].
    split; now apply OverflowFacts.capture_marker_stripped.
  - intros rest Hwf. unfold RPC_sample_csv.parse_frame.
    rewrite OverflowFacts.to_buf_marker. cbn [RPC.to_buf RPC.truthy negb].
    split; now apply OverflowFacts.stamped_marker_stripped.
  - repeat split; vm_compute; reflexivity.
Qed.

(** X14 -- The late-marker branch of csvfile.py and csvlist.py never
    recovers a batch.  On a transfer of [TOTAL_BYTES] bytes (2050 in both
    scripts) that starts with the marker, 1024 signed 16-bit samples are
    written.  Otherwise the branch that looks for the marker further on is
    taken only when the marker is one or two bytes late, the slice it takes
    is then 2047 or 2046 bytes long, and [struct.unpack] raises
    [struct.error]; in every other case the transfer is dropped. *)
Theorem late_marker_never_recovers :
  forall data,
    Z.of_nat (length data) = csvfile.TOTAL_BYTES ->
    (forall v,
        csvfile.on_batch v data
        = if SPI.starts_with csvfile.MAGIC data
          then Val (csvfile.write_samples (batch_samples data) v)
          else if marker_late data then Exn StructError else Val v)
    /\ (forall csv,
          csvlist.on_batch csv data
          = if SPI.starts_with csvlist.MAGIC data
            then Val (csv ++ batch_samples data)
            else if marker_late data then Exn StructError else Val csv)
    /\ (SPI.starts_with csvfile.MAGIC data = true ->
        length (batch_samples data) = 1024%nat
        /\ Forall (fun s => -32768 <= s <= 32767) (batch_samples data)).
Proof.
  intros data Hlen.
  assert (H : length data = 2050%nat) by (unfold csvfile.TOTAL_BYTES, csvfile.BATCH_SIZE in Hlen; lia).
  split; [|split].
  - intros v. rewrite (SPIFacts.csvfile_on_batch v data H).
    unfold batch_samples, csvfile.MAGIC. now destruct (SPI.starts_with [x5a; xa5] data).
  - intros csv. rewrite (SPIFacts.csvlist_on_batch csv data H).
    unfold batch_samples, csvlist.MAGIC. now destruct (SPI.starts_with [x5a; xa5] data).
  - intros Hs. unfold csvfile.MAGIC in Hs. split.
    + now rewrite (SPIFacts.batch_samples_length data H), Hs.
    + unfold batch_samples. rewrite Hs. apply Forall_map.
      eapply Forall_impl; [|apply WordFacts.words16_range].
      intros u Hu. now apply WordFacts.to_int16_range.
Qed.

(** The theorem on a transfer with the marker one byte late, and on an
    aligned one. *)
Lemma late_marker_never_recovers_witness :
  csvfile.on_batch (csvfile.mkLocals 0 []) late_batch = Exn StructError
  /\ csvlist.on_batch [] late_batch = Exn StructError
  /\ length (batch_samples aligned_batch) = 1024%nat.
Proof.
  destruct (late_marker_never_recovers late_batch eq_refl) as (H1 & H2 & _).
  destruct (late_marker_never_recovers aligned_batch eq_refl) as (_ & _ & H3).
  split; [rewrite H1; reflexivity|]. split; [rewrite H2; reflexivity|].
  apply (H3 eq_refl).
Defined.

(** X15 -- A run of csvfile.py.  As long as no transfer has the marker one
    or two bytes late, the [value] column is, in order, the samples of the
    transfers that start with the marker, and the rows are numbered 0, 1,
    2, ... without a hole.  The first transfer with a late marker ends the
    script with [struct.error]; the rows written before it are in the file,
    the transfers after it are never read. *)
Theorem csvfile_session :
  (forall batches,
      Forall (fun d : bytes => Z.of_nat (length d) = csvfile.TOTAL_BYTES) batches ->
      Forall (fun d => marker_late d = false) batches ->
      exists v,
        csvfile.run_to_csv batches = (v, None)
        /\ map snd (csvfile.csv v) = flat_map batch_samples batches
        /\ map fst (csvfile.csv v) = map Z.of_nat (seq 0 (length (csvfile.csv v)))
        /\ csvfile.sample_count v = Z.of_nat (length (csvfile.csv v)))
  /\ (forall pre d post,
        Forall (fun d : bytes => Z.of_nat (length d) = csvfile.TOTAL_BYTES) (pre ++ [d]) ->
        Forall (fun d => marker_late d = false) pre ->
        marker_late d = true ->
        csvfile.run_to_csv (pre ++ d :: post)
        = (fst (csvfile.run_to_csv pre), Some StructError)).
Proof.
  assert (Hto : forall l : list bytes, Forall (fun d : bytes => Z.of_nat (length d) = csvfile.TOTAL_BYTES) l ->
                          Forall (fun d => length d = 2050%nat) l).
  { intros l. apply Forall_impl. intros d Hd.
    unfold csvfile.TOTAL_BYTES, csvfile.BATCH_SIZE in Hd. lia. }
  split.
  - intros batches Hlen Hok.
    destruct (SPIFacts.csvfile_loop batches (csvfile.mkLocals 0 []) (Hto _ Hlen) Hok
                eq_refl eq_refl) as (v & Hv & H1 & H2 & H3).
    exists v. repeat split; assumption.
  - intros pre d post Hlen Hok Hl. apply Forall_app in Hlen. destruct Hlen as (Hpre & Hd).
    apply Hto in Hpre. apply Hto in Hd. inversion Hd; subst.
    now apply SPIFacts.csvfile_loop_app.
Qed.

(** The theorem on two aligned transfers, and on an aligned, a late and an
    aligned one. *)
Lemma csvfile_session_witness :
  (exists v,
      csvfile.run_to_csv [aligned_batch; aligned_batch] = (v, None)
      /\ csvfile.sample_count v = 2048)
  /\ csvfile.run_to_csv [aligned_batch; late_batch; aligned_batch]
     = (fst (csvfile.run_to_csv [aligned_batch]), Some StructError).
Proof.
  split.
  - destruct (proj1 csvfile_session [aligned_batch; aligned_batch]) as (v & Hv & H1 & _ & H3).
    + repeat constructor.
    + repeat constructor.
    + exists v. split; [exact Hv|]. rewrite H3, <- (length_map snd), H1. reflexivity.
  - apply (proj2 csvfile_session [aligned_batch] late_batch [aligned_batch]).
    + repeat constructor.
    + repeat constructor.
    + reflexivity.
Defined.

(** X16 -- What debug.py puts on standard output for a transfer of
    [TOTAL_BYTES] bytes: 2048 bytes when it starts with the marker; 2047 or
    2046 bytes when the marker is one or two bytes late (never the 2048
    bytes of a batch, and with one byte late an odd number, after which the
    16-bit samples of the stream are out of step); nothing otherwise. *)
Theorem debug_stream_lengths :
  forall data,
    Z.of_nat (length data) = debug.TOTAL_BYTES ->
    length (debug.on_batch data)
    = if SPI.starts_with debug.MAGIC data then 2048%nat
      else if SPI.find data debug.MAGIC =? 1 then 2047%nat
      else if SPI.find data debug.MAGIC =? 2 then 2046%nat
      else 0%nat.
Proof.
  intros data Hlen. apply SPIFacts.debug_on_batch.
  unfold debug.TOTAL_BYTES, debug.BATCH_SIZE in Hlen. lia.
Qed.

(** The theorem on a late transfer: the stream holds 4095 bytes after an
    aligned and a late one. *)
Lemma debug_stream_lengths_witness :
  length (debug.on_batch late_batch) = 2047%nat
  /\ length (debug.run_stream [aligned_batch; late_batch]) = 4095%nat.
Proof.
  assert (H : length (debug.on_batch late_batch) = 2047%nat)
    by (rewrite (debug_stream_lengths late_batch eq_refl); reflexivity).
  split; [exact H|].
  unfold debug.run_stream. cbn [flat_map]. rewrite app_nil_r, length_app, H.
  rewrite (debug_stream_lengths aligned_batch eq_refl). reflexivity.
Defined.

(** X17 -- What speed.py collects.  When every transfer has [TOTAL_BYTES]
    bytes, [all_data] is, in order, the 512 unsigned 16-bit words that
    follow the first word of each transfer whose first word is 0xABCD; a
    transfer that starts otherwise is dropped whole.  A transfer of another
    length raises [struct.error], and since the file is written after the
    loop, nothing is written at all. *)
Theorem speed_run_content :
  (forall batches,
      Forall (fun raw : bytes => Z.of_nat (length raw) = speed.TOTAL_BYTES) batches ->
      speed.run batches
      = Val (flat_map (fun raw => if le_uint (firstn 2 raw) =? 0xABCD
                                  then words16 (skipn 2 raw) else []) batches))
  /\ (forall raw : bytes,
        Z.of_nat (length raw) = speed.TOTAL_BYTES ->
        length (words16 (skipn 2 raw)) = 512%nat
        /\ Forall (fun s => 0 <= s < 65536) (words16 (skipn 2 raw)))
  /\ (forall pre raw post,
        Forall (fun raw : bytes => Z.of_nat (length raw) = speed.TOTAL_BYTES) pre ->
        Z.of_nat (length raw) <> speed.TOTAL_BYTES ->
        speed.run (pre ++ raw :: post) = Exn StructError).
Proof.
  assert (Hto : forall l : list bytes,
             Forall (fun raw : bytes => Z.of_nat (length raw) = speed.TOTAL_BYTES) l ->
             Forall (fun raw : bytes => length raw = 1026%nat) l).
  { intros l. apply Forall_impl. intros d Hd.
    unfold speed.TOTAL_BYTES, speed.BATCH_SIZE in Hd. lia. }
  split; [|split].
  - intros batches H. unfold speed.run. now rewrite SPIFacts.speed_loop by now apply Hto.
  - intros raw H. unfold speed.TOTAL_BYTES, speed.BATCH_SIZE in H. split.
    + apply SerialFacts.words16_length. rewrite length_skipn. lia.
    + apply WordFacts.words16_range.
  - intros pre raw post H Hr. unfold speed.run. apply SPIFacts.speed_loop_short.
    + now apply Hto.
    + unfold speed.TOTAL_BYTES, speed.BATCH_SIZE in Hr. lia.
Qed.

(** The theorem on a marked, an unmarked and a marked transfer. *)
Lemma speed_run_content_witness :
  speed.run [marked_words; unmarked_words; marked_words] = Val (repeat 1 1024).
Proof.
  rewrite (proj1 speed_run_content [marked_words; unmarked_words; marked_words]).
  - vm_compute. reflexivity.
  - repeat constructor.
Defined.

(** X18 -- What raw_adc_csv.py writes.  One row for every transfer of 8
    bytes whose fourth word is the marker 0xABCD: its first word;
    [samples_collected] is the number of rows.  The menu: a number that is
    5, 10 or 15 is kept, any other number and any line that is no number
    give 5, so a duration the menu gives is 5, 10 or 15; an exception of
    [input] itself (end of input, Ctrl-C) is not caught: it leaves
    [run_capture] before anything is written, and it is the only way the
    menu gives no duration. *)
Theorem raw_adc_capture_content :
  (forall answer d batches,
      raw_adc_csv.menu answer = raw_adc_csv.Duration d ->
      Forall (fun raw : bytes => length raw = 8%nat) batches ->
      exists rows,
        raw_adc_csv.run_capture answer batches
        = raw_adc_csv.Captured d (Val (Z.of_nat (length rows), rows))
        /\ rows = flat_map (fun raw => if le_uint (skipn 6 raw) =? raw_adc_csv.MAGIC_MARKER
                                       then [le_uint (firstn 2 raw)] else []) batches)
  /\ (forall e batches,
        raw_adc_csv.run_capture (raw_adc_csv.NoAnswer e) batches = raw_adc_csv.AtPrompt e)
  /\ (forall answer d,
        raw_adc_csv.menu answer = raw_adc_csv.Duration d -> d = 5 \/ d = 10 \/ d = 15)
  /\ (forall n,
        raw_adc_csv.menu (raw_adc_csv.Typed n) = raw_adc_csv.Duration n
        <-> n = 5 \/ n = 10 \/ n = 15)
  /\ (forall n,
        ~ (n = 5 \/ n = 10 \/ n = 15) ->
        raw_adc_csv.menu (raw_adc_csv.Typed n) = raw_adc_csv.Duration 5)
  /\ raw_adc_csv.menu raw_adc_csv.NotANumber = raw_adc_csv.Duration 5
  /\ (forall answer e,
        raw_adc_csv.menu answer = raw_adc_csv.Escapes e
        <-> answer = raw_adc_csv.NoAnswer e).
Proof.
  assert (Hmenu : forall n,
            raw_adc_csv.menu (raw_adc_csv.Typed n)
            = raw_adc_csv.Duration (if (n =? 5) || (n =? 10) || (n =? 15) then n else 5)).
  { intros n. unfold raw_adc_csv.menu. cbn [existsb]. rewrite orb_false_r, orb_assoc.
    reflexivity. }
  split; [|split; [|split; [|split; [|split; [|split]]]]].
  - intros answer d batches Hd H. eexists. split; [|reflexivity].
    unfold raw_adc_csv.run_capture. rewrite Hd, SPIFacts.raw_loop by assumption.
    reflexivity.
  - reflexivity.
  - intros [n| |e] d H.
    + rewrite Hmenu in H. injection H as <-.
      destruct (Z.eqb_spec n 5); destruct (Z.eqb_spec n 10); destruct (Z.eqb_spec n 15);
        cbn [orb]; lia.
    + injection H as <-. lia.
    + discriminate.
  - intros n. rewrite Hmenu.
    destruct (Z.eqb_spec n 5); destruct (Z.eqb_spec n 10); destruct (Z.eqb_spec n 15);
      cbn [orb]; split; intros H; try reflexivity; try lia;
      injection H as H; lia.
  - intros n H. rewrite Hmenu.
    destruct (Z.eqb_spec n 5); destruct (Z.eqb_spec n 10); destruct (Z.eqb_spec n 15);
      cbn [orb]; try reflexivity; exfalso; apply H; lia.
  - reflexivity.
  - intros [n| |e'] e; split; intros H; try discriminate; try reflexivity.
    + injection H as ->. reflexivity.
    + injection H as ->. reflexivity.
Qed.

(** The theorem on the answer 10 and a marked, an unmarked and a marked
    transfer. *)
Lemma raw_adc_capture_content_witness :
  raw_adc_csv.run_capture (raw_adc_csv.Typed 10) [pins_42; pins_unmarked; pins_42]
  = raw_adc_csv.Captured 10 (Val (2, [42; 42])).
Proof.
  destruct (proj1 raw_adc_capture_content (raw_adc_csv.Typed 10) 10
              [pins_42; pins_unmarked; pins_42])
    as (rows & Hrun & Hrows).
  - reflexivity.
  - repeat constructor.
  - rewrite Hrun, Hrows. reflexivity.
Defined.





(** X21 -- The duration [main] runs a capture for.  In both serial scripts
    and in RPC_sample_csv.py it is 5, 10 or 15 seconds, from the command
    line or from the prompt.  RPC_capture.py takes any [--duration] from the
    command line as it is, and 5, 10 or 15 from the prompt. *)
Theorem capture_duration_choices :
  (forall given answer d,
      Cli.ADC_csv_gather_main given answer = Some d -> d = 5 \/ d = 10 \/ d = 15)
  /\ (forall given answer d,
        Cli.ADC_readcsv_reducedclipping_main given answer = Some d ->
        d = 5 \/ d = 10 \/ d = 15)
  /\ (forall given answer d,
        Cli.RPC_sample_csv_main given answer = Some d -> d = 5 \/ d = 10 \/ d = 15)
  /\ (forall d answer, Cli.RPC_capture_main (Some d) answer = Some d)
  /\ (forall answer,
        exists d, Cli.RPC_capture_main None answer = Some d
                  /\ (d = 5 \/ d = 10 \/ d = 15)).
Proof.
  assert (Hprompt : forall answer,
             let d := Cli.duration_of None answer in d = 5 \/ d = 10 \/ d = 15).
  { intros [n|]; cbn [Cli.duration_of existsb]; [|auto].
    destruct (Z.eqb_spec n 5); destruct (Z.eqb_spec n 10); destruct (Z.eqb_spec n 15);
      cbn [orb]; lia. }
  assert (Hmain : forall given answer d,
             Cli.main (Some [5; 10; 15]) given answer = Some d ->
             d = 5 \/ d = 10 \/ d = 15).
  { intros [g|] answer d; unfold Cli.main, Cli.parse_args.
    - cbn [existsb].
      destruct (Z.eqb_spec g 5); destruct (Z.eqb_spec g 10); destruct (Z.eqb_spec g 15);
        cbn [orb option_map Cli.duration_of]; intros H; try discriminate;
        injection H as <-; lia.
    - cbn [option_map]. intros H. injection H as <-. apply Hprompt. }
  split; [exact Hmain|]. split; [exact Hmain|]. split; [exact Hmain|].
  split; [reflexivity|].
  intros answer. eexists. split; [reflexivity|]. apply Hprompt.
Qed.

(** *** Streams of frames *)

Module CleanFacts.
Import SerialFacts.

Lemma last_cons {A} (l : list A) : forall x d, last (x :: l) d = last l x.
Proof.
  induction l as [|y l IH]; intros x d; [reflexivity|].
  change (last (x :: y :: l) d) with (last (y :: l) d). now rewrite !IH.
Qed.

(** The last frame of a stream of frames is part of the stream. *)
Lemma span_last_le rest : forall wf : list (N * byte),
  (span (last (map snd rest) wf) <= span (wf ++ framed rest))%N.
Proof.
  induction rest as [|[wm wf'] rest IH]; intros wf.
  - cbn [map last framed flat_map]. rewrite app_nil_r. lia.
  - cbn [map snd]. rewrite last_cons.
    cbn [framed flat_map fst snd]. fold (framed rest).
    specialize (IH wf'). rewrite <- app_assoc, !span_app in *. lia.
Qed.

Section Clean.

Variables (HDR : nat) (FS : Z) (gap : bool).
Hypothesis header_fields : (6 <= HDR)%nat.
Hypothesis header_gap_field : gap = true -> (10 <= HDR)%nat.

Local Abbreviation delivering :=
  (fold_left (fun v (wf : list (N * byte)) =>
                deliver gap (header_of HDR (map snd wf)) (payload_of HDR (map snd wf)) v)).
Local Abbreviation marked :=
  (fun p : list (N * byte) * list (N * byte) =>
     map snd (fst p) = MAGIC_B /\ frame_ok HDR FS (map snd (snd p)) = true).

Lemma capture_loop_clean rest : forall fuel end_time t wf v,
  frame_ok HDR FS (map snd wf) = true ->
  Forall marked rest ->
  punctual (wf ++ framed rest) = true ->
  (t + (span (wf ++ framed rest) - span (last (map snd rest) wf)) < end_time)%N ->
  (length rest < fuel)%nat ->
  capture_loop HDR FS gap fuel end_time (mkState (mkWorld t (wf ++ framed rest)) v)
  = Raise TimeoutError
      (mkState (mkWorld (t + span (wf ++ framed rest) + READ_TIMEOUT) [])
               (delivering (wf :: map snd rest) v)).
Proof.
  induction rest as [|[wm wf'] rest IH]; intros fuel end_time t wf v Hf Hall Hp Ht Hfuel.
  - destruct fuel as [|fuel]; [cbn in Hfuel; lia|].
    cbn [framed flat_map] in *. rewrite app_nil_r in *.
    rewrite (capture_loop_unfold HDR FS gap). cbn [now].
    assert (E : (t <? end_time)%N = true) by (apply N.ltb_lt; lia). rewrite E.
    rewrite (frame_body_attempt HDR FS gap header_fields header_gap_field).
    rewrite <- (app_nil_r wf) at 1.
    rewrite (attempt_punctual HDR FS wf t [] Hf Hp). cbn [carry_on].
    rewrite stay_framed_silent. reflexivity.
  - destruct fuel as [|fuel]; [cbn in Hfuel; lia|].
    inversion Hall as [|? ? (Hm & Hf') Hrest]; subst. cbn [fst snd] in Hm, Hf'.
    cbn [framed flat_map fst snd] in *. fold (framed rest) in *.
    rewrite <- !app_assoc in *.
    rewrite !punctual_app in Hp. rewrite !andb_true_iff in Hp.
    destruct Hp as (Hpf & Hpm & Hpf' & Hprest).
    cbn [map snd] in Ht. rewrite last_cons in Ht.
    pose proof (span_last_le rest wf') as Hlast.
    rewrite span_app in Hlast. repeat rewrite span_app in Ht.
    rewrite (capture_loop_unfold HDR FS gap). cbn [now].
    assert (E : (t <? end_time)%N = true) by (apply N.ltb_lt; lia). rewrite E.
    rewrite (frame_body_attempt HDR FS gap header_fields header_gap_field).
    rewrite (attempt_punctual HDR FS wf t _ Hf Hpf). cbn [carry_on].
    rewrite (stay_framed_punctual wm _ _ _ Hm Hpm).
    rewrite (IH fuel end_time _ wf' _ Hf' Hrest).
    + cbn [map snd fold_left]. rewrite !span_app. do 3 f_equal. lia.
    + now rewrite punctual_app, Hpf', Hprest.
    + rewrite span_app. lia.
    + cbn [length] in Hfuel. lia.
Qed.

End Clean.

Lemma framed_length rest :
  Forall (fun p : list (N * byte) * list (N * byte) => map snd (fst p) = MAGIC_B) rest ->
  (length rest <= length (framed rest))%nat.
Proof.
  induction rest as [|[wm wf] rest IH]; intros H; [cbn; lia|].
  inversion H as [|? ? Hm Hrest]; subst. cbn [fst] in Hm.
  cbn [framed flat_map fst snd length]. fold (framed rest).
  rewrite !length_app. specialize (IH Hrest).
  apply (f_equal (@length _)) in Hm. rewrite length_map in Hm. cbn in Hm. lia.
Qed.

End CleanFacts.

(** X22 -- A clean stream is delivered whole.  On a stream made of any
    number of valid frames, each behind its marker, that reaches the port
    without a stall (no byte more than a read timeout after the one before,
    the first marker within the five seconds of the initial [sync], the
    the marker of the last frame there before the duration has elapsed;
    the frame itself may end after it), [run_capture] delivers every frame,
    in order, and nothing else; the session then ends on the
    [TimeoutError] of the read that follows the last frame. *)
Theorem clean_stream_is_delivered_whole :
  forall HDR FS gap (wm1 wf1 : list (N * byte)) rest duration t0,
    (6 <= HDR)%nat -> (gap = true -> (10 <= HDR)%nat) ->
    map snd wm1 = MAGIC_B -> frame_ok HDR FS (map snd wf1) = true ->
    Forall (fun p => map snd (fst p) = MAGIC_B
                     /\ frame_ok HDR FS (map snd (snd p)) = true) rest ->
    punctual (wm1 ++ wf1 ++ framed rest) = true ->
    (span wm1 < 5000)%N ->
    (span (wf1 ++ framed rest) - span (last (map snd rest) wf1) < duration * 1000)%N ->
    run_capture HDR FS gap duration (mkWorld t0 (wm1 ++ wf1 ++ framed rest))
    = (TimedOut,
       mkState
         (mkWorld (t0 + span (wm1 ++ wf1 ++ framed rest) + READ_TIMEOUT) [])
         (fold_left (fun v (wf : list (N * byte)) =>
                       deliver gap (header_of HDR (map snd wf))
                               (payload_of HDR (map snd wf)) v)
                    (wf1 :: map snd rest) fresh)).
Proof.
  intros HDR FS gap wm1 wf1 rest duration t0 H6 H10 Hm1 Hf1 Hall Hp Hs Hd.
  rewrite !SerialFacts.punctual_app in Hp. rewrite !andb_true_iff in Hp.
  destruct Hp as (Hpm & Hpf & Hpr).
  unfold run_capture.
  change (wm1 ++ wf1 ++ framed rest) with ([] ++ wm1 ++ wf1 ++ framed rest) at 1.
  rewrite (SerialFacts.sync_punctual [] wm1 5000 t0 _ eq_refl Hm1)
    by (cbn [app]; assumption).
  cbn [app now wire port].
  rewrite (CleanFacts.capture_loop_clean HDR FS gap H6 H10 rest).
  - rewrite !SerialFacts.span_app. do 3 f_equal. lia.
  - assumption.
  - assumption.
  - now rewrite SerialFacts.punctual_app, Hpf, Hpr.
  - lia.
  - rewrite length_app.
    assert (Hl : (length rest <= length (framed rest))%nat).
    { apply CleanFacts.framed_length. eapply Forall_impl; [|exact Hall]. cbn. tauto. }
    lia.
Qed.

(** The theorem on [frame_5] and [frame_6] with a duration of one second:
    the marker of [frame_6] is complete after 0.6 s, the frame itself after
    1.8 s, and it is delivered. *)
Lemma clean_stream_is_delivered_whole_witness :
  run_capture 6 512 false 1
    (mkWorld 0 (paced 2 MAGIC_B ++ paced 50 frame_5
                ++ framed [(paced 50 MAGIC_B, paced 100 frame_6)]))
  = (TimedOut,
     mkState (mkWorld 2804 [])
       (mkLocals 3 0 0 (Some 6)
          [mkRow 0 0xFFF None; mkRow 1 0x123 None; mkRow 2 1 None])).
Proof.
  refine (eq_trans
            (clean_stream_is_delivered_whole 6 512 false (paced 2 MAGIC_B) (paced 50 frame_5)
               [(paced 50 MAGIC_B, paced 100 frame_6)]
               1 0 _ _ _ _ _ _ _ _) _).
  - lia.
  - discriminate.
  - reflexivity.
  - vm_compute. reflexivity.
  - repeat constructor.
  - vm_compute. reflexivity.
  - vm_compute. reflexivity.
  - vm_compute. reflexivity.
  - vm_compute. reflexivity.
Defined.

(** *** Bit-depth masking *)

(** C7 (amended) -- Bit-depth masking.  Three decoders mask by bitwise
    AND.  The sample loop of the serial scripts appends each sample modulo
    2^12 to the [adc_raw] column, so that the column of a whole session is,
    in order, the 16-bit words of the accepted payloads modulo 2^12: 0xFFFF
    is written as 0xFFF and 0x8001 as 1.  [read_samples] of RPC_capture.py
    returns each 16-bit word modulo 2^14, these are the samples
    [parse_frame] returns and [run_capture] writes: 0xFFFF gives 0x3FFF and
    0x4001 gives 1.  RPC_sample_csv.py returns the 16-bit words of its
    (sample, delta) triples as they are: 0xFFFF is written as 0xFFFF. *)
Theorem masking_per_format :
  (forall flag samples v,
      map adc_raw (csv (write_samples flag samples v))
      = map adc_raw (csv v) ++ map (fun s => s mod 4096) samples)
  /\ (forall duration w,
        map adc_raw (csv (vars (snd (ADC_csv_gather.run_capture duration w))))
        = map (fun u => u mod 4096)
              (flat_map (fun f => words16 (snd f))
                        (accepted_frames (session 6 512 false duration w))))
  /\ (forall duration w,
        map adc_raw (csv (vars (snd (ADC_readcsv_reducedclipping.run_capture duration w))))
        = map (fun u => u mod 4096)
              (flat_map (fun f => words16 (snd f))
                        (accepted_frames (session 10 16384 true duration w))))
  /\ map adc_raw
       (csv (vars (snd (ADC_csv_gather.run_capture 5
                          (mkWorld 0 (instant (MAGIC_B ++ frame_5 ++ MAGIC_B ++ frame_6)))))))
     = [0xFFF; 0x123; 1]
  /\ map adc_raw
       (csv (vars (snd (ADC_readcsv_reducedclipping.run_capture 5
                          (mkWorld 0 (instant (MAGIC_B ++ gap_frame_5)))))))
     = [0xFFF]
  /\ (forall n buf i,
        (6 + 2 * (i + n) <= length buf)%nat ->
        RPC_capture.read_samples n buf i
        = Val (map (fun u => u mod 16384)
                   (words16 (firstn (2 * n) (skipn (6 + i * 2) buf)))))
  /\ (forall resp seq samples,
        RPC_capture.parse_frame resp = Val (Some seq, Some samples) ->
        exists buf0,
          RPC.to_buf resp = Some buf0
          /\ samples
             = map (fun u => u mod 16384)
                   (words16 (firstn (2 * Z.to_nat (le_uint (firstn 2 (RPC_capture.strip_overflow buf0))))
                                    (skipn 6 (RPC_capture.strip_overflow buf0)))))
  /\ (forall resps,
        exists v,
          RPC_capture.run_capture resps = Val v
          /\ map snd (RPC_capture.csv v)
             = flat_map (fun resp => match RPC_capture.parse_frame resp with
                                     | Val (Some _, Some samples) => samples
                                     | _ => []
                                     end) resps)
  /\ RPC_capture.parse_frame (RPC.PyBytes blob_7) = Val (Some 7, Some [0x3FFF; 0x1234])
  /\ RPC_capture.parse_frame (RPC.PyBytes blob_8) = Val (Some 8, Some [1; 0x3FFF])
  /\ (forall n buf off t,
        (off + 3 * n <= length buf)%nat ->
        RPC_sample_csv.read_samples n buf off t
        = Val (RPC_sample_csv.triples (firstn (3 * n) (skipn off buf)) t))
  /\ (forall lo hi dt rest t,
        fst (RPC_sample_csv.triples (lo :: hi :: dt :: rest) t)
        = le_uint [lo; hi] :: fst (RPC_sample_csv.triples rest (t + b2z dt)))
  /\ (forall buf0,
        RPC_sample_csv.parse_buf buf0
        = let buf := RPC_sample_csv.strip_overflow buf0 in
          if RPC_sample_csv.well_formed buf
          then Val (RPC_sample_csv.decoded buf)
          else Val ([], []))
  /\ RPC_sample_csv.parse_frame (RPC.PyBytes stamped_1) = Val ([0xFFFF], [1003])
  /\ RPC_sample_csv.run_capture [RPC.PyBytes stamped_1]
     = Val (RPC_sample_csv.mkLocals 1 0 [RPC_sample_csv.mkRow 0 1003 0xFFFF]).
Proof.
  assert (Hwords : forall frames : list (bytes * bytes),
            map (fun s => s mod 4096) (flat_map (fun f => samples_of (snd f)) frames)
            = map (fun u => u mod 4096) (flat_map (fun f => words16 (snd f)) frames)).
  { induction frames as [|f frames IH]; [reflexivity|].
    cbn [flat_map]. rewrite !map_app, IH. f_equal.
    unfold samples_of. rewrite map_map. apply map_ext. intros u. apply to_int16_mod. }
  split.
  { intros flag samples v. rewrite SerialFacts.write_samples_spec. cbn [csv].
    rewrite map_app. f_equal. apply SessionFacts.rows_from_raw. }
  split.
  { intros duration w. rewrite <- Hwords.
    apply (SessionFacts.run_capture_rows 6 512 false duration w); [lia|discriminate]. }
  split.
  { intros duration w. rewrite <- Hwords.
    apply (SessionFacts.run_capture_rows 10 16384 true duration w); [lia|intros _; lia]. }
  split; [vm_compute; reflexivity|].
  split; [vm_compute; reflexivity|].
  split.
  { intros n buf i H. rewrite RPC_capture_facts.read_samples_ok_capture by assumption.
    f_equal. apply map_ext. intros u. apply land_0x3FFF. }
  split.
  { intros resp seq samples H.
    destruct (RPC_capture_facts.parse_frame_cases_capture resp) as [E|(buf0 & Hb & _ & E)];
      rewrite E in H; [discriminate|].
    exists buf0. split; [assumption|].
    assert (Hs : RPC_capture.samples_of (RPC_capture.strip_overflow buf0) = samples)
      by congruence.
    rewrite <- Hs. unfold RPC_capture.samples_of. apply map_ext. intros u.
    apply land_0x3FFF. }
  split.
  { intros resps.
    destruct (RPC_rows_facts.capture_loop_rows_capture resps RPC_capture.fresh eq_refl)
      as (v & Hv & _ & H2 & _).
    exists v. split; [exact Hv|exact H2]. }
  split; [vm_compute; reflexivity|].
  split; [vm_compute; reflexivity|].
  split; [exact RPC_sample_facts.read_samples_ok_stamped|].
  split; [reflexivity|].
  split; [exact RPC_sample_facts.parse_buf_spec_stamped|].
  split; vm_compute; reflexivity.
Qed.
